(** * habitat-sim: MetadataMediator path lookup and the CubeMap render target

  A shallow embedding of
  - [esp::metadata::MetadataMediator] (file-path lookup by handle), and
  - [esp::gfx::CubeMap] (construction, reset, texture access, save/load of
  the six faces, render-to-texture),
  as state-passing Rocq functions, with the properties of the
  specification stated and proved (or refuted) over them. *)

From Stdlib Require Import ZArith List Lia Bool.
From stdpp Require Import base option gmap strings list pretty.

Local Open Scope string_scope.
Local Open Scope list_scope.
Local Open Scope Z_scope.

(** ** A state monad with fatal outcomes

  The C++ code mutates an object and a process-wide context, and may stop
  at a failed assertion, a thrown exception or undefined behaviour.  A
  computation maps the state to an outcome and the state reached; the state
  reached is kept on failure as well, so that what happened before a fatal
  stop can be inspected. *)

Section StateFail.
Context {St Err : Type}.

Inductive Outcome (A : Type) : Type :=
  | Done (a : A)
  | Fatal (e : Err).

Definition M (A : Type) : Type := St -> Outcome A * St.

Definition ret {A} (a : A) : M A := fun s => (Done A a, s).

Definition bind {A B} (c : M A) (k : A -> M B) : M B :=
  fun s =>
  match c s with
  | (Done _ a, s') => k a s'
  | (Fatal _ e, s') => (Fatal B e, s')
  end.

Definition fatal {A} (e : Err) : M A := fun s => (Fatal A e, s).
Definition get : M St := fun s => (Done St s, s).
Definition gets {A} (f : St -> A) : M A := fun s => (Done A (f s), s).
Definition modify (f : St -> St) : M unit := fun s => (Done unit tt, f s).
End StateFail.

Arguments Outcome : clear implicits.
Arguments M : clear implicits.
Arguments Done {Err A} a.
Arguments Fatal {Err A} e.

Notation "'let*' x ':=' c 'in' k" := (bind c (fun x => k))
  (at level 10, x name, c at level 100, k at level 200).
Notation "c ';;;' k" := (bind c (fun _ => k))
  (at level 100, k at level 200, right associativity).

(** ** MetadataMediator *)

Module MetadataMediator.

Inductive Severity := ERROR | WARNING | INFO.

(** The two handle-to-path tables of a scene dataset
  ([std::map<std::string, std::string>]), as returned by
  [getNavmeshMap] and [getSemanticSceneDescrMap]. *)
Record SceneDatasetAttributes := {
  getNavmeshMap : gmap string string;
  getSemanticSceneDescrMap : gmap string string;
}.

(** [std::map::at] throws when the key is absent. *)
Inductive Exception := out_of_range.

Section Mediator.
(** The simulator configuration and the two attributes managers are not part
    of the sources; their types are parameters, and so is
    [getObjectByHandle] of the scene dataset attributes manager, which yields
    the registered object or [nullptr] ([None]). *)
Variable SimulatorConfiguration : Type.
Variable PhysicsAttributesManager : Type.
Variable SceneDatasetAttributesManager : Type.
Variable getObjectByHandle :
  SceneDatasetAttributesManager -> string -> option SceneDatasetAttributes.

(** The instance variables of [MetadataMediator]. *)
Record Mediator := {
  simConfig_ : SimulatorConfiguration;
  activeSceneDataset_ : string;
  currPhysicsManagerAttributes_ : string;
  sceneDatasetAttributesManager_ : SceneDatasetAttributesManager;
  physicsAttributesManager_ : PhysicsAttributesManager;
}.

(** The mediator together with the log it writes to. *)
Record State := {
  mm : Mediator;
  glog : list (Severity * string);
}.

Definition LOG (sev : Severity) (msg : string) : M State Exception unit :=
  modify (fun s => {| mm := mm s; glog := glog s ++ [(sev, msg)] |}).

(** [std::map::count] and [std::map::at]. *)
Definition count (m : gmap string string) (k : string) : nat :=
  match m !! k with Some _ => 1%nat | None => 0%nat end.

Definition at_ (m : gmap string string) (k : string)
  : M State Exception string :=
  match m !! k with Some v => ret v | None => fatal out_of_range end.

Definition getFilePathForHandle (assetHandle : string)
    (assetMapping : gmap string string) (msgString : string)
  : M State Exception string :=
  if Nat.eqb (count assetMapping assetHandle) 0 then
    LOG WARNING (msgString ++ " (getAsset) : Unable to find file path for "
                 ++ assetHandle ++ ".  Aborting.") ;;;
    ret ""
  else at_ assetMapping assetHandle.

Definition getActiveDSAttribs
  : M State Exception (option SceneDatasetAttributes) :=
  let* s := get in
  let datasetAttr :=
    getObjectByHandle (sceneDatasetAttributesManager_ (mm s))
                      (activeSceneDataset_ (mm s)) in
  match datasetAttr with
  | None =>
      LOG ERROR ("MetadataMediator::getActiveDSAttribs : Unable to set "
                 ++ "active dataset due to Unknown dataset named "
                 ++ activeSceneDataset_ (mm s) ++ ". Aborting") ;;;
      ret None
  | Some d => ret (Some d)
  end.

Definition getNavmeshPathByHandle (navMeshHandle : string)
  : M State Exception string :=
  let* datasetAttr := getActiveDSAttribs in
  match datasetAttr with
  | None =>
      LOG ERROR ("MetadataMediator::getNavmeshPathByHandle : No active "
                 ++ "dataset has been specified so unable to determine path for "
                 ++ navMeshHandle) ;;;
      ret ""
  | Some d =>
      getFilePathForHandle navMeshHandle (getNavmeshMap d)
                           "MetadataMediator::getNavmeshPathByHandle"
  end.

Definition getSemanticSceneDescriptorPathByHandle (ssDescrHandle : string)
  : M State Exception string :=
  let* datasetAttr := getActiveDSAttribs in
  match datasetAttr with
  | None =>
      LOG ERROR ("MetadataMediator::getSemanticSceneDescriptorPathByHandle : No "
                 ++ "active dataset has been specified so unable to determine path "
                 ++ "for " ++ ssDescrHandle) ;;;
      ret ""
  | Some d =>
      getFilePathForHandle ssDescrHandle (getSemanticSceneDescrMap d)
        "MetadataMediator::getSemanticSceneDescriptorPathByHandle"
  end.

(** The active dataset, read without the logging. *)
Definition activeDataset (s : State) : option SceneDatasetAttributes :=
  getObjectByHandle (sceneDatasetAttributesManager_ (mm s))
                    (activeSceneDataset_ (mm s)).

(** The path a lookup is to yield: the entry of the handle in the
    selected table of the active dataset, the empty string when there is
    no active dataset or no such entry. *)
Definition pathOrEmpty (m : option (gmap string string)) (h : string)
  : string :=
  match m with
  | Some tbl => default "" (tbl !! h)
  | None => ""
  end.

(** The state after the warning of [getFilePathForHandle]. *)
Definition warned (msgString assetHandle : string) (s : State) : State :=
  {| mm := mm s;
     glog := glog s ++
       [(WARNING, (msgString ++ " (getAsset) : Unable to find file path for "
                   ++ assetHandle ++ ".  Aborting.")%string)] |}.

(** *** The other accessors of the header *)

Definition getSimulatorConfiguration
  : M State Exception SimulatorConfiguration :=
  gets (fun s => simConfig_ (mm s)).

Definition getActiveSceneDatasetName : M State Exception string :=
  gets (fun s => activeSceneDataset_ (mm s)).

Definition getCurrPhysicsAttributesHandle : M State Exception string :=
  gets (fun s => currPhysicsManagerAttributes_ (mm s)).

Definition getPhysicsAttributesManager
  : M State Exception PhysicsAttributesManager :=
  gets (fun s => physicsAttributesManager_ (mm s)).

Definition getActiveNavmeshMap : M State Exception (gmap string string) :=
  let* datasetAttr := getActiveDSAttribs in
  match datasetAttr with
  | None => ret ∅
  | Some d => ret (getNavmeshMap d)
  end.

Definition getActiveSemanticSceneDescriptorMap
  : M State Exception (gmap string string) :=
  let* datasetAttr := getActiveDSAttribs in
  match datasetAttr with
  | None => ret ∅
  | Some d => ret (getSemanticSceneDescrMap d)
  end.

(** The members of a scene dataset the mediator forwards to
    (esp/metadata/attributes/SceneDatasetAttributes.h) are not among the
    sources: the per-dataset managers, a shared pointer each ([None] for
    [nullptr]), and the lookups by a substring of a handle.  They are
    parameters, as are the types they return; [LightSetup_empty] is
    [esp::gfx::LightSetup{}]. *)
Variables AssetAttributesManager LightLayoutAttributesManager : Type.
Variables ObjectAttributesManager SceneAttributesManager : Type.
Variables StageAttributesManager : Type.
Variables StageAttributes ObjectAttributes LightSetup : Type.
Variable LightSetup_empty : LightSetup.

Variable ds_getAssetAttributesManager :
  SceneDatasetAttributes -> option AssetAttributesManager.
Variable ds_getLightLayoutAttributesManager :
  SceneDatasetAttributes -> option LightLayoutAttributesManager.
Variable ds_getObjectAttributesManager :
  SceneDatasetAttributes -> option ObjectAttributesManager.
Variable ds_getSceneAttributesManager :
  SceneDatasetAttributes -> option SceneAttributesManager.
Variable ds_getStageAttributesManager :
  SceneDatasetAttributes -> option StageAttributesManager.
Variable ds_getNamedStageAttributesCopy :
  SceneDatasetAttributes -> string -> option StageAttributes.
Variable ds_getNamedObjectAttributesCopy :
  SceneDatasetAttributes -> string -> option ObjectAttributes.
Variable ds_getNamedLightSetup :
  SceneDatasetAttributes -> string -> LightSetup.
Variable ds_getStageAttrFullHandle : SceneDatasetAttributes -> string -> string.
Variable ds_getObjAttrFullHandle : SceneDatasetAttributes -> string -> string.
Variable ds_getLightSetupFullHandle : SceneDatasetAttributes -> string -> string.

Definition getAssetAttributesManager
  : M State Exception (option AssetAttributesManager) :=
  let* datasetAttr := getActiveDSAttribs in
  match datasetAttr with
  | None => ret None
  | Some d => ret (ds_getAssetAttributesManager d)
  end.

Definition getLightLayoutAttributesManager
  : M State Exception (option LightLayoutAttributesManager) :=
  let* datasetAttr := getActiveDSAttribs in
  match datasetAttr with
  | None => ret None
  | Some d => ret (ds_getLightLayoutAttributesManager d)
  end.

Definition getObjectAttributesManager
  : M State Exception (option ObjectAttributesManager) :=
  let* datasetAttr := getActiveDSAttribs in
  match datasetAttr with
  | None => ret None
  | Some d => ret (ds_getObjectAttributesManager d)
  end.

Definition getSceneAttributesManager
  : M State Exception (option SceneAttributesManager) :=
  let* datasetAttr := getActiveDSAttribs in
  match datasetAttr with
  | None => ret None
  | Some d => ret (ds_getSceneAttributesManager d)
  end.

Definition getStageAttributesManager
  : M State Exception (option StageAttributesManager) :=
  let* datasetAttr := getActiveDSAttribs in
  match datasetAttr with
  | None => ret None
  | Some d => ret (ds_getStageAttributesManager d)
  end.

Definition getNamedStageAttributesCopy (stageAttrName : string)
  : M State Exception (option StageAttributes) :=
  let* datasetAttr := getActiveDSAttribs in
  match datasetAttr with
  | None =>
      let* s := get in
      LOG ERROR ("MetadataMediator::getNamedStageAttributesCopy : No "
                 ++ "current active dataset specified/exists named :"
                 ++ activeSceneDataset_ (mm s) ++ ".") ;;;
      ret None
  | Some d => ret (ds_getNamedStageAttributesCopy d stageAttrName)
  end.

Definition getNamedObjectAttributesCopy (objAttrName : string)
  : M State Exception (option ObjectAttributes) :=
  let* datasetAttr := getActiveDSAttribs in
  match datasetAttr with
  | None =>
      let* s := get in
      LOG ERROR ("MetadataMediator::getNamedObjectAttributesCopy : No "
                 ++ "current active dataset specified/exists named :"
                 ++ activeSceneDataset_ (mm s) ++ ".") ;;;
      ret None
  | Some d => ret (ds_getNamedObjectAttributesCopy d objAttrName)
  end.

Definition getNamedLightSetup (lightSetupName : string)
  : M State Exception LightSetup :=
  let* datasetAttr := getActiveDSAttribs in
  match datasetAttr with
  | None =>
      let* s := get in
      LOG ERROR ("MetadataMediator::getNamedLightSetup : No current active "
                 ++ "dataset specified/exists named :"
                 ++ activeSceneDataset_ (mm s) ++ ".") ;;;
      ret LightSetup_empty
  | Some d => ret (ds_getNamedLightSetup d lightSetupName)
  end.

Definition getStageAttrFullHandle (stageAttrName : string)
  : M State Exception string :=
  let* datasetAttr := getActiveDSAttribs in
  match datasetAttr with
  | None =>
      let* s := get in
      LOG ERROR ("MetadataMediator::getStageAttrFullHandle : No current active "
                 ++ "dataset specified/exists named :"
                 ++ activeSceneDataset_ (mm s) ++ ".") ;;;
      ret ""
  | Some d => ret (ds_getStageAttrFullHandle d stageAttrName)
  end.

Definition getObjAttrFullHandle (objAttrName : string)
  : M State Exception string :=
  let* datasetAttr := getActiveDSAttribs in
  match datasetAttr with
  | None =>
      let* s := get in
      LOG ERROR ("MetadataMediator::getObjAttrFullHandle : No current active "
                 ++ "dataset specified/exists named :"
                 ++ activeSceneDataset_ (mm s) ++ ".") ;;;
      ret ""
  | Some d => ret (ds_getObjAttrFullHandle d objAttrName)
  end.

Definition getLightSetupFullHandle (lightSetupName : string)
  : M State Exception string :=
  let* datasetAttr := getActiveDSAttribs in
  match datasetAttr with
  | None =>
      let* s := get in
      LOG ERROR ("MetadataMediator::getLightSetupFullHandle : No current active "
                 ++ "dataset specified/exists named :"
                 ++ activeSceneDataset_ (mm s) ++ ".") ;;;
      ret ""
  | Some d => ret (ds_getLightSetupFullHandle d lightSetupName)
  end.

(** The lines the lookups log. *)
Definition unknownDataset (s : State) : Severity * string :=
  (ERROR, ("MetadataMediator::getActiveDSAttribs : Unable to set "
           ++ "active dataset due to Unknown dataset named "
           ++ activeSceneDataset_ (mm s) ++ ". Aborting")%string).

Definition noActiveDataset (caller : string) (s : State) : Severity * string :=
  (ERROR, (caller ++ " : No current active dataset specified/exists named :"
           ++ activeSceneDataset_ (mm s) ++ ".")%string).

Definition noPathFor (caller handle : string) : Severity * string :=
  (WARNING, (caller ++ " (getAsset) : Unable to find file path for "
             ++ handle ++ ".  Aborting.")%string).

Definition noDatasetForPath (caller handle : string) : Severity * string :=
  (ERROR, (caller ++ " : No active dataset has been specified so unable "
           ++ "to determine path for " ++ handle)%string).

(** The state after the line of [getActiveDSAttribs], and after the line of
    its caller as well. *)
Definition loggedOnce (s : State) : State :=
  {| mm := mm s; glog := glog s ++ [unknownDataset s] |}.

Definition loggedTwice (caller : string) (s : State) : State :=
  {| mm := mm s;
     glog := glog s ++ [unknownDataset s; noActiveDataset caller s] |}.
End Mediator.

Arguments simConfig_ {_ _ _} _.
Arguments activeSceneDataset_ {_ _ _} _.
Arguments currPhysicsManagerAttributes_ {_ _ _} _.
Arguments sceneDatasetAttributesManager_ {_ _ _} _.
Arguments physicsAttributesManager_ {_ _ _} _.
Arguments mm {_ _ _} _.
Arguments glog {_ _ _} _.
Arguments LOG {_ _ _} sev msg.
Arguments at_ {_ _ _} m k.
Arguments getFilePathForHandle {_ _ _} assetHandle assetMapping msgString.
Arguments getActiveDSAttribs {_ _ _} getObjectByHandle.
Arguments getNavmeshPathByHandle {_ _ _} getObjectByHandle navMeshHandle.
Arguments getSemanticSceneDescriptorPathByHandle {_ _ _} getObjectByHandle
  ssDescrHandle.
Arguments activeDataset {_ _ _} getObjectByHandle s.
Arguments warned {_ _ _} msgString assetHandle s.
Arguments unknownDataset {_ _ _} s.
Arguments noActiveDataset {_ _ _} caller s.
Arguments loggedOnce {_ _ _} s.
Arguments loggedTwice {_ _ _} caller s.
Arguments getSimulatorConfiguration {_ _ _}.
Arguments getActiveSceneDatasetName {_ _ _}.
Arguments getCurrPhysicsAttributesHandle {_ _ _}.
Arguments getPhysicsAttributesManager {_ _ _}.
Arguments getActiveNavmeshMap {_ _ _} getObjectByHandle.
Arguments getActiveSemanticSceneDescriptorMap {_ _ _} getObjectByHandle.
Arguments getAssetAttributesManager {_ _ _} getObjectByHandle {_} _.
Arguments getLightLayoutAttributesManager {_ _ _} getObjectByHandle {_} _.
Arguments getObjectAttributesManager {_ _ _} getObjectByHandle {_} _.
Arguments getSceneAttributesManager {_ _ _} getObjectByHandle {_} _.
Arguments getStageAttributesManager {_ _ _} getObjectByHandle {_} _.
Arguments getNamedStageAttributesCopy {_ _ _} getObjectByHandle {_} _
  stageAttrName.
Arguments getNamedObjectAttributesCopy {_ _ _} getObjectByHandle {_} _
  objAttrName.
Arguments getNamedLightSetup {_ _ _} getObjectByHandle {_} LightSetup_empty _
  lightSetupName.
Arguments getStageAttrFullHandle {_ _ _} getObjectByHandle _ stageAttrName.
Arguments getObjAttrFullHandle {_ _ _} getObjectByHandle _ objAttrName.
Arguments getLightSetupFullHandle {_ _ _} getObjectByHandle _ lightSetupName.

(** A mediator whose dataset manager is a table of datasets, here without
    any dataset, and the lookup in such a table. *)
Definition tableLookup (manager : gmap string SceneDatasetAttributes)
    (handle : string) : option SceneDatasetAttributes :=
  manager !! handle.

Definition emptyMediator
  : State unit unit (gmap string SceneDatasetAttributes) :=
  {| mm := {| simConfig_ := tt;
              activeSceneDataset_ := "default";
              currPhysicsManagerAttributes_ := "";
              sceneDatasetAttributesManager_ := ∅;
              physicsAttributesManager_ := tt |};
     glog := [] |}.

End MetadataMediator.

(** ** MeshMetaData *)

Module Assets.

Section MeshMetaData.
(** [ID_UNDEFINED] (esp/core/esp.h) and [Magnum::Matrix4], with the value
    its default constructor gives, are not among the sources. *)
Variable ID_UNDEFINED : Z.
Variable Matrix4 : Type.
Variable Matrix4_default : Matrix4.

#[warnings="-register-all"] Inductive MeshTransformNode := {
  meshIDLocal : Z;
  materialIDLocal : Z;
  componentID : Z;
  children : list MeshTransformNode;
  transformFromLocalToParent : Matrix4;
}.

(** [MeshTransformNode()]. *)
Definition MeshTransformNode_default : MeshTransformNode :=
  {| meshIDLocal := ID_UNDEFINED;
     materialIDLocal := ID_UNDEFINED;
     componentID := ID_UNDEFINED;
     children := [];
     transformFromLocalToParent := Matrix4_default |}.

(** A [std::pair<start, end>] per kind of data, and the root of the
    transformation hierarchy. *)
Record MeshMetaData := {
  meshIndex : Z * Z;
  textureIndex : Z * Z;
  materialIndex : Z * Z;
  root : MeshTransformNode;
}.

(** [MeshMetaData()]: the default member initialisers. *)
Definition MeshMetaData_default : MeshMetaData :=
  {| meshIndex := (ID_UNDEFINED, ID_UNDEFINED);
     textureIndex := (ID_UNDEFINED, ID_UNDEFINED);
     materialIndex := (ID_UNDEFINED, ID_UNDEFINED);
     root := MeshTransformNode_default |}.

(** [MeshMetaData(meshStart, meshEnd, textureStart, textureEnd,
    materialStart, materialEnd)]; the last four parameters default to
    [ID_UNDEFINED]. *)
Definition MeshMetaData_ctor (meshStart meshEnd : Z)
    (textureStart textureEnd materialStart materialEnd : Z) : MeshMetaData :=
  {| meshIndex := (meshStart, meshEnd);
     textureIndex := (textureStart, textureEnd);
     materialIndex := (materialStart, materialEnd);
     root := MeshTransformNode_default |}.

Definition MeshMetaData_ctor2 (meshStart meshEnd : Z) : MeshMetaData :=
  MeshMetaData_ctor meshStart meshEnd ID_UNDEFINED ID_UNDEFINED
                    ID_UNDEFINED ID_UNDEFINED.

Definition setMeshIndices (meshStart meshEnd : Z) (m : MeshMetaData)
  : MeshMetaData :=
  {| meshIndex := (meshStart, meshEnd);
     textureIndex := textureIndex m;
     materialIndex := materialIndex m;
     root := root m |}.

Definition setTextureIndices (textureStart textureEnd : Z) (m : MeshMetaData)
  : MeshMetaData :=
  {| meshIndex := meshIndex m;
     textureIndex := (textureStart, textureEnd);
     materialIndex := materialIndex m;
     root := root m |}.

Definition setMaterialIndices (materialStart materialEnd : Z)
    (m : MeshMetaData) : MeshMetaData :=
  {| meshIndex := meshIndex m;
     textureIndex := textureIndex m;
     materialIndex := (materialStart, materialEnd);
     root := root m |}.
End MeshMetaData.

Arguments meshIDLocal {_} _.
Arguments materialIDLocal {_} _.
Arguments componentID {_} _.
Arguments children {_} _.
Arguments transformFromLocalToParent {_} _.
Arguments meshIndex {_} _.
Arguments textureIndex {_} _.
Arguments materialIndex {_} _.
Arguments root {_} _.
Arguments MeshTransformNode_default ID_UNDEFINED {_} Matrix4_default.
Arguments MeshMetaData_default ID_UNDEFINED {_} Matrix4_default.
Arguments MeshMetaData_ctor ID_UNDEFINED {_} Matrix4_default
  meshStart meshEnd textureStart textureEnd materialStart materialEnd.
Arguments MeshMetaData_ctor2 ID_UNDEFINED {_} Matrix4_default meshStart meshEnd.
Arguments setMeshIndices {_} meshStart meshEnd m.
Arguments setTextureIndices {_} textureStart textureEnd m.
Arguments setMaterialIndices {_} materialStart materialEnd m.

End Assets.

(** ** CubeMap *)

Module Gfx.

(** *** Types of the class and of the graphics library it drives *)

(** [CubeMap::TextureType]. *)
Inductive TextureType := Color | Depth.

Global Instance TextureType_eq_dec : EqDecision TextureType.
Proof. solve_decision. Defined.

Global Instance TextureType_countable : Countable TextureType :=
  inj_countable'
    (fun t => match t with Color => 0%nat | Depth => 1%nat end)
    (fun n => match n with 0%nat => Color | _ => Depth end)
    (fun t => match t with Color => eq_refl | Depth => eq_refl end).

(** [CubeMap::Flag], an [UnsignedShort] bit per capability, and
    [CubeMap::Flags], the [EnumSet] of them: a bit set.  [flags & flag]
    converts to [true] when the intersection is not empty. *)
Definition ColorTexture : Z := Z.shiftl 1 0.
Definition DepthTexture : Z := Z.shiftl 1 1.
Definition BuildMipmap : Z := Z.shiftl 1 3.

Definition hasFlag (flags flag : Z) : bool := negb (Z.land flags flag =? 0).

(** Sampler and storage parameters of Magnum's GL wrapper, as far as the
    class sets them. *)
Inductive SamplerWrapping := Repeat | ClampToEdge.
Inductive SamplerFilter := Nearest | Linear.
Inductive SamplerMipmap := Base | MipNearest | MipLinear.
Inductive TextureFormat := RGBA8 | DepthComponent32F.
Inductive RenderbufferFormat := DepthComponent24.
Inductive PixelFormat := RGBA8Unorm | R32F.

(** [Magnum::GL::CubeMapCoordinate]: the GL enumerators, consecutive from
    [GL_TEXTURE_CUBE_MAP_POSITIVE_X]. *)
Definition PositiveX : Z := 34069.

(** An image file as the importer hands it over: its size and its rows of
    pixels, a pixel being its channel values (component bit patterns). *)
Record ImageData := {
  img_size : Z * Z;
  img_rows : list (list (list Z));
}.

(** What [setSubImage] is given: the imported image as it is, or an
    [ImageView2D] over an array built by the caller. *)
Inductive SubImage :=
| OfImageData (d : ImageData)
| OfImageView (format : PixelFormat) (size : Z * Z) (data : list Z).

(** A [Magnum::GL::CubeMapTexture].  [tex_id] is the identity of the C++
    object: a raw pointer to a texture is that identity, and it dangles once
    the owning [unique_ptr] has been reassigned. *)
Record CubeMapTexture := {
  tex_id : nat;
  tex_wrapping : SamplerWrapping;
  tex_minification : SamplerFilter * SamplerMipmap;
  tex_magnification : SamplerFilter;
  tex_storage : option (Z * TextureFormat * (Z * Z));
  tex_faces : gmap Z SubImage;
  tex_mipmapGenerations : nat;
}.

Inductive DepthAttachment :=
| DepthOfTexture (tex : nat) (coordinate : Z) (level : Z)
| DepthOfRenderbuffer.

(** A [Magnum::GL::Framebuffer]: not created ([Magnum::NoCreate]) or created
    with a viewport; its attachments and the mapping of shader outputs to
    colour attachments. *)
Record Framebuffer := {
  fb_created : bool;
  fb_viewport : (Z * Z) * (Z * Z);
  fb_color : gmap Z (nat * Z * Z);
  fb_depth : option DepthAttachment;
  fb_drawMapping : list (Z * Z);
}.

Record Renderbuffer := {
  rb_storage : option (RenderbufferFormat * (Z * Z));
}.

(** The data members of [CubeMap].  [textures_] is a
    [std::map<TextureType, std::unique_ptr<CubeMapTexture>>]: a key may be
    absent, or present with a null pointer ([None]) or an owned texture. *)
Record CubeMapObject := {
  flags_ : Z;
  imageSize_ : Z;
  textures_ : gmap TextureType (option CubeMapTexture);
  frameBuffer_ : Framebuffer;
  optionalDepthBuffer_ : Renderbuffer;
}.

(** Calls that leave the object: to the graphics context, the image plugins,
    the log and the camera. *)
Inductive Event :=
| EvEnableSeamlessCubeMapTexture
| EvTextureStorage (tex : nat) (levels : Z) (format : TextureFormat) (size : Z * Z)
| EvFramebufferCreate (viewport : (Z * Z) * (Z * Z))
| EvSetSubImage (tex : nat) (coordinate : Z) (image : SubImage)
| EvGenerateMipmap (tex : nat)
| EvExportToFile (filename : string) (tex : nat) (coordinate : Z) (format : PixelFormat)
| EvLogInfo (msg : string)
| EvOpenFile (filename : string)
| EvBind
| EvClearDepth
| EvClearColor (attachment : Z)
| EvUpdateOriginalViewingMatrix
| EvSwitchToFace (face : Z)
| EvRestoreTransformation
| EvPrepareForDraw (group : string)
| EvDraw (group : string) (flags : Z).

(** The object, the allocator of object identities and the calls made so
    far. *)
Record World := {
  cubeMap : CubeMapObject;
  nextObject : nat;
  trace : list Event;
}.

(** Why a call does not return: a failed [CORRADE_ASSERT] or
    [CORRADE_INTERNAL_ASSERT] (message printed, process aborted), or
    undefined behaviour (a null or dangling pointer dereferenced). *)
Inductive Failure :=
| AssertionFailed (msg : string)
| Undefined (what : string).

(** What the surroundings decide: whether the image converter and importer
    plugins can be instantiated, whether an export to a file name succeeds,
    what the importer reads from a file name (nothing when the file cannot be
    read), and whether the graphics context finds a framebuffer complete. *)
Record Env := {
  converterPlugin : bool;
  importerPlugin : bool;
  exportToFile : string -> bool;
  image2D : string -> option ImageData;
  checkStatus : Framebuffer -> bool;
}.

(** *** Helpers: state access, assertions, loops *)

Abbreviation Op := (M World Failure).

Definition emit (e : Event) : Op unit :=
  modify (fun w => {| cubeMap := cubeMap w; nextObject := nextObject w;
                      trace := trace w ++ [e] |}).

Definition setCubeMap (f : CubeMapObject -> CubeMapObject) : Op unit :=
  modify (fun w => {| cubeMap := f (cubeMap w); nextObject := nextObject w;
                      trace := trace w |}).

Definition set_imageSize (n : Z) (c : CubeMapObject) : CubeMapObject :=
  {| flags_ := flags_ c; imageSize_ := n; textures_ := textures_ c;
     frameBuffer_ := frameBuffer_ c;
     optionalDepthBuffer_ := optionalDepthBuffer_ c |}.

Definition set_textures
    (f : gmap TextureType (option CubeMapTexture) ->
         gmap TextureType (option CubeMapTexture))
    (c : CubeMapObject) : CubeMapObject :=
  {| flags_ := flags_ c; imageSize_ := imageSize_ c;
     textures_ := f (textures_ c); frameBuffer_ := frameBuffer_ c;
     optionalDepthBuffer_ := optionalDepthBuffer_ c |}.

Definition set_frameBuffer (f : Framebuffer -> Framebuffer)
    (c : CubeMapObject) : CubeMapObject :=
  {| flags_ := flags_ c; imageSize_ := imageSize_ c; textures_ := textures_ c;
     frameBuffer_ := f (frameBuffer_ c);
     optionalDepthBuffer_ := optionalDepthBuffer_ c |}.

Definition set_optionalDepthBuffer (r : Renderbuffer)
    (c : CubeMapObject) : CubeMapObject :=
  {| flags_ := flags_ c; imageSize_ := imageSize_ c; textures_ := textures_ c;
     frameBuffer_ := frameBuffer_ c; optionalDepthBuffer_ := r |}.

(** [CORRADE_ASSERT(condition, message, returnValue)] in a build with
    assertions, not graceful: on failure the message is printed and the
    process aborts.  [CORRADE_INTERNAL_ASSERT] names the failed expression. *)
Definition CORRADE_ASSERT (condition : bool) (message : string) : Op unit :=
  if condition then ret tt else fatal (AssertionFailed message).

Definition CORRADE_INTERNAL_ASSERT (condition : bool) (expression : string)
  : Op unit :=
  CORRADE_ASSERT condition ("Assertion " ++ expression ++ " failed")%string.

(** [for (x : l) body]. *)
Fixpoint forEach {A} (l : list A) (body : A -> Op unit) : Op unit :=
  match l with
  | [] => ret tt
  | x :: rest => body x ;;; forEach rest body
  end.

(** A loop whose body may [return] from the enclosing function: [Some r]
    leaves the loop with [r]. *)
Fixpoint forEachReturn {A R} (l : list A) (body : A -> Op (option R))
  : Op (option R) :=
  match l with
  | [] => ret None
  | x :: rest =>
      let* r := body x in
      match r with
      | Some v => ret (Some v)
      | None => forEachReturn rest body
      end
  end.

(** A loop that updates a local variable of the enclosing function. *)
Fixpoint forEachWith {A S} (l : list A) (s : S) (body : A -> S -> Op S)
  : Op S :=
  match l with
  | [] => ret s
  | x :: rest => let* s' := body x s in forEachWith rest s' body
  end.

(** [for (i = 0; i < 6; ++i)]. *)
Definition faces : list Z := seqZ 0 6.

(** [textures_[type]]: [operator[]] inserts a null pointer under a key that
    is absent. *)
Definition textures_at (type : TextureType) : Op (option CubeMapTexture) :=
  let* c := gets cubeMap in
  match textures_ c !! type with
  | Some p => ret p
  | None => setCubeMap (set_textures (insert type None)) ;;; ret None
  end.

(** [*p] and [p->] on a [unique_ptr]. *)
Definition deref (p : option CubeMapTexture) : Op CubeMapTexture :=
  match p with
  | Some t => ret t
  | None => fatal (Undefined "null pointer dereferenced")
  end.

(** [p.get()]: the raw pointer, [None] for [nullptr]. *)
Definition get_pointer (p : option CubeMapTexture) : option nat :=
  tex_id <$> p.

(** The texture a raw pointer points to, if it is still owned by
    [textures_]. *)
Definition pointee (c : CubeMapObject) (ptr : nat) : option TextureType :=
  List.find
    (fun ty => match textures_ c !! ty with
               | Some (Some t) => Nat.eqb (tex_id t) ptr
               | _ => false
               end)
    [Color; Depth].

(** A member call through a raw pointer: it changes the texture pointed to;
    through a pointer to a destroyed texture it is undefined. *)
Definition throughPointer (ptr : nat) (f : CubeMapTexture -> CubeMapTexture)
  : Op unit :=
  let* c := gets cubeMap in
  match pointee c ptr with
  | Some ty => setCubeMap (set_textures (alter (fmap f) ty))
  | None => fatal (Undefined "texture used after its destruction")
  end.

(** *** Texture and framebuffer primitives *)

(** Conversion of an [int] to [UnsignedInt]. *)
Definition UnsignedInt (z : Z) : Z := z mod 2 ^ 32.

(** The range of [int], and a product of two [int]s: outside the range it
    is undefined. *)
Definition INT_MIN : Z := - 2 ^ 31.
Definition INT_MAX : Z := 2 ^ 31 - 1.

Definition int_mul (a b : Z) : Op Z :=
  if (INT_MIN <=? a * b) && (a * b <=? INT_MAX) then ret (a * b)
  else fatal (Undefined "signed integer overflow").

(** [static_cast<size_t>] of an [int]. *)
Definition size_t (z : Z) : Z := z mod 2 ^ 64.

(** Modelled from the spec: [Mn::Math::log2] belongs to Magnum and is not
    among the sources; the spec reads [log2(imageSize) + 1] as
    [floor(log2(S)) + 1].  It is written here the way Magnum computes its
    integral base-2 logarithm of an [UnsignedInt], [while(number >>= 1)
    ++log;], which ends within 32 rounds; that this is the floor of the
    logarithm is proved below ([log2_floor]). *)
Fixpoint log2_loop (fuel : nat) (number log : Z) : Z :=
  match fuel with
  | O => log
  | S fuel' =>
      let number' := Z.shiftr number 1 in
      if Z.eqb number' 0 then log else log2_loop fuel' number' (log + 1)
  end.

Definition log2 (number : Z) : Z := log2_loop 32 (UnsignedInt number) 0.

(** [std::make_unique<Mn::GL::CubeMapTexture>()]: a new object, with the
    sampler state GL gives a new texture. *)
Definition make_unique_CubeMapTexture : Op CubeMapTexture :=
  let* w := get in
  modify (fun w => {| cubeMap := cubeMap w; nextObject := S (nextObject w);
                      trace := trace w |}) ;;;
  ret {| tex_id := nextObject w; tex_wrapping := Repeat;
         tex_minification := (Nearest, MipLinear);
         tex_magnification := Linear; tex_storage := None;
         tex_faces := ∅; tex_mipmapGenerations := 0 |}.

Definition setWrapping (wr : SamplerWrapping) (t : CubeMapTexture) :=
  {| tex_id := tex_id t; tex_wrapping := wr;
     tex_minification := tex_minification t;
     tex_magnification := tex_magnification t; tex_storage := tex_storage t;
     tex_faces := tex_faces t;
     tex_mipmapGenerations := tex_mipmapGenerations t |}.

Definition setMinificationFilter (f : SamplerFilter) (m : SamplerMipmap)
    (t : CubeMapTexture) :=
  {| tex_id := tex_id t; tex_wrapping := tex_wrapping t;
     tex_minification := (f, m);
     tex_magnification := tex_magnification t; tex_storage := tex_storage t;
     tex_faces := tex_faces t;
     tex_mipmapGenerations := tex_mipmapGenerations t |}.

Definition setMagnificationFilter (f : SamplerFilter) (t : CubeMapTexture) :=
  {| tex_id := tex_id t; tex_wrapping := tex_wrapping t;
     tex_minification := tex_minification t;
     tex_magnification := f; tex_storage := tex_storage t;
     tex_faces := tex_faces t;
     tex_mipmapGenerations := tex_mipmapGenerations t |}.

Definition setStorage (levels : Z) (format : TextureFormat) (size : Z * Z)
    (t : CubeMapTexture) :=
  {| tex_id := tex_id t; tex_wrapping := tex_wrapping t;
     tex_minification := tex_minification t;
     tex_magnification := tex_magnification t;
     tex_storage := Some (levels, format, size);
     tex_faces := tex_faces t;
     tex_mipmapGenerations := tex_mipmapGenerations t |}.

Definition setFace (coordinate : Z) (image : SubImage) (t : CubeMapTexture) :=
  {| tex_id := tex_id t; tex_wrapping := tex_wrapping t;
     tex_minification := tex_minification t;
     tex_magnification := tex_magnification t; tex_storage := tex_storage t;
     tex_faces := <[coordinate := image]> (tex_faces t);
     tex_mipmapGenerations := tex_mipmapGenerations t |}.

Definition countMipmapGeneration (t : CubeMapTexture) :=
  {| tex_id := tex_id t; tex_wrapping := tex_wrapping t;
     tex_minification := tex_minification t;
     tex_magnification := tex_magnification t; tex_storage := tex_storage t;
     tex_faces := tex_faces t;
     tex_mipmapGenerations := S (tex_mipmapGenerations t) |}.

(** [texture->setSubImage(coordinate, 0, {}, image)] and
    [texture->generateMipmap()] through a raw pointer: the call is issued,
    and reaches the texture if the pointer is still good. *)
Definition setSubImage (texture : nat) (coordinate : Z) (image : SubImage)
  : Op unit :=
  emit (EvSetSubImage texture coordinate image) ;;;
  throughPointer texture (setFace coordinate image).

Definition generateMipmap (texture : nat) : Op unit :=
  emit (EvGenerateMipmap texture) ;;;
  throughPointer texture countMipmapGeneration.

Definition NoCreate : Framebuffer :=
  {| fb_created := false; fb_viewport := ((0, 0), (0, 0)); fb_color := ∅;
     fb_depth := None; fb_drawMapping := [] |}.

Definition attachColor (attachment : Z) (tex : nat) (coordinate level : Z)
    (f : Framebuffer) : Framebuffer :=
  {| fb_created := fb_created f; fb_viewport := fb_viewport f;
     fb_color := <[attachment := (tex, coordinate, level)]> (fb_color f);
     fb_depth := fb_depth f; fb_drawMapping := fb_drawMapping f |}.

Definition attachDepth (d : DepthAttachment) (f : Framebuffer) : Framebuffer :=
  {| fb_created := fb_created f; fb_viewport := fb_viewport f;
     fb_color := fb_color f; fb_depth := Some d;
     fb_drawMapping := fb_drawMapping f |}.

Definition setDrawMapping (m : list (Z * Z)) (f : Framebuffer) : Framebuffer :=
  {| fb_created := fb_created f; fb_viewport := fb_viewport f;
     fb_color := fb_color f; fb_depth := fb_depth f; fb_drawMapping := m |}.

(** [colorAttachment[6]]: [ColorAttachment{0}] to [ColorAttachment{5}]. *)
Definition colorAttachment (index : Z) : Z := index.

(** [Mn::Shaders::Generic3D::ColorOutput]. *)
Definition ColorOutput : Z := 0.

(** *** The functions of CubeMap.cpp *)

Definition textureTypeSanityCheck (flag : Z) (type : TextureType)
    (functionNameStr : string) : Op unit :=
  match type with
  | Color =>
      CORRADE_ASSERT (hasFlag flag ColorTexture)
        (functionNameStr ++
         " instance was not created with color texture output enabled.")%string
  | Depth =>
      CORRADE_ASSERT (hasFlag flag DepthTexture)
        (functionNameStr ++
         " instance was not created with depth texture output enabled.")%string
  end.

(** The parameter is an [unsigned int]: an [int] argument is converted. *)
Definition convertFaceIndexToCubeMapCoordinate (faceIndex : Z) : Op Z :=
  let faceIndex := UnsignedInt faceIndex in
  CORRADE_ASSERT (faceIndex <? 6)
    ("In CubeMap: ConvertFaceIndexToCubeMapCoordinate(): the index of " ++
     "the cube side " ++ pretty faceIndex ++ " is illegal.")%string ;;;
  ret (PositiveX + faceIndex).

Definition getTextureTypeFilenameString (type : TextureType) : string :=
  match type with
  | Color => "rgba"
  | Depth => "depth"
  end.

Definition getPixelFormat (type : TextureType) : PixelFormat :=
  match type with
  | Color => RGBA8Unorm
  | Depth => R32F
  end.

Definition recreateTexture : Op unit :=
  let* c := gets cubeMap in
  let size := (imageSize_ c, imageSize_ c) in
  (if hasFlag (flags_ c) ColorTexture then
     let* fresh := make_unique_CubeMapTexture in
     let colorTexture :=
       setMagnificationFilter Linear
         (setMinificationFilter Linear MipLinear
            (setWrapping ClampToEdge fresh)) in
     let levels :=
       if hasFlag (flags_ c) BuildMipmap then log2 (imageSize_ c) + 1 else 1 in
     setCubeMap (set_textures
       (insert Color (Some (setStorage levels RGBA8 size colorTexture)))) ;;;
     emit (EvTextureStorage (tex_id colorTexture) levels RGBA8 size)
   else ret tt) ;;;
  (if hasFlag (flags_ c) DepthTexture then
     let* fresh := make_unique_CubeMapTexture in
     let depthTexture :=
       setMagnificationFilter Nearest
         (setMinificationFilter Nearest Base
            (setWrapping ClampToEdge fresh)) in
     setCubeMap (set_textures
       (insert Depth (Some (setStorage 1 DepthComponent32F size depthTexture)))) ;;;
     emit (EvTextureStorage (tex_id depthTexture) 1 DepthComponent32F size)
   else ret tt).

Definition recreateFramebuffer : Op unit :=
  let* c := gets cubeMap in
  let viewportSize := (imageSize_ c, imageSize_ c) in
  setCubeMap (set_frameBuffer (fun _ =>
    {| fb_created := true; fb_viewport := ((0, 0), viewportSize);
       fb_color := ∅; fb_depth := None; fb_drawMapping := [] |})) ;;;
  emit (EvFramebufferCreate ((0, 0), viewportSize)) ;;;
  setCubeMap (set_optionalDepthBuffer
    {| rb_storage := Some (DepthComponent24, viewportSize) |}).

Definition attachFramebufferRenderbuffer : Op unit :=
  let* c := gets cubeMap in
  (if hasFlag (flags_ c) ColorTexture then
     forEach faces (fun index =>
       let* cubeMapCoord := convertFaceIndexToCubeMapCoordinate index in
       let* p := textures_at Color in
       let* t := deref p in
       setCubeMap (set_frameBuffer
         (attachColor (colorAttachment index) (tex_id t) cubeMapCoord 0)))
   else ret tt) ;;;
  (if negb (hasFlag (flags_ c) DepthTexture) then
     setCubeMap (set_frameBuffer (attachDepth DepthOfRenderbuffer))
   else ret tt).

Definition reset (imageSize : Z) : Op bool :=
  let* c := gets cubeMap in
  if Z.eqb (imageSize_ c) imageSize then ret false
  else
    setCubeMap (set_imageSize imageSize) ;;;
    CORRADE_ASSERT (0 <? imageSize)
      ("CubeMap::reset(): image size " ++ pretty imageSize ++
       " is illegal.")%string ;;;
    recreateTexture ;;;
    recreateFramebuffer ;;;
    attachFramebufferRenderbuffer ;;;
    ret true.

(** The constructor: [flags_(flags)], the default member initialisers
    ([imageSize_ = 0], an empty [textures_], a [NoCreate] framebuffer, a new
    renderbuffer), then the body. *)
Definition CubeMap (imageSize : Z) (flags : Z) : Op unit :=
  setCubeMap (fun _ =>
    {| flags_ := flags; imageSize_ := 0; textures_ := ∅;
       frameBuffer_ := NoCreate;
       optionalDepthBuffer_ := {| rb_storage := None |} |}) ;;;
  emit EvEnableSeamlessCubeMapTexture ;;;
  reset imageSize ;;;
  ret tt.

Definition mapForDraw (colorAttachmentIndex : Z) : Op unit :=
  setCubeMap (set_frameBuffer
    (setDrawMapping [(ColorOutput, colorAttachment colorAttachmentIndex)])).

Definition getTexture (type : TextureType) : Op CubeMapTexture :=
  let* c := gets cubeMap in
  textureTypeSanityCheck (flags_ c) type "CubeMap::getTexture():" ;;;
  let* p := textures_at type in
  deref p.

(** [const char* coordStrings[6]]. *)
Definition coordStrings : list string := ["+X"; "-X"; "+Y"; "-Y"; "+Z"; "-Z"].

Definition coordString (iFace : Z) : string :=
  default "" (coordStrings !! Z.to_nat iFace).

(** [Cr::Utility::formatString("{}.{}.{}.{}", a, b, c, d)]; the save formats
    [{}.{}.{}.png] and [{}.{}.{}.hdr] are this with a fixed last part. *)
Definition formatString4 (a b c d : string) : string :=
  (a ++ "." ++ b ++ "." ++ c ++ "." ++ d)%string.

Section WithEnv.
Variable env : Env.

Definition prepareToDraw (cubeSideIndex : Z) : Op unit :=
  mapForDraw cubeSideIndex ;;;
  let* c := gets cubeMap in
  (if hasFlag (flags_ c) DepthTexture then
     let* cubeMapCoord := convertFaceIndexToCubeMapCoordinate cubeSideIndex in
     let* p := textures_at Depth in
     let* t := deref p in
     setCubeMap (set_frameBuffer
       (attachDepth (DepthOfTexture (tex_id t) cubeMapCoord 0)))
   else ret tt) ;;;
  emit EvClearDepth ;;;
  emit (EvClearColor 0) ;;;
  let* c := gets cubeMap in
  CORRADE_INTERNAL_ASSERT (checkStatus env (frameBuffer_ c))
    "frameBuffer_.checkStatus(Mn::GL::FramebufferTarget::Draw) == Mn::GL::Framebuffer::Status::Complete".

(** The body of the face loop of [saveTexture]; [Some false] stands for its
    [return false]. *)
Definition saveFace (type : TextureType) (imageFilePrefix : string)
    (iFace : Z) : Op (option bool) :=
  let* p := textures_at type in
  let* t := deref p in
  let* coordinate := convertFaceIndexToCubeMapCoordinate iFace in
  let filename :=
    match type with
    | Color =>
        formatString4 imageFilePrefix (getTextureTypeFilenameString type)
                      (coordString iFace) "png"
    | Depth =>
        formatString4 imageFilePrefix (getTextureTypeFilenameString type)
                      (coordString iFace) "hdr"
    end in
  CORRADE_ASSERT (negb (String.eqb filename ""))
    "CubeMap::saveTexture(): Unknown texture type." ;;;
  if negb (exportToFile env filename) then ret (Some false)
  else
    emit (EvExportToFile filename (tex_id t) coordinate
                         (getPixelFormat type)) ;;;
    emit (EvLogInfo ("Saved image " ++ pretty iFace ++ " to " ++
                     filename)%string) ;;;
    ret None.

Definition saveTexture (type : TextureType) (imageFilePrefix : string)
  : Op bool :=
  let* c := gets cubeMap in
  textureTypeSanityCheck (flags_ c) type "CubeMap::saveTexture():" ;;;
  if negb (converterPlugin env) then ret false
  else
    let* r := forEachReturn faces (saveFace type imageFilePrefix) in
    match r with
    | Some b => ret b
    | None => ret true
    end.

(** The red channel of every pixel, row by row ([depthImage[idx++] =
    pixel.r()]); the importer's image holds [size.x() * size.y()] pixels. *)
Definition depthImage (d : ImageData) : list Z :=
  flat_map (fun row => map (fun pixel => hd 0 pixel) row) (img_rows d).

(** The body of the face loop of [loadTexture]: [texture] is the raw pointer
    taken before the loop, [imageSize] the local variable, whose value after
    the iteration is returned.  For a depth face the array [depthImage] is
    created with [size.x() * size.y()] elements, a product of [int]s, before
    it is filled and uploaded. *)
Definition loadFace (type : TextureType)
    (imageFilePrefix imageFileExtension : string) (texture : nat)
    (iFace : Z) (imageSize : Z) : Op Z :=
  let filename :=
    formatString4 imageFilePrefix (getTextureTypeFilenameString type)
                  (coordString iFace) imageFileExtension in
  emit (EvOpenFile filename) ;;;
  match image2D env filename with
  | None => fatal (AssertionFailed "Assertion imageData failed")
  | Some imageData =>
      let size := img_size imageData in
      CORRADE_ASSERT (Z.eqb (fst size) (snd size))
        " CubeMap::loadTexture(): each texture image must be a square." ;;;
      let* imageSize :=
        if Z.eqb iFace 0 then reset (fst size) ;;; ret (fst size)
        else
          CORRADE_ASSERT (Z.eqb (fst size) imageSize)
            " CubeMap::loadTexture(): texture images must have the same size." ;;;
          ret imageSize in
      match type with
      | Color =>
          let* coordinate := convertFaceIndexToCubeMapCoordinate iFace in
          setSubImage texture coordinate (OfImageData imageData)
      | Depth =>
          let* pixels := int_mul (fst size) (snd size) in
          let arrayLength := size_t pixels in
          let* coordinate := convertFaceIndexToCubeMapCoordinate iFace in
          setSubImage texture coordinate
            (OfImageView R32F size (depthImage imageData))
      end ;;;
      ret imageSize
  end.

Definition loadTexture (type : TextureType)
    (imageFilePrefix imageFileExtension : string) : Op unit :=
  let* c := gets cubeMap in
  textureTypeSanityCheck (flags_ c) type "CubeMap::loadTexture():" ;;;
  CORRADE_INTERNAL_ASSERT (importerPlugin env) "importer" ;;;
  let* p :=
    match type with
    | Color => textures_at Color
    | Depth => textures_at Depth
    end in
  match get_pointer p with
  | None =>
      fatal (AssertionFailed "CubeMap::loadTexture(): Unknown texture type.")
  | Some texture =>
      forEachWith faces 0
        (loadFace type imageFilePrefix imageFileExtension texture) ;;;
      let* c := gets cubeMap in
      if hasFlag (flags_ c) BuildMipmap && hasFlag (flags_ c) ColorTexture
      then generateMipmap texture
      else ret tt
  end.

(** *** Rendering *)

Section Camera.
(** The camera's local transformation, and the transformation that looks
    along a cube face from a given base orientation. *)
Variable Transform : Type.
Variable faceTransformation : Transform -> Z -> Transform.

(** Modelled from the spec: [CubeMapCamera] (esp/gfx/CubeMapCamera.h) is not
    among the sources.  The spec gives the camera a viewport and the
    operations "capture base orientation, rotate to face N, restore prior
    local transform"; the rotation to a face is "derived from the snapshotted
    base orientation (not the camera's current transform)", "a pure function
    of face index and base frame". *)
Record CubeMapCamera := {
  cam_sceneGraph : nat;
  cam_viewport : Z * Z;
  cam_transformation : Transform;
  cam_originalViewingMatrix : Transform;
}.

(** Modelled from the spec: a scene graph (esp/scene/SceneGraph.h is not
    among the sources) is its identity and its drawable groups, by name. *)
Record SceneGraph := {
  sg_id : nat;
  getDrawableGroups : list string;
}.

(** Modelled from the spec: whether the camera is attached to the scene
    graph. *)
Definition isInSceneGraph (camera : CubeMapCamera) (sceneGraph : SceneGraph)
  : bool :=
  Nat.eqb (cam_sceneGraph camera) (sg_id sceneGraph).

(** Modelled from the spec: "capture base orientation". *)
Definition updateOriginalViewingMatrix (camera : CubeMapCamera)
  : Op CubeMapCamera :=
  emit EvUpdateOriginalViewingMatrix ;;;
  ret {| cam_sceneGraph := cam_sceneGraph camera;
         cam_viewport := cam_viewport camera;
         cam_transformation := cam_transformation camera;
         cam_originalViewingMatrix := cam_transformation camera |}.

(** Modelled from the spec: "rotate to face N", from the captured base
    orientation. *)
Definition switchToFace (iFace : Z) (camera : CubeMapCamera)
  : Op CubeMapCamera :=
  emit (EvSwitchToFace iFace) ;;;
  ret {| cam_sceneGraph := cam_sceneGraph camera;
         cam_viewport := cam_viewport camera;
         cam_transformation :=
           faceTransformation (cam_originalViewingMatrix camera) iFace;
         cam_originalViewingMatrix := cam_originalViewingMatrix camera |}.

(** Modelled from the spec: "restore prior local transform", the one
    captured. *)
Definition restoreTransformation (camera : CubeMapCamera)
  : Op CubeMapCamera :=
  emit EvRestoreTransformation ;;;
  ret {| cam_sceneGraph := cam_sceneGraph camera;
         cam_viewport := cam_viewport camera;
         cam_transformation := cam_originalViewingMatrix camera;
         cam_originalViewingMatrix := cam_originalViewingMatrix camera |}.

(** Modelled from the spec: "prepare group for draw given a camera" and
    "draw group with flags" leave the render target and the camera's
    transformation alone. *)
Definition prepareForDraw (group : string) (camera : CubeMapCamera)
  : Op bool :=
  emit (EvPrepareForDraw group) ;;; ret true.

Definition draw (group : string) (flags : Z) (camera : CubeMapCamera)
  : Op unit :=
  emit (EvDraw group flags).

(** The body of the face loop of [renderToTexture]. *)
Definition renderFace (sceneGraph : SceneGraph) (flags : Z) (iFace : Z)
    (camera : CubeMapCamera) : Op CubeMapCamera :=
  let* camera := switchToFace iFace camera in
  prepareToDraw iFace ;;;
  forEach (getDrawableGroups sceneGraph) (fun it =>
    let* prepared := prepareForDraw it camera in
    if prepared || true then draw it flags camera else ret tt) ;;;
  ret camera.

Definition renderToTexture (camera : CubeMapCamera) (sceneGraph : SceneGraph)
    (flags : Z) : Op CubeMapCamera :=
  CORRADE_ASSERT (isInSceneGraph camera sceneGraph)
    ("CubeMap::renderToTexture(): camera is NOT attached to the " ++
     "current scene graph.")%string ;;;
  let* c := gets cubeMap in
  let vp := cam_viewport camera in
  CORRADE_ASSERT (Z.eqb (fst vp) (imageSize_ c) && Z.eqb (snd vp) (imageSize_ c))
    ("CubeMap::renderToTexture(): the image size with in the " ++
     "CubeMapCamera, which is Vector(" ++ pretty (fst vp) ++ ", " ++
     pretty (snd vp) ++ ") compared to " ++ pretty (imageSize_ c) ++
     " is not correct.")%string ;;;
  let* camera := updateOriginalViewingMatrix camera in
  emit EvBind ;;;
  let* camera := forEachWith faces camera (renderFace sceneGraph flags) in
  let* camera := restoreTransformation camera in
  let* c := gets cubeMap in
  (if hasFlag (flags_ c) BuildMipmap && hasFlag (flags_ c) ColorTexture then
     let* p := textures_at Color in
     let* t := deref p in
     generateMipmap (tex_id t)
   else ret tt) ;;;
  ret camera.

End Camera.

End WithEnv.

Arguments cam_sceneGraph {_} _.
Arguments cam_viewport {_} _.
Arguments cam_transformation {_} _.
Arguments cam_originalViewingMatrix {_} _.
Arguments isInSceneGraph {_} camera sceneGraph.
Arguments updateOriginalViewingMatrix {_} camera.
Arguments switchToFace {_} faceTransformation iFace camera.
Arguments restoreTransformation {_} camera.
Arguments prepareForDraw {_} group camera.
Arguments draw {_} group flags camera.
Arguments renderFace env {_} faceTransformation sceneGraph flags iFace camera.
Arguments renderToTexture env {_} faceTransformation camera sceneGraph flags.

(** *** States a [CubeMap] can be in

    A [CubeMap] comes from its constructor, run in any context, and is then
    only changed by public member functions that return. *)
Inductive Reachable : World -> Prop :=
| Reachable_CubeMap w0 imageSize flags w :
    CubeMap imageSize flags w0 = (Done tt, w) -> Reachable w
| Reachable_reset w imageSize b w' :
    Reachable w -> reset imageSize w = (Done b, w') -> Reachable w'
| Reachable_getTexture w type t w' :
    Reachable w -> getTexture type w = (Done t, w') -> Reachable w'
| Reachable_saveTexture env w type imageFilePrefix b w' :
    Reachable w ->
    saveTexture env type imageFilePrefix w = (Done b, w') -> Reachable w'
| Reachable_loadTexture env w type imageFilePrefix imageFileExtension w' :
    Reachable w ->
    loadTexture env type imageFilePrefix imageFileExtension w = (Done tt, w') ->
    Reachable w'
| Reachable_renderToTexture env Transform faceTransformation
    (camera camera' : CubeMapCamera Transform) sceneGraph flags w w' :
    Reachable w ->
    renderToTexture env faceTransformation camera sceneGraph flags w
      = (Done camera', w') ->
    Reachable w'.

(** *** Observations used in the statements *)

(** The capability a texture type needs. *)
Definition capability (type : TextureType) : Z :=
  match type with
  | Color => ColorTexture
  | Depth => DepthTexture
  end.

(** The calls made between two states of a run. *)
Definition newEvents (w w' : World) : list Event :=
  drop (length (trace w)) (trace w').

Definition exportedFiles (tr : list Event) : list string :=
  omap (fun e => match e with
                 | EvExportToFile f _ _ _ => Some f
                 | _ => None
                 end) tr.

Definition openedFiles (tr : list Event) : list string :=
  omap (fun e => match e with EvOpenFile f => Some f | _ => None end) tr.

(** The cube coordinates of the faces uploaded. *)
Definition uploadedFaces (tr : list Event) : list Z :=
  omap (fun e => match e with EvSetSubImage _ c _ => Some c | _ => None end) tr.

Definition isCameraCall (e : Event) : bool :=
  match e with
  | EvUpdateOriginalViewingMatrix | EvSwitchToFace _ | EvRestoreTransformation =>
      true
  | _ => false
  end.

Definition cameraCalls (tr : list Event) : list Event :=
  List.filter isCameraCall tr.

(** The number of mip levels a texture of the object was allocated with. *)
Definition levelsOf (c : CubeMapObject) (type : TextureType) : option Z :=
  match textures_ c !! type with
  | Some (Some t) => (fun s => fst (fst s)) <$> tex_storage t
  | _ => None
  end.

(** The file names of the specification, [{prefix}.{typeTag}.{faceTag}.{ext}]
    for the face tags in their fixed order. *)
Definition typeTag (type : TextureType) : string :=
  match type with Color => "rgba" | Depth => "depth" end.

Definition saveExtension (type : TextureType) : string :=
  match type with Color => "png" | Depth => "hdr" end.

Definition faceTags : list string := ["+X"; "-X"; "+Y"; "-Y"; "+Z"; "-Z"].

Definition faceFileNames (filePrefix : string) (type : TextureType)
    (ext : string) : list string :=
  map (fun faceTag =>
         (filePrefix ++ "." ++ typeTag type ++ "." ++ faceTag ++ "." ++ ext)%string)
      faceTags.

(** The name of the file of a face, as [loadTexture] builds it. *)
Definition faceFile (type : TextureType) (filePrefix ext : string) (iFace : Z)
  : string :=
  formatString4 filePrefix (getTextureTypeFilenameString type)
                (coordString iFace) ext.

(** Calls that allocate storage: a texture's, or a new framebuffer. *)
Definition isAllocation (e : Event) : bool :=
  match e with
  | EvTextureStorage _ _ _ _ | EvFramebufferCreate _ => true
  | _ => false
  end.

(** The mip level count [recreateTexture] gives the colour texture. *)
Definition mipLevelsFor (c : CubeMapObject) : Z :=
  if hasFlag (flags_ c) BuildMipmap then log2 (imageSize_ c) + 1 else 1.

(** What holds of the textures of an object that has a size: every enabled
    texture has been allocated, with the levels [recreateTexture] chooses. *)
Definition storagePolicy (c : CubeMapObject) : Prop :=
  0 < imageSize_ c ->
  (hasFlag (flags_ c) ColorTexture = true ->
   levelsOf c Color = Some (mipLevelsFor c)) /\
  (hasFlag (flags_ c) DepthTexture = true -> levelsOf c Depth = Some 1).

(** Two states that differ at most in the framebuffer and the depth
    renderbuffer. *)
Definition sameTextures (w w' : World) : Prop :=
  flags_ (cubeMap w') = flags_ (cubeMap w) /\
  imageSize_ (cubeMap w') = imageSize_ (cubeMap w) /\
  textures_ (cubeMap w') = textures_ (cubeMap w) /\
  nextObject w' = nextObject w /\
  trace w' = trace w.

(** Two states with the same flags, size and texture allocations. *)
Definition sameStorage (w w' : World) : Prop :=
  flags_ (cubeMap w') = flags_ (cubeMap w) /\
  imageSize_ (cubeMap w') = imageSize_ (cubeMap w) /\
  forall type, levelsOf (cubeMap w') type = levelsOf (cubeMap w) type.

(** The state in which [reset] stops when the size is not positive: only
    [imageSize_] has been assigned. *)
Definition resized (S : Z) (w : World) : World :=
  {| cubeMap := set_imageSize S (cubeMap w); nextObject := nextObject w;
     trace := trace w |}.

(** *** Sample contexts and surroundings, for running the functions *)

(** A context in which nothing has happened yet; its object is the one the
    constructor's member initialisers give, without flags. *)
Definition freshContext : World :=
  {| cubeMap := {| flags_ := 0; imageSize_ := 0; textures_ := ∅;
                   frameBuffer_ := NoCreate;
                   optionalDepthBuffer_ := {| rb_storage := None |} |};
     nextObject := 0; trace := [] |}.

(** The state a constructor call leaves (whatever its outcome). *)
Definition constructed (imageSize flags : Z) : World :=
  snd (CubeMap imageSize flags freshContext).

(** A square image of the given edge, every pixel with the same three
    channel values. *)
Definition flatImage (edge : Z) (value : Z) : ImageData :=
  {| img_size := (edge, edge);
     img_rows := replicate (Z.to_nat edge)
                   (replicate (Z.to_nat edge) [value; value; value]) |}.

(** Surroundings in which both plugins load, every export succeeds, every
    file holds a flat image of the given edge and every framebuffer is
    complete. *)
Definition allFiles (edge : Z) : Env :=
  {| converterPlugin := true; importerPlugin := true;
     exportToFile := fun _ => true;
     image2D := fun _ => Some (flatImage edge 7);
     checkStatus := fun _ => true |}.

(** The same, without the plugins. *)
Definition noPlugins (edge : Z) : Env :=
  {| converterPlugin := false; importerPlugin := false;
     exportToFile := fun _ => true;
     image2D := fun _ => Some (flatImage edge 7);
     checkStatus := fun _ => true |}.

(** An operation keeps a relation between the state before and the state
    after, whatever its outcome. *)
Definition Keeps (R : World -> World -> Prop) {A} (op : Op A) : Prop :=
  forall w, R w (snd (op w)).

(** An operation that returns carries a property of the state over. *)
Definition Preserves (P : World -> Prop) {A} (op : Op A) : Prop :=
  forall w a w', P w -> op w = (Done a, w') -> P w'.

(** The state after [openFile]. *)
Definition opened (name : string) (w : World) : World :=
  {| cubeMap := cubeMap w; nextObject := nextObject w;
     trace := trace w ++ [EvOpenFile name] |}.

(** What [loadTexture] uploads for an imported image. *)
Definition subImageOf (type : TextureType) (d : ImageData) : SubImage :=
  match type with
  | Color => OfImageData d
  | Depth => OfImageView R32F (img_size d) (depthImage d)
  end.

(** The file of a face holds a square image of edge [T]. *)
Definition squareFile (env : Env) (type : TextureType) (pre ext : string)
    (T : Z) (i : Z) : Prop :=
  exists d, image2D env (faceFile type pre ext i) = Some d /\ img_size d = (T, T).

(** What an iteration of the face loop of [loadTexture] does, whatever its
    outcome: it opens the file of the face, then (first face only) may
    allocate, then uploads at most once, and only an image that passed the
    checks. *)
Definition FaceEvents (env : Env) (type : TextureType) (pre ext : string)
    (ptr : nat) (i acc : Z) (w : World) (run : Outcome Failure Z * World)
  : Prop :=
  let name := faceFile type pre ext i in
  exists allocs ups,
    trace (snd run) = trace w ++ EvOpenFile name :: allocs ++ ups /\
    forallb isAllocation allocs = true /\
    flags_ (cubeMap (snd run)) = flags_ (cubeMap w) /\
    (i <> 0 -> allocs = [] /\ sameStorage w (snd run)) /\
    ((ups = [] /\ forall a, fst run <> Done a) \/
     (exists d T,
        image2D env name = Some d /\ img_size d = (T, T) /\
        ups = [EvSetSubImage ptr (PositiveX + i) (subImageOf type d)] /\
        (i <> 0 -> T = acc) /\
        (forall a, fst run = Done a -> a = T))) /\
    (i = 0 -> forall d T,
       image2D env name = Some d -> img_size d = (T, T) ->
       imageSize_ (cubeMap (snd run)) = T /\
       (T <> imageSize_ (cubeMap w) ->
        (0 < T -> forall ty, hasFlag (flags_ (cubeMap w)) (capability ty) = true ->
           exists id lv fmt, In (EvTextureStorage id lv fmt (T, T)) allocs) /\
        (T <= 0 -> ups = []))).

(** The textures a render pass needs are there: the texture of every
    enabled type. *)
Definition texturesPresent (w : World) : Prop :=
  forall type, hasFlag (flags_ (cubeMap w)) (capability type) = true ->
    exists t, textures_ (cubeMap w) !! type = Some (Some t).

(** The texture of a type, when the object owns one. *)
Definition textureOf (c : CubeMapObject) (type : TextureType)
  : option CubeMapTexture :=
  match textures_ c !! type with
  | Some (Some t) => Some t
  | _ => None
  end.

(** The textures whose mip chain a run regenerated, in order. *)
Definition mipmapsGenerated (tr : list Event) : list nat :=
  omap (fun e => match e with EvGenerateMipmap t => Some t | _ => None end) tr.

(** Surroundings as [allFiles], except that the export to one file name
    fails. *)
Definition exportFailsFor (bad : string) (edge : Z) : Env :=
  {| converterPlugin := true; importerPlugin := true;
     exportToFile := fun name => negb (String.eqb name bad);
     image2D := fun _ => Some (flatImage edge 7);
     checkStatus := fun _ => true |}.

(** A camera attached to scene graph 7, with a viewport of the given edge
    and an integer standing for its transformation; a scene graph with two
    drawable groups; a way to turn to a face that depends on the base
    orientation and the face only. *)
Definition sampleCamera (edge : Z) : CubeMapCamera Z :=
  {| cam_sceneGraph := 7; cam_viewport := (edge, edge);
     cam_transformation := 5; cam_originalViewingMatrix := 0 |}.

Definition sampleScene : SceneGraph :=
  {| sg_id := 7; getDrawableGroups := ["stage"; "objects"] |}.

Definition sampleFaceTransformation (base : Z) (iFace : Z) : Z :=
  base * 10 + iFace + 1.

(** Every texture the object owns is of an enabled type and was handed its
    identity by the allocator. *)
Definition ownedTextures (w : World) : Prop :=
  forall type t, textures_ (cubeMap w) !! type = Some (Some t) ->
    hasFlag (flags_ (cubeMap w)) (capability type) = true /\
    (tex_id t < nextObject w)%nat.

(** The relation of an operation that maintains it. *)
Definition keepsOwned (w w' : World) : Prop := ownedTextures w -> ownedTextures w'.

(** The message of [textureTypeSanityCheck] for a texture type. *)
Definition outputWord (type : TextureType) : string :=
  match type with Color => "color" | Depth => "depth" end.

Definition notCreatedWith (functionNameStr : string) (type : TextureType)
  : string :=
  (functionNameStr ++ " instance was not created with " ++ outputWord type ++
   " texture output enabled.")%string.

(** *** What a resize builds, and what later calls keep of it *)

(** The storage format of the texture of a type. *)
Definition formatFor (type : TextureType) : TextureFormat :=
  match type with Color => RGBA8 | Depth => DepthComponent32F end.

(** The colour and the depth texture as they leave [recreateTexture]: no
    face has been uploaded, no mip chain generated. *)
Definition newColorTexture (id : nat) (levels edge : Z) : CubeMapTexture :=
  {| tex_id := id; tex_wrapping := ClampToEdge;
     tex_minification := (Linear, MipLinear); tex_magnification := Linear;
     tex_storage := Some (levels, RGBA8, (edge, edge));
     tex_faces := ∅; tex_mipmapGenerations := 0 |}.

Definition newDepthTexture (id : nat) (edge : Z) : CubeMapTexture :=
  {| tex_id := id; tex_wrapping := ClampToEdge;
     tex_minification := (Nearest, Base); tex_magnification := Nearest;
     tex_storage := Some (1, DepthComponent32F, (edge, edge));
     tex_faces := ∅; tex_mipmapGenerations := 0 |}.

(** Colour attachment [i] bound to level 0 of face [i] of a texture. *)
Definition faceAttachments (tex : nat) : gmap Z (nat * Z * Z) :=
  list_to_map (map (fun index => (index, (tex, PositiveX + index, 0))) faces).

(** The state in which a resize to a positive size ends. *)
Definition afterResize (edge : Z) (w : World) : World :=
  let c := cubeMap w in
  let color := hasFlag (flags_ c) ColorTexture in
  let depth := hasFlag (flags_ c) DepthTexture in
  let colorId := nextObject w in
  let depthId := if color then S colorId else colorId in
  let levels := if hasFlag (flags_ c) BuildMipmap then log2 edge + 1 else 1 in
  {| cubeMap :=
       {| flags_ := flags_ c;
          imageSize_ := edge;
          textures_ :=
            (if depth
             then <[Depth := Some (newDepthTexture depthId edge)]>
             else fun m => m)
              ((if color
                then <[Color := Some (newColorTexture colorId levels edge)]>
                else fun m => m) (textures_ c));
          frameBuffer_ :=
            {| fb_created := true; fb_viewport := ((0, 0), (edge, edge));
               fb_color := if color then faceAttachments colorId else ∅;
               fb_depth := if depth then None else Some DepthOfRenderbuffer;
               fb_drawMapping := [] |};
          optionalDepthBuffer_ :=
            {| rb_storage := Some (DepthComponent24, (edge, edge)) |} |};
     nextObject := if depth then S depthId else depthId;
     trace := trace w ++
       (if color then [EvTextureStorage colorId levels RGBA8 (edge, edge)]
        else []) ++
       (if depth then [EvTextureStorage depthId 1 DepthComponent32F (edge, edge)]
        else []) ++
       [EvFramebufferCreate ((0, 0), (edge, edge))] |}.

(** A texture without its contents: identity, sampler state and storage. *)
Definition blank (t : CubeMapTexture) : CubeMapTexture :=
  {| tex_id := tex_id t; tex_wrapping := tex_wrapping t;
     tex_minification := tex_minification t;
     tex_magnification := tex_magnification t; tex_storage := tex_storage t;
     tex_faces := ∅; tex_mipmapGenerations := 0 |}.

(** What is stored in a face of the texture of a type. *)
Definition faceOf (c : CubeMapObject) (type : TextureType) (coordinate : Z)
  : option SubImage :=
  textureOf c type ≫= fun t => tex_faces t !! coordinate.

(** Two states of which the second differs from the first at most in the
    contents of the textures, in the mapping of the shader outputs and in the
    face of the depth texture that is attached. *)
Definition sameShape (w w' : World) : Prop :=
  let c := cubeMap w in
  let c' := cubeMap w' in
  flags_ c' = flags_ c /\
  imageSize_ c' = imageSize_ c /\
  (forall type, blank <$> textureOf c' type = blank <$> textureOf c type) /\
  fb_created (frameBuffer_ c') = fb_created (frameBuffer_ c) /\
  fb_viewport (frameBuffer_ c') = fb_viewport (frameBuffer_ c) /\
  fb_color (frameBuffer_ c') = fb_color (frameBuffer_ c) /\
  optionalDepthBuffer_ c' = optionalDepthBuffer_ c /\
  (fb_depth (frameBuffer_ c') = fb_depth (frameBuffer_ c) \/
   exists t coordinate,
     textureOf c' Depth = Some t /\
     fb_depth (frameBuffer_ c')
       = Some (DepthOfTexture (tex_id t) coordinate 0)).

(** The object agrees with its size: without a size it has neither textures
    nor a framebuffer; with a size, the texture of every enabled type is
    set up for that size, the framebuffer has the viewport of that size, its
    colour attachments are the faces of the colour texture the object owns
    now, and its depth attachment is the renderbuffer or a face of the depth
    texture the object owns now. *)
Definition consistent (w : World) : Prop :=
  let c := cubeMap w in
  let edge := imageSize_ c in
  0 <= edge /\
  (forall type t, textureOf c type = Some t ->
     hasFlag (flags_ c) (capability type) = true) /\
  (forall t1 t2, textureOf c Color = Some t1 -> textureOf c Depth = Some t2 ->
     tex_id t1 <> tex_id t2) /\
  (edge = 0 ->
     fb_created (frameBuffer_ c) = false /\
     forall type, textureOf c type = None) /\
  (0 < edge ->
     fb_created (frameBuffer_ c) = true /\
     fb_viewport (frameBuffer_ c) = ((0, 0), (edge, edge)) /\
     optionalDepthBuffer_ c
       = {| rb_storage := Some (DepthComponent24, (edge, edge)) |} /\
     (if hasFlag (flags_ c) ColorTexture
      then exists id,
             blank <$> textureOf c Color
               = Some (newColorTexture id (mipLevelsFor c) edge) /\
             fb_color (frameBuffer_ c) = faceAttachments id
      else fb_color (frameBuffer_ c) = ∅) /\
     (if hasFlag (flags_ c) DepthTexture
      then exists id,
             blank <$> textureOf c Depth = Some (newDepthTexture id edge) /\
             (fb_depth (frameBuffer_ c) = None \/
              exists coordinate,
                fb_depth (frameBuffer_ c)
                  = Some (DepthOfTexture id coordinate 0))
      else fb_depth (frameBuffer_ c) = Some DepthOfRenderbuffer)).

(** The calls [saveTexture] makes for a face it exports. *)
Definition saveEvents (type : TextureType) (imageFilePrefix : string)
    (tex : nat) (iFace : Z) : list Event :=
  let filename := faceFile type imageFilePrefix (saveExtension type) iFace in
  [EvExportToFile filename tex (PositiveX + iFace) (getPixelFormat type);
   EvLogInfo ("Saved image " ++ pretty iFace ++ " to " ++ filename)%string].

(** The state after the upload of an image to a face of the texture of a
    type, and the calls [loadTexture] makes for a face it uploads. *)
Definition uploaded (type : TextureType) (coordinate : Z) (image : SubImage)
    (c : CubeMapObject) : CubeMapObject :=
  set_textures (alter (fmap (setFace coordinate image)) type) c.

Definition loadEvents (type : TextureType) (filePrefix ext : string)
    (tex : nat) (iFace : Z) (d : ImageData) : list Event :=
  [EvOpenFile (faceFile type filePrefix ext iFace);
   EvSetSubImage tex (PositiveX + iFace) (subImageOf type d)].

(** The calls [renderToTexture] makes for a face: the camera is turned, the
    framebuffer cleared, every drawable group prepared and drawn. *)
Definition renderEvents (groups : list string) (flags : Z) (iFace : Z)
  : list Event :=
  [EvSwitchToFace iFace; EvClearDepth; EvClearColor 0] ++
  flat_map (fun group => [EvPrepareForDraw group; EvDraw group flags]) groups.

(** Whether the colour mip chain is to be regenerated after a load or a
    render pass. *)
Definition buildsMipmap (c : CubeMapObject) : bool :=
  hasFlag (flags_ c) BuildMipmap && hasFlag (flags_ c) ColorTexture.

(** What holds of every state a [CubeMap] can be in. *)
Definition sound (w : World) : Prop := ownedTextures w /\ consistent w.

(** Two states with the same capabilities. *)
Definition sameFlags (w w' : World) : Prop :=
  flags_ (cubeMap w') = flags_ (cubeMap w).

(** The constructor's default argument, [Flags{Flag::ColorTexture}]. *)
Definition defaultFlags : Z := ColorTexture.

(** The object before the body of the constructor runs. *)
Definition declared (flags : Z) (w0 : World) : World :=
  {| cubeMap := {| flags_ := flags; imageSize_ := 0; textures_ := ∅;
                   frameBuffer_ := NoCreate;
                   optionalDepthBuffer_ := {| rb_storage := None |} |};
     nextObject := nextObject w0;
     trace := trace w0 ++ [EvEnableSeamlessCubeMapTexture] |}.

(** A state after further calls. *)
Definition traced (new : list Event) (w : World) : World :=
  {| cubeMap := cubeMap w; nextObject := nextObject w;
     trace := trace w ++ new |}.

(** The state after a face has been read from its file and uploaded through
    the pointer [tex] to the texture of the type, and the calls made for a
    face, whether its file can be read or not. *)
Definition faceLoaded (env : Env) (type : TextureType)
    (filePrefix ext : string) (tex : nat) (w : World) (iFace : Z) : World :=
  match image2D env (faceFile type filePrefix ext iFace) with
  | Some d =>
      {| cubeMap :=
           uploaded type (PositiveX + iFace) (subImageOf type d) (cubeMap w);
         nextObject := nextObject w;
         trace := trace w ++ loadEvents type filePrefix ext tex iFace d |}
  | None => w
  end.

Definition loadEventsOf (env : Env) (type : TextureType)
    (filePrefix ext : string) (tex : nat) (iFace : Z) : list Event :=
  match image2D env (faceFile type filePrefix ext iFace) with
  | Some d => loadEvents type filePrefix ext tex iFace d
  | None => [EvOpenFile (faceFile type filePrefix ext iFace)]
  end.

(** The framebuffer after [prepareToDraw] for a face: the colour output is
    mapped to the attachment of the face and, with depth output, the face of
    the depth texture is attached. *)
Definition boundToFace (depthTexture : option nat) (f : Framebuffer)
    (iFace : Z) : Framebuffer :=
  let mapped := setDrawMapping [(ColorOutput, colorAttachment iFace)] f in
  match depthTexture with
  | Some tex => attachDepth (DepthOfTexture tex (PositiveX + iFace) 0) mapped
  | None => mapped
  end.

(** The depth texture a render pass attaches: the one the object owns, when
    it was created with depth output. *)
Definition depthTarget (c : CubeMapObject) : option nat :=
  if hasFlag (flags_ c) DepthTexture then tex_id <$> textureOf c Depth
  else None.

(** The call that regenerates the colour mip chain, when it is made. *)
Definition colorMipmapEvents (c : CubeMapObject) : list Event :=
  if buildsMipmap c
  then match textureOf c Color with
       | Some t => [EvGenerateMipmap (tex_id t)]
       | None => []
       end
  else [].

(** Surroundings as [allFiles], except that one file cannot be read. *)
Definition missingFile (bad : string) (edge : Z) : Env :=
  {| converterPlugin := true; importerPlugin := true;
     exportToFile := fun _ => true;
     image2D := fun name =>
       if String.eqb name bad then None else Some (flatImage edge 7);
     checkStatus := fun _ => true |}.

(** *** Outcomes that are defined *)

(** Whether the element count of the array built for a depth face of the
    given edge is beyond [int]. *)
Definition depthArrayOverflows (type : TextureType) (edge : Z) : bool :=
  match type with
  | Color => false
  | Depth => INT_MAX <? edge * edge
  end.

(** What is left of an iteration of the face loop after the checks on the
    file. *)
Definition thenUpload (type : TextureType) (ptr : nat) (i edge : Z)
    (d : ImageData) : Op Z :=
  if depthArrayOverflows type edge
  then fatal (Undefined "signed integer overflow")
  else setSubImage ptr (PositiveX + i) (subImageOf type d) ;;; ret edge.

(** How a load that resizes the object ends. *)
Definition resizingLoadFailure (type : TextureType) (edge : Z) : Failure :=
  if depthArrayOverflows type edge
  then Undefined "signed integer overflow"
  else Undefined "texture used after its destruction".

(** A failure that is a stop at an assertion, not undefined behaviour. *)
Definition defined (e : Failure) : Prop :=
  match e with
  | AssertionFailed _ => True
  | Undefined _ => False
  end.

(** From a state in [P], the call returns in a state and with a result in
    [Q], or stops at an assertion. *)
Definition Triple (P : World -> Prop) {A} (op : Op A)
    (Q : A -> World -> Prop) : Prop :=
  forall w, P w ->
    match op w with
    | (Done a, w') => Q a w'
    | (Fatal e, _) => defined e
    end.

(** The pointer still points to a texture the object owns. *)
Definition live (ptr : nat) (w : World) : Prop :=
  exists type, pointee (cubeMap w) ptr = Some type.

End Gfx.

(** * Properties *)

(** ** MetadataMediator: looking up a file path by handle *)

Module MediatorFacts.
Import MetadataMediator.

Section Lookup.
Context {Config PhysicsManager Manager : Type}.
Variable getObjectByHandle : Manager -> string -> option SceneDatasetAttributes.

Abbreviation St := (State Config PhysicsManager Manager).

Lemma getFilePathForHandle_present h (m : gmap string string) msg (s : St)
    p :
  m !! h = Some p ->
  getFilePathForHandle h m msg s = (Done p, s).
Proof.
  intros Hp. unfold getFilePathForHandle, count, at_. rewrite Hp. reflexivity.
Qed.

Lemma getFilePathForHandle_absent h (m : gmap string string) msg (s : St) :
  m !! h = None ->
  getFilePathForHandle h m msg s = (Done "", warned msg h s).
Proof.
  intros Hp. unfold getFilePathForHandle, count. rewrite Hp. reflexivity.
Qed.

Lemma getFilePathForHandle_result h (m : gmap string string) msg (s : St) :
  fst (getFilePathForHandle h m msg s) = Done (default "" (m !! h)) /\
  mm (snd (getFilePathForHandle h m msg s)) = mm s.
Proof.
  destruct (m !! h) as [p|] eqn:Hp.
  - rewrite (getFilePathForHandle_present _ _ _ _ _ Hp). auto.
  - rewrite (getFilePathForHandle_absent _ _ _ _ Hp). auto.
Qed.

Lemma getActiveDSAttribs_result (s : St) :
  fst (getActiveDSAttribs getObjectByHandle s)
    = Done (activeDataset getObjectByHandle s) /\
  mm (snd (getActiveDSAttribs getObjectByHandle s)) = mm s.
Proof.
  unfold getActiveDSAttribs, activeDataset, bind, get.
  destruct (getObjectByHandle _ _); cbn; auto.
Qed.

Lemma byHandle_result (table : SceneDatasetAttributes -> gmap string string)
    (h noDataset caller : string) (s : St) :
  let run :=
    bind (getActiveDSAttribs getObjectByHandle)
      (fun datasetAttr =>
         match datasetAttr with
         | None => LOG ERROR noDataset ;;; ret ""
         | Some d => getFilePathForHandle h (table d) caller
         end) s in
  fst run
    = Done (pathOrEmpty (table <$> activeDataset getObjectByHandle s) h)
  /\ mm (snd run) = mm s.
Proof.
  cbn zeta. unfold bind.
  pose proof (getActiveDSAttribs_result s) as [Hr Hs].
  destruct (getActiveDSAttribs getObjectByHandle s) as [[d|e] s1];
    cbn in Hr, Hs; [|discriminate].
  injection Hr as <-.
  destruct d as [d|]; cbn.
  - destruct (getFilePathForHandle_result h (table d) caller s1) as [H1 H2].
    rewrite H1. split; [reflexivity | congruence].
  - auto.
Qed.

(** C10.  [getFilePathForHandle h m msg] returns [m[h]] when [h] is a key of
    [m], and the empty string, after logging a warning, when it is not.
    [getNavmeshPathByHandle] and [getSemanticSceneDescriptorPathByHandle]
    therefore return the entry of the handle in the active dataset's table,
    and the empty string both when there is no active dataset and when the
    table has no such handle; none of them changes the mediator. *)
Theorem getFilePathForHandle_lookup_or_empty
    (h : string) (m : gmap string string) (msg : string) (s : St) :
  getFilePathForHandle h m msg s
    = match m !! h with
      | Some p => (Done p, s)
      | None => (Done "", warned msg h s)
      end
  /\ fst (getNavmeshPathByHandle getObjectByHandle h s)
       = Done (pathOrEmpty (getNavmeshMap <$> activeDataset getObjectByHandle s) h)
  /\ mm (snd (getNavmeshPathByHandle getObjectByHandle h s)) = mm s
  /\ fst (getSemanticSceneDescriptorPathByHandle getObjectByHandle h s)
       = Done (pathOrEmpty
                 (getSemanticSceneDescrMap <$> activeDataset getObjectByHandle s) h)
  /\ mm (snd (getSemanticSceneDescriptorPathByHandle getObjectByHandle h s))
       = mm s.
Proof.
  split.
  - destruct (m !! h) eqn:Hm.
    + now apply getFilePathForHandle_present.
    + now apply getFilePathForHandle_absent.
  - pose proof (byHandle_result getNavmeshMap h) as Hnav.
    pose proof (byHandle_result getSemanticSceneDescrMap h) as Hsem.
    cbn zeta in Hnav, Hsem.
    unfold getNavmeshPathByHandle, getSemanticSceneDescriptorPathByHandle.
    split; [apply Hnav|]. split; [apply Hnav|]. split; apply Hsem.
Qed.

(** The empty string is what comes back without an active dataset, and with
    one whose table lacks the handle. *)
Lemma pathOrEmpty_no_dataset h : pathOrEmpty None h = "".
Proof. reflexivity. Qed.

Lemma pathOrEmpty_absent (tbl : gmap string string) h :
  tbl !! h = None -> pathOrEmpty (Some tbl) h = "".
Proof. intros H. cbn. now rewrite H. Qed.

End Lookup.

(** A mediator whose manager is a table of datasets, for trying the lookups
    out. *)
Example navmesh_lookup_runs :
  let dataset :=
    {| getNavmeshMap := {["apt" := "data/apt.navmesh"]};
       getSemanticSceneDescrMap := ∅ |} in
  let s :=
    {| mm := {| simConfig_ := tt;
                activeSceneDataset_ := "default";
                currPhysicsManagerAttributes_ := "";
                sceneDatasetAttributesManager_ :=
                  ({["default" := dataset]} : gmap string SceneDatasetAttributes);
                physicsAttributesManager_ := tt |};
       glog := [] |} in
  (fst (getNavmeshPathByHandle (fun mgr k => mgr !! k) "apt" s)
     = Done "data/apt.navmesh") /\
  (fst (getNavmeshPathByHandle (fun mgr k => mgr !! k) "villa" s) = Done "") /\
  (fst (getSemanticSceneDescriptorPathByHandle (fun mgr k => mgr !! k) "apt" s)
     = Done "").
Proof. vm_compute. auto. Qed.

(** *** The other accessors *)

Section Accessors.
Context {Config PhysicsManager Manager : Type}.
Variable getObjectByHandle : Manager -> string -> option SceneDatasetAttributes.

Abbreviation St := (State Config PhysicsManager Manager).

Lemma getActiveDSAttribs_run (s : St) :
  getActiveDSAttribs getObjectByHandle s
    = match activeDataset getObjectByHandle s with
      | Some d => (Done (Some d), s)
      | None => (Done None, loggedOnce s)
      end.
Proof.
  unfold getActiveDSAttribs, activeDataset, bind, get.
  destruct (getObjectByHandle _ _); reflexivity.
Qed.

Lemma bind_getActiveDSAttribs {B}
    (k : option SceneDatasetAttributes -> M St Exception B) (s : St) :
  bind (getActiveDSAttribs getObjectByHandle) k s
    = match activeDataset getObjectByHandle s with
      | Some d => k (Some d) s
      | None => k None (loggedOnce s)
      end.
Proof.
  unfold bind. rewrite getActiveDSAttribs_run.
  destruct (activeDataset getObjectByHandle s); reflexivity.
Qed.

Lemma byHandle_log (table : SceneDatasetAttributes -> gmap string string)
    (h caller : string) (s : St) :
  glog (snd (bind (getActiveDSAttribs getObjectByHandle)
      (fun datasetAttr =>
         match datasetAttr with
         | None => LOG ERROR (snd (noDatasetForPath caller h)) ;;; ret ""
         | Some d => getFilePathForHandle h (table d) caller
         end) s))
    = glog s ++
      match activeDataset getObjectByHandle s with
      | None => [unknownDataset s; noDatasetForPath caller h]
      | Some d =>
          match table d !! h with
          | Some _ => []
          | None => [noPathFor caller h]
          end
      end.
Proof.
  rewrite bind_getActiveDSAttribs.
  destruct (activeDataset getObjectByHandle s) as [d|].
  - destruct (table d !! h) as [p|] eqn:Hp.
    + rewrite (getFilePathForHandle_present _ _ _ _ _ Hp). cbn.
      now rewrite app_nil_r.
    + rewrite (getFilePathForHandle_absent _ _ _ _ Hp). reflexivity.
  - cbn. now rewrite <- app_assoc.
Qed.

(** X1.  A path lookup that fails says so in the log, and one that succeeds logs
    nothing: [getNavmeshPathByHandle] and
    [getSemanticSceneDescriptorPathByHandle] append two errors when there is
    no active dataset (the one of [getActiveDSAttribs], then their own), one
    warning when the active dataset has no such handle, and nothing when the
    handle is found. *)
Theorem failed_lookups_are_logged (h : string) (s : St) :
  glog (snd (getNavmeshPathByHandle getObjectByHandle h s))
    = glog s ++
      match activeDataset getObjectByHandle s with
      | None =>
          [unknownDataset s;
           noDatasetForPath "MetadataMediator::getNavmeshPathByHandle" h]
      | Some d =>
          match getNavmeshMap d !! h with
          | Some _ => []
          | None => [noPathFor "MetadataMediator::getNavmeshPathByHandle" h]
          end
      end /\
  glog (snd (getSemanticSceneDescriptorPathByHandle getObjectByHandle h s))
    = glog s ++
      match activeDataset getObjectByHandle s with
      | None =>
          [unknownDataset s;
           noDatasetForPath
             "MetadataMediator::getSemanticSceneDescriptorPathByHandle" h]
      | Some d =>
          match getSemanticSceneDescrMap d !! h with
          | Some _ => []
          | None =>
              [noPathFor
                 "MetadataMediator::getSemanticSceneDescriptorPathByHandle" h]
          end
      end.
Proof.
  split.
  - apply (byHandle_log getNavmeshMap).
  - apply (byHandle_log getSemanticSceneDescrMap).
Qed.

(** X2.  The two path lookups answer from the maps that
    [getActiveNavmeshMap] and [getActiveSemanticSceneDescriptorMap] return:
    the path of a handle is its entry in the map, and the empty string when
    the map has none.  The maps are empty when there is no active dataset,
    and reading them leaves the mediator as it was. *)
Theorem lookups_agree_with_active_maps (s : St) :
  exists nav sem,
    fst (getActiveNavmeshMap getObjectByHandle s) = Done nav /\
    fst (getActiveSemanticSceneDescriptorMap getObjectByHandle s) = Done sem /\
    mm (snd (getActiveNavmeshMap getObjectByHandle s)) = mm s /\
    mm (snd (getActiveSemanticSceneDescriptorMap getObjectByHandle s)) = mm s /\
    (activeDataset getObjectByHandle s = None -> nav = ∅ /\ sem = ∅) /\
    forall h,
      fst (getNavmeshPathByHandle getObjectByHandle h s)
        = Done (default "" (nav !! h)) /\
      fst (getSemanticSceneDescriptorPathByHandle getObjectByHandle h s)
        = Done (default "" (sem !! h)).
Proof.
  assert (forall h, fst (getNavmeshPathByHandle getObjectByHandle h s)
    = Done (pathOrEmpty (getNavmeshMap <$> activeDataset getObjectByHandle s) h))
    as Hnav
    by (intros h; apply (byHandle_result getObjectByHandle getNavmeshMap)).
  assert (forall h,
    fst (getSemanticSceneDescriptorPathByHandle getObjectByHandle h s)
    = Done (pathOrEmpty
              (getSemanticSceneDescrMap <$> activeDataset getObjectByHandle s) h))
    as Hsem
    by (intros h;
        apply (byHandle_result getObjectByHandle getSemanticSceneDescrMap)).
  unfold getActiveNavmeshMap, getActiveSemanticSceneDescriptorMap.
  rewrite !bind_getActiveDSAttribs.
  destruct (activeDataset getObjectByHandle s) as [d|] eqn:Hd.
  - exists (getNavmeshMap d), (getSemanticSceneDescrMap d). cbn.
    repeat (split; [reflexivity|]). split; [discriminate|].
    intros h. now rewrite Hnav, Hsem.
  - exists ∅, ∅. cbn. repeat (split; [reflexivity|]). split; [auto|].
    intros h. now rewrite Hnav, Hsem.
Qed.

Section Forwarding.
Context {AssetManager LightLayoutManager ObjectManager SceneManager
         StageManager StageAttributes ObjectAttributes LightSetup : Type}.
Variable LightSetup_empty : LightSetup.
Variable assetManagerOf : SceneDatasetAttributes -> option AssetManager.
Variable lightLayoutManagerOf :
  SceneDatasetAttributes -> option LightLayoutManager.
Variable objectManagerOf : SceneDatasetAttributes -> option ObjectManager.
Variable sceneManagerOf : SceneDatasetAttributes -> option SceneManager.
Variable stageManagerOf : SceneDatasetAttributes -> option StageManager.
Variable stageCopyOf : SceneDatasetAttributes -> string -> option StageAttributes.
Variable objectCopyOf :
  SceneDatasetAttributes -> string -> option ObjectAttributes.
Variable lightSetupOf : SceneDatasetAttributes -> string -> LightSetup.
Variable stageHandleOf : SceneDatasetAttributes -> string -> string.
Variable objectHandleOf : SceneDatasetAttributes -> string -> string.
Variable lightHandleOf : SceneDatasetAttributes -> string -> string.

(** X3.  When no dataset is registered under the active name, every accessor
    that goes through the active dataset returns its empty value (a null
    manager, an empty map, no attributes, an empty light setup, the empty
    string) instead of failing, and leaves the mediator as it was.  The
    getters of managers and maps log the error of [getActiveDSAttribs]; the
    lookups by name log a second error, which names the active dataset. *)
Theorem accessors_without_active_dataset (name : string) (s : St) :
  activeDataset getObjectByHandle s = None ->
  getAssetAttributesManager getObjectByHandle assetManagerOf s
    = (Done None, loggedOnce s) /\
  getLightLayoutAttributesManager getObjectByHandle lightLayoutManagerOf s
    = (Done None, loggedOnce s) /\
  getObjectAttributesManager getObjectByHandle objectManagerOf s
    = (Done None, loggedOnce s) /\
  getSceneAttributesManager getObjectByHandle sceneManagerOf s
    = (Done None, loggedOnce s) /\
  getStageAttributesManager getObjectByHandle stageManagerOf s
    = (Done None, loggedOnce s) /\
  getActiveNavmeshMap getObjectByHandle s = (Done ∅, loggedOnce s) /\
  getActiveSemanticSceneDescriptorMap getObjectByHandle s
    = (Done ∅, loggedOnce s) /\
  getNamedStageAttributesCopy getObjectByHandle stageCopyOf name s
    = (Done None,
       loggedTwice "MetadataMediator::getNamedStageAttributesCopy" s) /\
  getNamedObjectAttributesCopy getObjectByHandle objectCopyOf name s
    = (Done None,
       loggedTwice "MetadataMediator::getNamedObjectAttributesCopy" s) /\
  getNamedLightSetup getObjectByHandle LightSetup_empty lightSetupOf name s
    = (Done LightSetup_empty,
       loggedTwice "MetadataMediator::getNamedLightSetup" s) /\
  getStageAttrFullHandle getObjectByHandle stageHandleOf name s
    = (Done "", loggedTwice "MetadataMediator::getStageAttrFullHandle" s) /\
  getObjAttrFullHandle getObjectByHandle objectHandleOf name s
    = (Done "", loggedTwice "MetadataMediator::getObjAttrFullHandle" s) /\
  getLightSetupFullHandle getObjectByHandle lightHandleOf name s
    = (Done "", loggedTwice "MetadataMediator::getLightSetupFullHandle" s).
Proof.
  intros Hnone.
  unfold getAssetAttributesManager, getLightLayoutAttributesManager,
    getObjectAttributesManager, getSceneAttributesManager,
    getStageAttributesManager, getActiveNavmeshMap,
    getActiveSemanticSceneDescriptorMap, getNamedStageAttributesCopy,
    getNamedObjectAttributesCopy, getNamedLightSetup, getStageAttrFullHandle,
    getObjAttrFullHandle, getLightSetupFullHandle.
  rewrite !bind_getActiveDSAttribs, Hnone. unfold loggedOnce, loggedTwice. cbn.
  rewrite <- !app_assoc. repeat split.
Qed.
End Forwarding.
End Accessors.

Lemma accessors_without_active_dataset_witness :
  activeDataset tableLookup emptyMediator = None /\
  getStageAttrFullHandle tableLookup (fun _ name => name) "stage" emptyMediator
    = (Done "",
       loggedTwice "MetadataMediator::getStageAttrFullHandle" emptyMediator) /\
  getActiveNavmeshMap tableLookup emptyMediator
    = (Done ∅, loggedOnce emptyMediator).
Proof.
  pose proof (accessors_without_active_dataset tableLookup tt
                (fun _ => @None unit) (fun _ => @None unit)
                (fun _ => @None unit) (fun _ => @None unit)
                (fun _ => @None unit) (fun _ _ => @None unit)
                (fun _ _ => @None unit) (fun _ _ => tt)
                (fun _ name => name) (fun _ name => name) (fun _ name => name)
                "stage" emptyMediator eq_refl) as H.
  split; [reflexivity|]. split; [apply H|]. apply H.
Defined.

End MediatorFacts.

(** ** MeshMetaData: the index ranges of an asset *)

Module AssetsFacts.
Import Assets.

Section Ranges.
Variable ID_UNDEFINED : Z.
Context {Matrix4 : Type}.
Variable Matrix4_default : Matrix4.

(** X4.  The constructor and the three setters agree: constructing with six
    indices is default construction followed by the three setters, and with
    two indices it is default construction followed by [setMeshIndices], the
    texture and material ranges staying undefined.  On any value, setters of
    different ranges commute, a setter called again overrides its earlier
    call, and no setter touches another range or the transformation tree. *)
Theorem setters_compose (a b c d e f : Z) (m : MeshMetaData Matrix4) :
  let fresh := MeshMetaData_default ID_UNDEFINED Matrix4_default in
  MeshMetaData_ctor ID_UNDEFINED Matrix4_default a b c d e f
    = setMaterialIndices e f (setTextureIndices c d (setMeshIndices a b fresh)) /\
  MeshMetaData_ctor2 ID_UNDEFINED Matrix4_default a b
    = setMeshIndices a b fresh /\
  textureIndex (MeshMetaData_ctor2 ID_UNDEFINED Matrix4_default a b)
    = (ID_UNDEFINED, ID_UNDEFINED) /\
  materialIndex (MeshMetaData_ctor2 ID_UNDEFINED Matrix4_default a b)
    = (ID_UNDEFINED, ID_UNDEFINED) /\
  children (root (MeshMetaData_ctor ID_UNDEFINED Matrix4_default a b c d e f))
    = [] /\
  setTextureIndices c d (setMeshIndices a b m)
    = setMeshIndices a b (setTextureIndices c d m) /\
  setMaterialIndices e f (setMeshIndices a b m)
    = setMeshIndices a b (setMaterialIndices e f m) /\
  setMaterialIndices e f (setTextureIndices c d m)
    = setTextureIndices c d (setMaterialIndices e f m) /\
  setMeshIndices a b (setMeshIndices c d m) = setMeshIndices a b m /\
  setTextureIndices a b (setTextureIndices c d m) = setTextureIndices a b m /\
  setMaterialIndices a b (setMaterialIndices c d m)
    = setMaterialIndices a b m /\
  meshIndex (setMaterialIndices e f (setTextureIndices c d m)) = meshIndex m /\
  textureIndex (setMaterialIndices e f (setMeshIndices a b m))
    = textureIndex m /\
  materialIndex (setTextureIndices c d (setMeshIndices a b m))
    = materialIndex m /\
  root (setMaterialIndices e f (setTextureIndices c d (setMeshIndices a b m)))
    = root m.
Proof. cbn. repeat split. Qed.

End Ranges.
End AssetsFacts.

(** ** CubeMap *)

Module CubeMapFacts.
Import Gfx.

(** *** Running the monad *)

Ltac exec :=
  unfold bind, ret, gets, get, modify, fatal, emit, setCubeMap,
    CORRADE_INTERNAL_ASSERT, CORRADE_ASSERT; cbn.

Lemma bind_Done {A B} (c : Op A) (k : A -> Op B) w a w1 :
  c w = (Done a, w1) -> bind c k w = k a w1.
Proof. intros H. unfold bind. now rewrite H. Qed.

Lemma bind_Fatal {A B} (c : Op A) (k : A -> Op B) w e w1 :
  c w = (Fatal e, w1) -> bind c k w = (Fatal e, w1).
Proof. intros H. unfold bind. now rewrite H. Qed.

Lemma bind_gets {A B} (f : World -> A) (k : A -> Op B) w :
  bind (gets f) k w = k (f w) w.
Proof. reflexivity. Qed.

Lemma bind_ret {A B} (a : A) (k : A -> Op B) (w : World) :
  bind (ret a) k w = k a w.
Proof. reflexivity. Qed.

Lemma bind_emit {B} e (k : unit -> Op B) w :
  bind (emit e) k w
    = k tt {| cubeMap := cubeMap w; nextObject := nextObject w;
              trace := trace w ++ [e] |}.
Proof. reflexivity. Qed.

Lemma bind_setCubeMap {B} f (k : unit -> Op B) w :
  bind (setCubeMap f) k w
    = k tt {| cubeMap := f (cubeMap w); nextObject := nextObject w;
              trace := trace w |}.
Proof. reflexivity. Qed.

Lemma bind_assert_true {B} msg (k : unit -> Op B) (w : World) :
  bind (CORRADE_ASSERT true msg) k w = k tt w.
Proof. reflexivity. Qed.

Lemma bind_assert_false {B} msg (k : unit -> Op B) (w : World) :
  bind (CORRADE_ASSERT false msg) k w = (Fatal (AssertionFailed msg), w).
Proof. reflexivity. Qed.

Local Arguments log2 : simpl never.
Local Arguments pretty : simpl never.
Local Arguments hasFlag : simpl never.

(** *** Loops *)

Lemma In_faces i : In i faces <-> 0 <= i < 6.
Proof. unfold faces. rewrite <- list_elem_of_In, elem_of_seqZ. lia. Qed.

Lemma forEach_invariant {A} (I : World -> Prop) (l : list A)
    (body : A -> Op unit) :
  (forall x w, In x l -> I w -> exists w', body x w = (Done tt, w') /\ I w') ->
  forall w, I w -> exists w', forEach l body w = (Done tt, w') /\ I w'.
Proof.
  induction l as [|x l IH]; intros Hbody w Hw; cbn.
  - exists w. auto.
  - destruct (Hbody x w (or_introl eq_refl) Hw) as (w1 & E1 & H1).
    rewrite (bind_Done _ _ _ _ _ E1).
    apply IH; [|assumption]. intros y w2 Hy. apply Hbody. now right.
Qed.

(** *** Small steps *)

Lemma textures_at_present ty w p :
  textures_ (cubeMap w) !! ty = Some p -> textures_at ty w = (Done p, w).
Proof. intros H. unfold textures_at. rewrite bind_gets. now rewrite H. Qed.

Lemma UnsignedInt_small i : 0 <= i < 6 -> UnsignedInt i = i.
Proof. intros H. unfold UnsignedInt. apply Z.mod_small. lia. Qed.

Lemma convertFaceIndex_ok i w :
  0 <= i < 6 ->
  convertFaceIndexToCubeMapCoordinate i w = (Done (PositiveX + i), w).
Proof.
  intros H. unfold convertFaceIndexToCubeMapCoordinate. cbv zeta.
  rewrite (UnsignedInt_small i H).
  destruct (Z.ltb_spec i 6); [reflexivity | lia].
Qed.

(** *** The capability check *)

Lemma textureTypeSanityCheck_spec flags type fn w :
  textureTypeSanityCheck flags type fn w
    = if hasFlag flags (capability type) then (Done tt, w)
      else (Fatal (AssertionFailed (notCreatedWith fn type)), w).
Proof.
  destruct type; unfold textureTypeSanityCheck, CORRADE_ASSERT; cbn;
    destruct (hasFlag flags _); reflexivity.
Qed.

(** *** Allocation: [recreateTexture], [recreateFramebuffer], [reset] *)

Lemma recreateTexture_spec w :
  let S := imageSize_ (cubeMap w) in
  exists w' new,
    recreateTexture w = (Done tt, w') /\
    flags_ (cubeMap w') = flags_ (cubeMap w) /\
    imageSize_ (cubeMap w') = S /\
    trace w' = trace w ++ new /\
    forallb isAllocation new = true /\
    forall type, hasFlag (flags_ (cubeMap w)) (capability type) = true ->
      (exists t, textures_ (cubeMap w') !! type = Some (Some t)) /\
      levelsOf (cubeMap w') type
        = Some (match type with Color => mipLevelsFor (cubeMap w) | Depth => 1 end) /\
      exists id lv fmt, In (EvTextureStorage id lv fmt (S, S)) new.
Proof.
  cbn zeta.
  unfold recreateTexture, make_unique_CubeMapTexture, levelsOf, mipLevelsFor.
  rewrite bind_gets.
  destruct (hasFlag (flags_ (cubeMap w)) ColorTexture) eqn:Hc;
  destruct (hasFlag (flags_ (cubeMap w)) DepthTexture) eqn:Hd; cbn;
  eexists; eexists; (split; [reflexivity|]); cbn;
  (split; [reflexivity|]); (split; [reflexivity|]).
  - split; [rewrite <- app_assoc; reflexivity|]. split; [reflexivity|].
    intros [] _; cbn.
    + rewrite lookup_insert_ne by discriminate. rewrite lookup_insert_eq.
      split; [eauto|]. split; [reflexivity|]. eauto 6.
    + rewrite lookup_insert_eq.
      split; [eauto|]. split; [reflexivity|]. eauto 7.
  - split; [reflexivity|]. split; [reflexivity|].
    intros [] H; cbn in H; try congruence.
    rewrite lookup_insert_eq. split; [eauto|]. split; [reflexivity|]. cbn. eauto 6.
  - split; [reflexivity|]. split; [reflexivity|].
    intros [] H; cbn in H; try congruence.
    rewrite lookup_insert_eq. split; [eauto|]. split; [reflexivity|]. cbn. eauto 6.
  - split; [symmetry; apply app_nil_r|]. split; [reflexivity|].
    intros [] H; cbn in H; congruence.
Qed.

Lemma recreateFramebuffer_spec w :
  exists w',
    recreateFramebuffer w = (Done tt, w') /\
    flags_ (cubeMap w') = flags_ (cubeMap w) /\
    imageSize_ (cubeMap w') = imageSize_ (cubeMap w) /\
    textures_ (cubeMap w') = textures_ (cubeMap w) /\
    trace w' = trace w ++
      [EvFramebufferCreate
         ((0, 0), (imageSize_ (cubeMap w), imageSize_ (cubeMap w)))].
Proof.
  unfold recreateFramebuffer. rewrite bind_gets.
  eexists. split; [reflexivity|]. cbn. auto.
Qed.

Lemma attachFramebufferRenderbuffer_spec w :
  (hasFlag (flags_ (cubeMap w)) ColorTexture = true ->
   exists t, textures_ (cubeMap w) !! Color = Some (Some t)) ->
  exists w', attachFramebufferRenderbuffer w = (Done tt, w') /\ sameTextures w w'.
Proof.
  intros Hc. unfold attachFramebufferRenderbuffer.
  rewrite bind_gets.
  assert (exists w1,
    (if hasFlag (flags_ (cubeMap w)) ColorTexture
     then forEach faces (fun index =>
       let* cubeMapCoord := convertFaceIndexToCubeMapCoordinate index in
       let* p := textures_at Color in
       let* t := deref p in
       setCubeMap (set_frameBuffer
         (attachColor (colorAttachment index) (tex_id t) cubeMapCoord 0)))
     else ret tt) w = (Done tt, w1) /\ sameTextures w w1) as (w1 & E1 & S1).
  { destruct (hasFlag (flags_ (cubeMap w)) ColorTexture).
    - destruct (Hc eq_refl) as [t Ht].
      apply (forEach_invariant (sameTextures w)); [|repeat split].
      intros i w2 Hi S2. apply In_faces in Hi.
      rewrite (bind_Done _ _ _ _ _ (convertFaceIndex_ok i w2 Hi)).
      assert (textures_ (cubeMap w2) !! Color = Some (Some t)) as Ht2.
      { destruct S2 as (_ & _ & -> & _). exact Ht. }
      rewrite (bind_Done _ _ _ _ _ (textures_at_present _ _ _ Ht2)).
      cbn. eexists. split; [reflexivity|].
      destruct S2 as (? & ? & ? & ? & ?). repeat split; cbn; assumption.
    - exists w. repeat split. }
  rewrite (bind_Done _ _ _ _ _ E1).
  destruct (negb _); cbn.
  - eexists. split; [reflexivity|].
    destruct S1 as (? & ? & ? & ? & ?). repeat split; cbn; assumption.
  - eexists. split; [reflexivity|]. assumption.
Qed.

Lemma reset_same w : reset (imageSize_ (cubeMap w)) w = (Done false, w).
Proof. unfold reset. rewrite bind_gets, Z.eqb_refl. reflexivity. Qed.

Lemma reset_illegal w S :
  S <> imageSize_ (cubeMap w) -> S <= 0 ->
  reset S w
    = (Fatal (AssertionFailed
               ("CubeMap::reset(): image size " ++ pretty S ++ " is illegal.")%string),
       resized S w).
Proof.
  intros Hne Hle. unfold reset. rewrite bind_gets.
  destruct (Z.eqb_spec (imageSize_ (cubeMap w)) S); [congruence|].
  rewrite bind_setCubeMap.
  destruct (Z.ltb_spec 0 S); [lia|]. reflexivity.
Qed.

Lemma reset_resize w S :
  S <> imageSize_ (cubeMap w) -> 0 < S ->
  exists w' new,
    reset S w = (Done true, w') /\
    flags_ (cubeMap w') = flags_ (cubeMap w) /\
    imageSize_ (cubeMap w') = S /\
    trace w' = trace w ++ new /\
    forallb isAllocation new = true /\
    forall type, hasFlag (flags_ (cubeMap w)) (capability type) = true ->
      levelsOf (cubeMap w') type
        = Some (match type with Color => mipLevelsFor (cubeMap w') | Depth => 1 end) /\
      exists id lv fmt, In (EvTextureStorage id lv fmt (S, S)) new.
Proof.
  intros Hne Hpos. unfold reset. rewrite bind_gets.
  destruct (Z.eqb_spec (imageSize_ (cubeMap w)) S); [congruence|].
  rewrite bind_setCubeMap.
  destruct (Z.ltb_spec 0 S); [|lia]. rewrite bind_assert_true.
  destruct (recreateTexture_spec (resized S w))
    as (w1 & new & E1 & F1 & S1 & T1 & A1 & L1).
  fold (resized S w). rewrite (bind_Done _ _ _ _ _ E1).
  destruct (recreateFramebuffer_spec w1) as (w2 & E2 & F2 & S2 & X2 & T2).
  rewrite (bind_Done _ _ _ _ _ E2).
  destruct (attachFramebufferRenderbuffer_spec w2)
    as (w3 & E3 & F3 & S3 & X3 & N3 & T3).
  { intros Hc. rewrite X2. rewrite F2, F1 in Hc. apply (L1 Color Hc). }
  rewrite (bind_Done _ _ _ _ _ E3). cbn in *.
  exists w3, (new ++ [EvFramebufferCreate ((0, 0), (S, S))]).
  split; [reflexivity|].
  split; [congruence|]. split; [congruence|].
  split; [rewrite T3, T2, T1, S1; now rewrite app_assoc|].
  split; [rewrite forallb_app, A1; reflexivity|].
  intros type Hty. destruct (L1 type Hty) as (_ & Lv & id & lv & fmt & Hin).
  split.
  - unfold levelsOf, mipLevelsFor in *. rewrite X3, X2, Lv, F3, F2, F1, S3, S2, S1.
    reflexivity.
  - exists id, lv, fmt. apply in_or_app. now left.
Qed.

(** *** Construction and resizing *)

(** A negative size does reach the assertion of [reset]. *)
Lemma CubeMap_negative_size_asserts (imageSize flags : Z) (w0 : World) :
  imageSize < 0 ->
  fst (CubeMap imageSize flags w0)
    = Fatal (AssertionFailed
               ("CubeMap::reset(): image size " ++ pretty imageSize ++
                " is illegal.")%string).
Proof.
  intros Hneg. unfold CubeMap.
  rewrite bind_setCubeMap, bind_emit.
  erewrite bind_Fatal; [reflexivity|].
  apply reset_illegal; cbn; lia.
Qed.

(** C1 (the code departs from the specification).  Specified: for every
    [imageSize <= 0] the constructor stops at the assertion of [reset].
    At [imageSize = 0] it does not: [imageSize_] starts at [0], so
    [reset 0] takes the same-size exit before the assertion, and the
    constructor returns an object of size [0] with no texture and no
    framebuffer. *)
Theorem CubeMap_size_zero_returns (flags : Z) (w0 : World) :
  CubeMap 0 flags w0
    = (Done tt,
       {| cubeMap := {| flags_ := flags; imageSize_ := 0; textures_ := ∅;
                        frameBuffer_ := NoCreate;
                        optionalDepthBuffer_ := {| rb_storage := None |} |};
          nextObject := nextObject w0;
          trace := trace w0 ++ [EvEnableSeamlessCubeMapTexture] |}).
Proof. reflexivity. Qed.

(** C2.  [reset] with the current size returns [false] and leaves the whole
    state as it was; with a different, positive size it returns [true]. *)
Theorem reset_current_size_is_noop (w : World) :
  reset (imageSize_ (cubeMap w)) w = (Done false, w) /\
  forall S', S' <> imageSize_ (cubeMap w) -> 0 < S' ->
             fst (reset S' w) = Done true.
Proof.
  split; [apply reset_same|].
  intros S' Hne Hpos.
  destruct (reset_resize w S' Hne Hpos) as (w' & new & E & _).
  now rewrite E.
Qed.

Lemma reset_current_size_is_noop_witness :
  reset 4 (constructed 4 11) = (Done false, constructed 4 11) /\
  fst (reset 8 (constructed 4 11)) = Done true.
Proof.
  destruct (reset_current_size_is_noop (constructed 4 11)) as [Hsame Hother].
  split; [exact Hsame|].
  apply Hother; [discriminate | reflexivity].
Defined.

(** *** Capability gating *)



(** *** What every operation keeps: flags, size and texture allocations *)

Section Keeping.
Variable R : World -> World -> Prop.
Hypothesis R_refl : forall w, R w w.
Hypothesis R_trans : forall w1 w2 w3, R w1 w2 -> R w2 w3 -> R w1 w3.

Lemma Keeps_ret {A} (a : A) : Keeps R (ret a).
Proof. intros w. apply R_refl. Qed.

Lemma Keeps_fatal {A} e : Keeps R (@fatal World Failure A e).
Proof. intros w. apply R_refl. Qed.

Lemma Keeps_gets {A} (f : World -> A) : Keeps R (gets f).
Proof. intros w. apply R_refl. Qed.

Lemma Keeps_assert b msg : Keeps R (CORRADE_ASSERT b msg).
Proof. intros w. destruct b; apply R_refl. Qed.

Lemma Keeps_bind {A B} (c : Op A) (k : A -> Op B) :
  Keeps R c -> (forall a, Keeps R (k a)) -> Keeps R (bind c k).
Proof.
  intros Hc Hk w. unfold bind. specialize (Hc w).
  destruct (c w) as [[a|e] w1]; cbn in *.
  - eapply R_trans; [exact Hc | apply Hk].
  - exact Hc.
Qed.

Lemma Keeps_forEach {A} (l : list A) (body : A -> Op unit) :
  (forall x, Keeps R (body x)) -> Keeps R (forEach l body).
Proof.
  intros Hb. induction l as [|x l IH]; cbn.
  - apply Keeps_ret.
  - apply Keeps_bind; [apply Hb | intros _; exact IH].
Qed.

Lemma Keeps_forEachReturn {A B} (l : list A) (body : A -> Op (option B)) :
  (forall x, Keeps R (body x)) -> Keeps R (forEachReturn l body).
Proof.
  intros Hb. induction l as [|x l IH]; cbn.
  - apply Keeps_ret.
  - apply Keeps_bind; [apply Hb | intros [b|]; [apply Keeps_ret | exact IH]].
Qed.

Lemma Keeps_forEachWith {A S} (l : list A) (body : A -> S -> Op S) :
  (forall x s, Keeps R (body x s)) -> forall s, Keeps R (forEachWith l s body).
Proof.
  intros Hb. induction l as [|x l IH]; intros s; cbn.
  - apply Keeps_ret.
  - apply Keeps_bind; [apply Hb | intros s'; apply IH].
Qed.
End Keeping.

Lemma sameStorage_refl w : sameStorage w w.
Proof. repeat split. Qed.

Lemma sameStorage_trans w1 w2 w3 :
  sameStorage w1 w2 -> sameStorage w2 w3 -> sameStorage w1 w3.
Proof.
  intros (F1 & S1 & L1) (F2 & S2 & L2).
  split; [congruence|]. split; [congruence|].
  intros ty. now rewrite L2, L1.
Qed.

Lemma storagePolicy_sameStorage w w' :
  sameStorage w w' -> storagePolicy (cubeMap w) -> storagePolicy (cubeMap w').
Proof.
  intros (F & S & L) H. unfold storagePolicy, mipLevelsFor in *.
  rewrite F, S, !L. exact H.
Qed.

Lemma ss_ret {A} (a : A) : Keeps sameStorage (ret a).
Proof. apply Keeps_ret, sameStorage_refl. Qed.
Lemma ss_fatal {A} e : Keeps sameStorage (@fatal World Failure A e).
Proof. apply Keeps_fatal, sameStorage_refl. Qed.
Lemma ss_gets {A} (f : World -> A) : Keeps sameStorage (gets f).
Proof. apply Keeps_gets, sameStorage_refl. Qed.
Lemma ss_assert b msg : Keeps sameStorage (CORRADE_ASSERT b msg).
Proof. apply Keeps_assert, sameStorage_refl. Qed.
Lemma ss_bind {A B} (c : Op A) (k : A -> Op B) :
  Keeps sameStorage c -> (forall a, Keeps sameStorage (k a)) ->
  Keeps sameStorage (bind c k).
Proof. apply Keeps_bind, sameStorage_trans. Qed.
Lemma ss_if {A} (b : bool) (c1 c2 : Op A) :
  Keeps sameStorage c1 -> Keeps sameStorage c2 ->
  Keeps sameStorage (if b then c1 else c2).
Proof. destruct b; auto. Qed.
Lemma ss_forEach {A} (l : list A) (body : A -> Op unit) :
  (forall x, Keeps sameStorage (body x)) -> Keeps sameStorage (forEach l body).
Proof. apply Keeps_forEach; [apply sameStorage_refl | apply sameStorage_trans]. Qed.
Lemma ss_forEachReturn {A B} (l : list A) (body : A -> Op (option B)) :
  (forall x, Keeps sameStorage (body x)) ->
  Keeps sameStorage (forEachReturn l body).
Proof.
  apply Keeps_forEachReturn; [apply sameStorage_refl | apply sameStorage_trans].
Qed.
Lemma ss_forEachWith {A S} (l : list A) (body : A -> S -> Op S) s :
  (forall x s, Keeps sameStorage (body x s)) ->
  Keeps sameStorage (forEachWith l s body).
Proof.
  intros H. apply Keeps_forEachWith;
    [apply sameStorage_refl | apply sameStorage_trans | exact H].
Qed.

Create HintDb keeps.
#[local] Hint Resolve ss_ret ss_fatal ss_gets ss_assert ss_bind ss_if
  ss_forEach ss_forEachReturn ss_forEachWith : keeps.

Lemma Keeps_emit e : Keeps sameStorage (emit e).
Proof. intros w. repeat split. Qed.

Lemma Keeps_set_frameBuffer f : Keeps sameStorage (setCubeMap (set_frameBuffer f)).
Proof. intros w. repeat split. Qed.

Lemma Keeps_textures_at ty : Keeps sameStorage (textures_at ty).
Proof.
  intros w. unfold textures_at. rewrite bind_gets.
  destruct (textures_ (cubeMap w) !! ty) as [p|] eqn:E; cbn.
  - apply sameStorage_refl.
  - repeat split. intros ty'. unfold levelsOf; cbn.
    destruct (decide (ty = ty')) as [<-|Hne].
    + now rewrite lookup_insert_eq, E.
    + now rewrite lookup_insert_ne.
Qed.

Lemma Keeps_throughPointer ptr f :
  (forall t, tex_storage (f t) = tex_storage t) ->
  Keeps sameStorage (throughPointer ptr f).
Proof.
  intros Hf w. unfold throughPointer. rewrite bind_gets.
  destruct (pointee (cubeMap w) ptr) as [ty|]; cbn.
  - repeat split. intros ty'. unfold levelsOf; cbn.
    destruct (decide (ty = ty')) as [<-|Hne].
    + rewrite lookup_alter_eq.
      destruct (textures_ (cubeMap w) !! ty) as [[t|]|]; cbn; [|reflexivity..].
      now rewrite Hf.
    + now rewrite lookup_alter_ne.
  - apply sameStorage_refl.
Qed.

#[local] Hint Resolve Keeps_emit Keeps_set_frameBuffer Keeps_textures_at : keeps.

Lemma Keeps_sanityCheck flags ty fn :
  Keeps sameStorage (textureTypeSanityCheck flags ty fn).
Proof. destruct ty; apply ss_assert. Qed.

Lemma Keeps_convertFaceIndex i :
  Keeps sameStorage (convertFaceIndexToCubeMapCoordinate i).
Proof. unfold convertFaceIndexToCubeMapCoordinate. auto with keeps. Qed.

Lemma Keeps_int_mul a b : Keeps sameStorage (int_mul a b).
Proof. unfold int_mul. destruct (_ && _); auto with keeps. Qed.

Lemma Keeps_deref p : Keeps sameStorage (deref p).
Proof. destruct p; cbn; auto with keeps. Qed.

Lemma Keeps_setSubImage ptr c img : Keeps sameStorage (setSubImage ptr c img).
Proof.
  unfold setSubImage. apply ss_bind; [auto with keeps | intros _].
  now apply Keeps_throughPointer.
Qed.

Lemma Keeps_generateMipmap ptr : Keeps sameStorage (generateMipmap ptr).
Proof.
  unfold generateMipmap. apply ss_bind; [auto with keeps | intros _].
  now apply Keeps_throughPointer.
Qed.

#[local] Hint Resolve Keeps_sanityCheck Keeps_convertFaceIndex Keeps_int_mul
  Keeps_deref Keeps_setSubImage Keeps_generateMipmap : keeps.

Lemma Keeps_getTexture ty : Keeps sameStorage (getTexture ty).
Proof. unfold getTexture. auto 10 with keeps. Qed.

Lemma Keeps_saveFace env ty pre i : Keeps sameStorage (saveFace env ty pre i).
Proof. unfold saveFace. auto 20 with keeps. Qed.

Lemma Keeps_saveTexture env ty pre : Keeps sameStorage (saveTexture env ty pre).
Proof.
  unfold saveTexture. pose proof (Keeps_saveFace env ty pre).
  apply ss_bind; [auto with keeps | intros c].
  apply ss_bind; [auto with keeps | intros _].
  apply ss_if; [auto with keeps|].
  apply ss_bind; [auto with keeps | intros [b|]; auto with keeps].
Qed.

Lemma Keeps_prepareToDraw env i : Keeps sameStorage (prepareToDraw env i).
Proof.
  unfold prepareToDraw, mapForDraw, CORRADE_INTERNAL_ASSERT.
  auto 20 with keeps.
Qed.

Lemma Keeps_renderToTexture env T (ft : T -> Z -> T) cam sg flags :
  Keeps sameStorage (renderToTexture env ft cam sg flags).
Proof.
  pose proof (Keeps_prepareToDraw env).
  unfold renderToTexture, renderFace, updateOriginalViewingMatrix,
    switchToFace, restoreTransformation, prepareForDraw, draw.
  auto 30 with keeps.
Qed.

Lemma bind_Done_inv {A B} (c : Op A) (k : A -> Op B) w b w' :
  bind c k w = (Done b, w') ->
  exists a w1, c w = (Done a, w1) /\ k a w1 = (Done b, w').
Proof.
  unfold bind. destruct (c w) as [[a|e] w1]; [eauto | discriminate].
Qed.

Lemma Preserves_bind P {A B} (c : Op A) (k : A -> Op B) :
  Preserves P c -> (forall a, Preserves P (k a)) -> Preserves P (bind c k).
Proof.
  intros Hc Hk w b w' Hw E.
  apply bind_Done_inv in E as (a & w1 & E1 & E2).
  eapply Hk; [|exact E2]. eapply Hc; eauto.
Qed.

Lemma Preserves_forEachWith P {A S} (l : list A) (body : A -> S -> Op S) :
  (forall x s, Preserves P (body x s)) ->
  forall s, Preserves P (forEachWith l s body).
Proof.
  intros Hb. induction l as [|x l IH]; intros s; cbn.
  - intros w a w' Hw E. now inversion E; subst.
  - apply Preserves_bind; [apply Hb | intros s'; apply IH].
Qed.

Lemma Preserves_of_Keeps {A} (op : Op A) :
  Keeps sameStorage op -> Preserves (fun w => storagePolicy (cubeMap w)) op.
Proof.
  intros H w a w' Hw E. specialize (H w). rewrite E in H.
  eapply storagePolicy_sameStorage; eauto.
Qed.

Lemma reset_policy S :
  Preserves (fun w => storagePolicy (cubeMap w)) (reset S).
Proof.
  intros w b w' Hw E.
  destruct (Z.eq_dec S (imageSize_ (cubeMap w))) as [->|Hne].
  - rewrite reset_same in E. now inversion E; subst.
  - destruct (Z_lt_le_dec 0 S) as [Hpos|Hle].
    + destruct (reset_resize w S Hne Hpos) as (w1 & new & E1 & F1 & S1 & _ & _ & L1).
      rewrite E1 in E. inversion E; subst w1 b.
      intros _. rewrite F1. split; intros Hf.
      * apply (L1 Color Hf).
      * apply (L1 Depth Hf).
    + rewrite (reset_illegal w S Hne Hle) in E. discriminate.
Qed.

Lemma loadFace_policy env ty pre ext ptr i acc :
  Preserves (fun w => storagePolicy (cubeMap w)) (loadFace env ty pre ext ptr i acc).
Proof.
  unfold loadFace.
  apply Preserves_bind; [apply Preserves_of_Keeps; auto with keeps | intros _].
  destruct (image2D env _) as [img|]; [|apply Preserves_of_Keeps; auto with keeps].
  apply Preserves_bind; [apply Preserves_of_Keeps; auto with keeps | intros _].
  apply Preserves_bind.
  - destruct (i =? 0).
    + apply Preserves_bind; [apply reset_policy | intros _].
      apply Preserves_of_Keeps; auto with keeps.
    + apply Preserves_of_Keeps; auto with keeps.
  - intros s. apply Preserves_of_Keeps. destruct ty; auto 10 with keeps.
Qed.

Lemma loadTexture_policy env ty pre ext :
  Preserves (fun w => storagePolicy (cubeMap w)) (loadTexture env ty pre ext).
Proof.
  unfold loadTexture, CORRADE_INTERNAL_ASSERT.
  apply Preserves_bind; [apply Preserves_of_Keeps; auto with keeps | intros c].
  apply Preserves_bind; [apply Preserves_of_Keeps; auto with keeps | intros _].
  apply Preserves_bind; [apply Preserves_of_Keeps; auto with keeps | intros _].
  apply Preserves_bind;
    [apply Preserves_of_Keeps; destruct ty; auto with keeps | intros p].
  destruct (get_pointer p) as [ptr|]; [|apply Preserves_of_Keeps; auto with keeps].
  apply Preserves_bind.
  - apply Preserves_forEachWith. intros i acc. apply loadFace_policy.
  - intros _. apply Preserves_of_Keeps. auto 10 with keeps.
Qed.

Lemma CubeMap_policy S flags :
  Preserves (fun _ => True) (CubeMap S flags) /\
  forall w0 w, CubeMap S flags w0 = (Done tt, w) -> storagePolicy (cubeMap w).
Proof.
  split; [intros ? ? ? ? ?; exact I|].
  intros w0 w E. unfold CubeMap in E.
  rewrite bind_setCubeMap, bind_emit in E.
  apply bind_Done_inv in E as (b & w1 & E1 & E2).
  inversion E2; subst w1.
  eapply reset_policy; [|exact E1].
  unfold storagePolicy. cbn. lia.
Qed.

Theorem Reachable_storagePolicy w : Reachable w -> storagePolicy (cubeMap w).
Proof.
  induction 1 as [w0 S flags w E | w S b w' _ IH E | w ty t w' _ IH E
                 | env w ty pre b w' _ IH E | env w ty pre ext w' _ IH E
                 | env T ft cam cam' sg flags w w' _ IH E].
  - eapply CubeMap_policy; eauto.
  - eapply reset_policy; eauto.
  - eapply (Preserves_of_Keeps _ (Keeps_getTexture ty)); eauto.
  - eapply (Preserves_of_Keeps _ (Keeps_saveTexture env ty pre)); eauto.
  - eapply loadTexture_policy; eauto.
  - eapply (Preserves_of_Keeps _ (Keeps_renderToTexture env T ft cam sg flags)); eauto.
Qed.

(** *** The mip level count *)

(** Magnum's shift-and-count loop computes the floor of the base-2
    logarithm. *)
Lemma log2_loop_spec fuel : forall number log,
  0 < number < 2 ^ Z.of_nat fuel ->
  log2_loop fuel number log = log + Z.log2 number.
Proof.
  induction fuel as [|fuel IH]; intros number log [Hpos Hlt].
  - cbn in Hlt. lia.
  - cbn [log2_loop].
    assert (Z.shiftr number 1 = number / 2) as Hs
      by (rewrite Z.shiftr_div_pow2 by lia; reflexivity).
    rewrite Hs.
    destruct (Z.eqb_spec (number / 2) 0) as [Hz|Hnz].
    + assert (number = 1) as -> by (apply Z.div_small_iff in Hz; lia).
      cbn. lia.
    + assert (2 <= number).
      { destruct (Z_lt_le_dec number 2); [|assumption].
        exfalso. apply Hnz. apply Z.div_small. lia. }
      rewrite IH.
      * rewrite <- Hs, Z.log2_shiftr by lia.
        assert (1 <= Z.log2 number) by (apply Z.log2_le_pow2; cbn; lia).
        lia.
      * split; [apply Z.div_str_pos; lia|].
        apply Z.div_lt_upper_bound; [lia|].
        rewrite Nat2Z.inj_succ, Z.pow_succ_r in Hlt by lia. lia.
Qed.

Lemma log2_floor n : 0 < n < 2 ^ 32 -> log2 n = Z.log2 n.
Proof.
  intros H. unfold log2, UnsignedInt.
  rewrite Z.mod_small by lia.
  rewrite (log2_loop_spec 32); [lia|]. exact H.
Qed.

(** C3.  After [reset S], [S > 0], on a [CubeMap] with the colour
    capability, the colour texture has [1] mip level without [BuildMipmap] and
    [floor(log2 S) + 1] with it; the depth texture, when enabled, has [1].
    ([S] is an [int]; [Z.log2] is the floor of the base-2 logarithm.) *)
Theorem reset_mip_levels (w : World) (S : Z) :
  Reachable w -> 0 < S < 2 ^ 31 ->
  hasFlag (flags_ (cubeMap w)) ColorTexture = true ->
  exists b w',
    reset S w = (Done b, w') /\
    levelsOf (cubeMap w') Color
      = Some (if hasFlag (flags_ (cubeMap w)) BuildMipmap
              then Z.log2 S + 1 else 1) /\
    (hasFlag (flags_ (cubeMap w)) DepthTexture = true ->
     levelsOf (cubeMap w') Depth = Some 1).
Proof.
  intros Hreach HS Hcolor.
  assert (log2 S = Z.log2 S) as Hlog by (apply log2_floor; lia).
  destruct (Z.eq_dec S (imageSize_ (cubeMap w))) as [->|Hne].
  - exists false, w. split; [apply reset_same|].
    destruct (Reachable_storagePolicy w Hreach) as [Hc Hd]; [lia|].
    split; [|exact Hd].
    rewrite (Hc Hcolor). unfold mipLevelsFor. now rewrite Hlog.
  - destruct (reset_resize w S Hne) as (w' & new & E & F & Sz & _ & _ & L);
      [lia|].
    exists true, w'. split; [exact E|]. split.
    + destruct (L Color Hcolor) as [Lv _]. rewrite Lv.
      unfold mipLevelsFor. now rewrite F, Sz, Hlog.
    + intros Hd. apply (L Depth Hd).
Qed.

Lemma reset_mip_levels_witness :
  exists b w',
    reset 8 (constructed 4 11) = (Done b, w') /\
    levelsOf (cubeMap w') Color = Some 4 /\
    (true = true -> levelsOf (cubeMap w') Depth = Some 1).
Proof.
  assert (Reachable (constructed 4 11)) as Hreach.
  { apply (Reachable_CubeMap freshContext 4 11). vm_compute. reflexivity. }
  exact (reset_mip_levels (constructed 4 11) 8 Hreach ltac:(lia) eq_refl).
Defined.

(** *** Saving and loading: files and uploads *)

Lemma formatString4_nonempty a b c d : String.eqb (formatString4 a b c d) "" = false.
Proof. unfold formatString4. destruct a; reflexivity. Qed.

Lemma faceFile_save type pre i :
  match type with
  | Color => formatString4 pre (getTextureTypeFilenameString type) (coordString i) "png"
  | Depth => formatString4 pre (getTextureTypeFilenameString type) (coordString i) "hdr"
  end = faceFile type pre (saveExtension type) i.
Proof. destruct type; reflexivity. Qed.

Lemma faceFile_nonempty type pre ext i :
  String.eqb (faceFile type pre ext i) "" = false.
Proof. apply formatString4_nonempty. Qed.

Lemma faceFile_names type pre ext :
  map (faceFile type pre ext) faces = faceFileNames pre type ext.
Proof. destruct type; reflexivity. Qed.

Lemma textures_at_absent ty w :
  textures_ (cubeMap w) !! ty = None ->
  textures_at ty w
    = (Done None,
       {| cubeMap := set_textures (insert ty None) (cubeMap w);
          nextObject := nextObject w; trace := trace w |}).
Proof. intros H. unfold textures_at. rewrite bind_gets. now rewrite H. Qed.

Local Arguments formatString4 : simpl never.
Local Arguments faceFile : simpl never.

Lemma saveFace_spec env type pre i w :
  0 <= i < 6 ->
  exists new,
    trace (snd (saveFace env type pre i w)) = trace w ++ new /\
    ((fst (saveFace env type pre i w) = Done None /\
      exportedFiles new = [faceFile type pre (saveExtension type) i]) \/
     (fst (saveFace env type pre i w) <> Done None /\
      fst (saveFace env type pre i w) <> Done (Some true) /\
      new = [])).
Proof.
  intros Hi. unfold saveFace. rewrite faceFile_save.
  destruct (textures_ (cubeMap w) !! type) as [[t|]|] eqn:Et;
    [ rewrite (bind_Done _ _ _ _ _ (textures_at_present _ _ _ Et))
    | rewrite (bind_Done _ _ _ _ _ (textures_at_present _ _ _ Et))
    | rewrite (bind_Done _ _ _ _ _ (textures_at_absent _ _ Et)) ]; cbn.
  - rewrite (bind_Done _ _ _ _ _ (convertFaceIndex_ok i _ Hi)).
    rewrite faceFile_nonempty. cbn.
    destruct (exportToFile env _); cbn.
    + eexists. split; [rewrite <- app_assoc; reflexivity|]. left. split; reflexivity.
    + exists []. split; [now rewrite app_nil_r|]. right. repeat split; discriminate.
  - exists []. split; [now rewrite app_nil_r|]. right. repeat split; discriminate.
  - exists []. split; [now rewrite app_nil_r|]. right. repeat split; discriminate.
Qed.

Lemma saveLoop_spec env type pre l : Forall (fun i => 0 <= i < 6) l ->
  forall w, exists new l1,
    trace (snd (forEachReturn l (saveFace env type pre) w)) = trace w ++ new /\
    l1 `prefix_of` l /\
    exportedFiles new = map (faceFile type pre (saveExtension type)) l1 /\
    fst (forEachReturn l (saveFace env type pre) w) <> Done (Some true) /\
    (fst (forEachReturn l (saveFace env type pre) w) = Done None -> l1 = l).
Proof.
  induction 1 as [|i l Hi Hl IH]; intros w; cbn [forEachReturn].
  - exists [], []. cbn. rewrite app_nil_r.
    repeat split; try discriminate. apply prefix_nil.
  - destruct (saveFace_spec env type pre i w Hi) as (new & Ht & Hcase).
    unfold bind.
    destruct (saveFace env type pre i w) as [[[b|]|e] w1] eqn:E; cbn in Ht, Hcase.
    + destruct Hcase as [[Hd _]|(_ & Hnt & ->)]; [discriminate|].
      exists [], []. cbn. rewrite Ht. repeat split; try discriminate.
      * apply prefix_nil.
      * intros Hb. apply Hnt. exact Hb.
    + destruct Hcase as [[_ Hx]|(Hn & _)]; [|congruence].
      destruct (IH w1) as (new2 & l1 & Ht2 & Hp & Hx2 & Hnt & Hd).
      exists (new ++ new2), (i :: l1).
      split; [rewrite Ht2, Ht; apply eq_sym, app_assoc|].
      split; [now apply prefix_cons|].
      split; [unfold exportedFiles in *; rewrite omap_app, Hx, Hx2; reflexivity|].
      split; [exact Hnt|]. intros Hdone. f_equal. now apply Hd.
    + exists new, []. cbn. split; [exact Ht|].
      split; [apply prefix_nil|].
      destruct Hcase as [[Hd _]|(_ & _ & ->)]; [discriminate|].
      repeat split; discriminate.
Qed.

Lemma loadFace_unreadable env type pre ext ptr i acc w :
  image2D env (faceFile type pre ext i) = None ->
  loadFace env type pre ext ptr i acc w
    = (Fatal (AssertionFailed "Assertion imageData failed"),
       opened (faceFile type pre ext i) w).
Proof.
  intros E. unfold loadFace. fold (faceFile type pre ext i).
  rewrite bind_emit, E. reflexivity.
Qed.

Lemma loadFace_not_square env type pre ext ptr i acc w d :
  image2D env (faceFile type pre ext i) = Some d ->
  fst (img_size d) <> snd (img_size d) ->
  loadFace env type pre ext ptr i acc w
    = (Fatal (AssertionFailed
                " CubeMap::loadTexture(): each texture image must be a square."),
       opened (faceFile type pre ext i) w).
Proof.
  intros E Hne. unfold loadFace. fold (faceFile type pre ext i).
  rewrite bind_emit, E.
  destruct (Z.eqb_spec (fst (img_size d)) (snd (img_size d))); [contradiction|].
  reflexivity.
Qed.

Lemma loadFace_other_size env type pre ext ptr i acc w d :
  image2D env (faceFile type pre ext i) = Some d ->
  fst (img_size d) = snd (img_size d) ->
  i <> 0 -> fst (img_size d) <> acc ->
  loadFace env type pre ext ptr i acc w
    = (Fatal (AssertionFailed
                " CubeMap::loadTexture(): texture images must have the same size."),
       opened (faceFile type pre ext i) w).
Proof.
  intros E Hsq Hi Hne. unfold loadFace. fold (faceFile type pre ext i).
  rewrite bind_emit, E, Hsq, Z.eqb_refl, bind_assert_true.
  destruct (Z.eqb_spec i 0); [contradiction|].
  destruct (Z.eqb_spec (snd (img_size d)) acc); [congruence|].
  reflexivity.
Qed.

Lemma bind_assoc {A B C} (c : Op A) (k1 : A -> Op B) (k2 : B -> Op C) w :
  bind (bind c k1) k2 w = bind c (fun a => bind (k1 a) k2) w.
Proof. unfold bind. destruct (c w) as [[a|e] w1]; reflexivity. Qed.

Lemma bind_ext {A B} (c : Op A) (k k' : A -> Op B) w :
  (forall a w1, k a w1 = k' a w1) -> bind c k w = bind c k' w.
Proof.
  intros H. unfold bind.
  destruct (c w) as [[a|e] w1]; [apply H | reflexivity].
Qed.

Lemma int_mul_square e w :
  int_mul e e w
    = if INT_MAX <? e * e
      then (Fatal (Undefined "signed integer overflow"), w)
      else (Done (e * e), w).
Proof.
  unfold int_mul, INT_MIN.
  destruct (Z.leb_spec (- 2 ^ 31) (e * e)); [|nia].
  destruct (Z.leb_spec (e * e) INT_MAX), (Z.ltb_spec INT_MAX (e * e));
    try lia; reflexivity.
Qed.

Lemma upload_steps type ptr i edge d w :
  0 <= i < 6 -> img_size d = (edge, edge) ->
  bind
    match type with
    | Color =>
        let* coordinate := convertFaceIndexToCubeMapCoordinate i in
        setSubImage ptr coordinate (OfImageData d)
    | Depth =>
        let* pixels := int_mul (fst (img_size d)) (snd (img_size d)) in
        let arrayLength := size_t pixels in
        let* coordinate := convertFaceIndexToCubeMapCoordinate i in
        setSubImage ptr coordinate
          (OfImageView R32F (img_size d) (depthImage d))
    end (fun _ => ret edge) w
  = thenUpload type ptr i edge d w.
Proof.
  intros Hi Hsz. unfold thenUpload, depthArrayOverflows.
  destruct type; cbn [subImageOf].
  - rewrite bind_assoc, (bind_Done _ _ _ _ _ (convertFaceIndex_ok i _ Hi)).
    reflexivity.
  - rewrite Hsz. cbn [fst snd]. rewrite bind_assoc.
    unfold bind at 1. rewrite int_mul_square.
    destruct (INT_MAX <? edge * edge); [reflexivity|]. cbv zeta.
    rewrite bind_assoc, (bind_Done _ _ _ _ _ (convertFaceIndex_ok i _ Hi)).
    reflexivity.
Qed.

Lemma loadFace_later env type pre ext ptr i acc w d :
  image2D env (faceFile type pre ext i) = Some d ->
  img_size d = (acc, acc) -> 0 < i < 6 ->
  loadFace env type pre ext ptr i acc w
    = thenUpload type ptr i acc d (opened (faceFile type pre ext i) w).
Proof.
  intros E Hsz Hi. unfold loadFace. fold (faceFile type pre ext i).
  rewrite bind_emit, E. cbv zeta.
  replace (fst (img_size d) =? snd (img_size d)) with true
    by (rewrite Hsz; cbn; now rewrite Z.eqb_refl).
  rewrite bind_assert_true.
  destruct (Z.eqb_spec i 0); [lia|].
  replace (fst (img_size d) =? acc) with true
    by (rewrite Hsz; cbn; now rewrite Z.eqb_refl).
  erewrite (bind_Done _ _ _ acc) by reflexivity.
  apply upload_steps; [lia | exact Hsz].
Qed.

Lemma loadFace_first env type pre ext ptr acc w d T :
  image2D env (faceFile type pre ext 0) = Some d ->
  img_size d = (T, T) ->
  loadFace env type pre ext ptr 0 acc w
    = bind (reset T) (fun _ => thenUpload type ptr 0 T d)
        (opened (faceFile type pre ext 0) w).
Proof.
  intros E Hsz. unfold loadFace. fold (faceFile type pre ext 0).
  rewrite bind_emit, E. cbv zeta.
  replace (fst (img_size d) =? snd (img_size d)) with true
    by (rewrite Hsz; cbn; now rewrite Z.eqb_refl).
  rewrite bind_assert_true.
  change (0 =? 0) with true. cbv iota.
  assert (fst (img_size d) = T) as HT by now rewrite Hsz.
  transitivity
    (bind (reset (fst (img_size d)))
       (fun _ => thenUpload type ptr 0 (fst (img_size d)) d)
       (opened (faceFile type pre ext 0) w)); [|now rewrite HT].
  rewrite bind_assoc. apply bind_ext. intros b w1.
  rewrite bind_ret. apply upload_steps; [lia | now rewrite HT].
Qed.

Lemma setSubImage_spec ptr c u w :
  trace (snd (setSubImage ptr c u w)) = trace w ++ [EvSetSubImage ptr c u] /\
  sameStorage w (snd (setSubImage ptr c u w)).
Proof.
  split; [|apply Keeps_setSubImage].
  unfold setSubImage, throughPointer. rewrite bind_emit, bind_gets. cbn [cubeMap].
  destruct (pointee (cubeMap w) ptr); reflexivity.
Qed.

Lemma reset_outcomes S w :
  exists allocs,
    trace (snd (reset S w)) = trace w ++ allocs /\
    forallb isAllocation allocs = true /\
    imageSize_ (cubeMap (snd (reset S w))) = S /\
    flags_ (cubeMap (snd (reset S w))) = flags_ (cubeMap w) /\
    (S <> imageSize_ (cubeMap w) -> 0 < S ->
     forall type, hasFlag (flags_ (cubeMap w)) (capability type) = true ->
       exists id lv fmt, In (EvTextureStorage id lv fmt (S, S)) allocs) /\
    (S <> imageSize_ (cubeMap w) -> S <= 0 ->
     forall b, fst (reset S w) <> Done b).
Proof.
  destruct (Z.eq_dec S (imageSize_ (cubeMap w))) as [->|Hne].
  - rewrite reset_same. exists []. cbn. rewrite app_nil_r.
    do 4 (split; [reflexivity|]). split; intros; contradiction.
  - destruct (Z_lt_le_dec 0 S) as [Hpos|Hle].
    + destruct (reset_resize w S Hne Hpos)
        as (w1 & new & E1 & F1 & S1 & T1 & A1 & L1).
      rewrite E1. exists new. cbn.
      do 4 (split; [assumption|]). split.
      * intros _ _ type Hty. apply (L1 type Hty).
      * intros _ Hle. lia.
    + rewrite (reset_illegal w S Hne Hle). exists []. cbn. rewrite app_nil_r.
      do 4 (split; [reflexivity|]). split.
      * intros _ Hpos. lia.
      * intros _ _ b. discriminate.
Qed.

Lemma forallb_isAllocation_nil : forallb isAllocation [] = true.
Proof. reflexivity. Qed.

Lemma sameStorage_opened name w : sameStorage w (opened name w).
Proof. split; [reflexivity|]. split; [reflexivity|]. intros ty. reflexivity. Qed.

Lemma loadFace_events env type pre ext ptr i acc w :
  0 <= i < 6 ->
  FaceEvents env type pre ext ptr i acc w
    (loadFace env type pre ext ptr i acc w).
Proof.
  intros Hi. unfold FaceEvents.
  set (name := faceFile type pre ext i).
  set (run := loadFace env type pre ext ptr i acc w).
  assert (forall e : Failure,
    run = (Fatal e, opened name w) ->
    (i = 0 -> forall d T, image2D env name = Some d -> img_size d = (T, T) -> False) ->
    FaceEvents env type pre ext ptr i acc w run) as Rejected.
  { intros e Hrun Hno. unfold FaceEvents. fold name. rewrite Hrun.
    exists [], []. cbn.
    split; [reflexivity|]. split; [reflexivity|]. split; [reflexivity|].
    split; [intros _; split; [reflexivity | apply sameStorage_opened]|].
    split; [left; split; [reflexivity | discriminate]|].
    intros H0 d T E Hsz. destruct (Hno H0 d T E Hsz). }
  unfold FaceEvents in Rejected. fold name in Rejected.
  destruct (image2D env name) as [d|] eqn:E.
  2:{ eapply Rejected; [now apply loadFace_unreadable | discriminate]. }
  destruct (img_size d) as [sx sy] eqn:Hsz.
  destruct (Z.eq_dec sx sy) as [<-|Hnsq].
  2:{ eapply Rejected.
      - apply (loadFace_not_square _ _ _ _ _ _ _ _ d E). now rewrite Hsz.
      - intros _ d' T [= <-] Hsz'. congruence. }
  destruct (Z.eq_dec i 0) as [->|Hi0].
  - (* the first face: reset, then the upload *)
    clear Rejected. subst run. rewrite (loadFace_first _ _ _ _ _ _ _ d sx E Hsz).
    fold name.
    destruct (reset_outcomes sx (opened name w))
      as (allocs & Tr & Al & Sz & Fl & Pos & Neg).
    destruct (reset sx (opened name w)) as [[b|e] w1] eqn:Er;
      cbn [fst snd opened cubeMap trace] in *.
    + rewrite (bind_Done _ _ _ _ _ Er). unfold thenUpload.
      destruct (depthArrayOverflows type sx).
      { cbn [fst snd fatal]. exists allocs, []. rewrite app_nil_r.
        split; [rewrite Tr; cbn; rewrite <- app_assoc; reflexivity|].
        split; [exact Al|]. split; [exact Fl|].
        split; [intros H; contradiction|].
        split; [left; split; [reflexivity | discriminate]|].
        intros _ d' T [= <-] Hsz'. assert (T = sx) as -> by congruence.
        split; [exact Sz|]. intros Hne. split; [|reflexivity].
        intros Hpos. apply (Pos Hne Hpos). }
      destruct (setSubImage_spec ptr (PositiveX + 0) (subImageOf type d) w1)
        as [Tu (Fu & Su & _)].
      destruct (setSubImage ptr (PositiveX + 0) (subImageOf type d) w1)
        as [[[]|e] w2] eqn:Eu;
        [rewrite (bind_Done _ _ _ _ _ Eu) | rewrite (bind_Fatal _ _ _ _ _ Eu)];
        cbn [fst snd ret] in *.
      all: exists allocs, [EvSetSubImage ptr (PositiveX + 0) (subImageOf type d)].
      all: split; [rewrite Tu, Tr; cbn; rewrite <- !app_assoc; reflexivity|].
      all: split; [exact Al|]. all: split; [congruence|].
      all: split; [intros H; contradiction|].
      all: split; [right; exists d, sx;
                   split; [reflexivity|]; split; [exact Hsz|];
                   split; [reflexivity|]; split; [intros H; contradiction|];
                   intros a Ha; congruence|].
      all: intros _ d' T [= <-] Hsz'; assert (T = sx) as -> by congruence.
      all: split; [congruence|]; intros Hne; split;
        [intros Hpos; apply (Pos Hne Hpos)
        |intros Hle; destruct (Neg Hne Hle b eq_refl)].
    + rewrite (bind_Fatal _ _ _ _ _ Er). cbn [fst snd].
      exists allocs, []. rewrite app_nil_r.
      split; [rewrite Tr; cbn; rewrite <- app_assoc; reflexivity|].
      split; [exact Al|]. split; [exact Fl|].
      split; [intros H; contradiction|].
      split; [left; split; [reflexivity | discriminate]|].
      intros _ d' T [= <-] Hsz'. assert (T = sx) as -> by congruence.
      split; [exact Sz|]. intros Hne. split; [|reflexivity].
      intros Hpos. apply (Pos Hne Hpos).
  - destruct (Z.eq_dec sx acc) as [->|Hacc].
    + (* a later face of the common size: the upload *)
      pose proof (loadFace_later _ _ _ _ ptr _ _ w d E Hsz ltac:(lia)) as El.
      fold name in El. unfold thenUpload in El.
      destruct (depthArrayOverflows type acc).
      { eapply Rejected; [exact El | intros H0; contradiction]. }
      clear Rejected. subst run. rewrite El.
      destruct (setSubImage_spec ptr (PositiveX + i) (subImageOf type d)
                  (opened name w)) as [Tu Su].
      destruct (setSubImage ptr (PositiveX + i) (subImageOf type d)
                  (opened name w)) as [[[]|e] w2] eqn:Eu;
        [rewrite (bind_Done _ _ _ _ _ Eu) | rewrite (bind_Fatal _ _ _ _ _ Eu)];
        cbn [fst snd ret opened cubeMap trace] in *.
      all: exists [], [EvSetSubImage ptr (PositiveX + i) (subImageOf type d)].
      all: split; [rewrite Tu; cbn; rewrite <- app_assoc; reflexivity|].
      all: assert (sameStorage w w2) as Sw
        by (eapply sameStorage_trans; [apply (sameStorage_opened name) | exact Su]).
      all: split; [reflexivity|]. all: split; [apply Sw|].
      all: split; [intros _; split; [reflexivity | exact Sw]|].
      all: split; [right; exists d, acc;
                   split; [reflexivity|]; split; [exact Hsz|];
                   split; [reflexivity|]; split; [reflexivity|];
                   intros a Ha; congruence|].
      all: intros H0; contradiction.
    + eapply Rejected.
      * apply (loadFace_other_size _ _ _ _ _ _ _ _ d E); rewrite ?Hsz; cbn; auto.
      * intros H0; contradiction.
Qed.

Lemma omap_allocations {B} (f : Event -> option B) allocs :
  (forall e, isAllocation e = true -> f e = None) ->
  forallb isAllocation allocs = true -> omap f allocs = [].
Proof.
  intros Hf. induction allocs as [|e l IH]; cbn; [reflexivity|].
  intros H. apply andb_prop in H as [He Hl]. rewrite (Hf e He). now apply IH.
Qed.

Lemma uploadedFaces_allocations allocs :
  forallb isAllocation allocs = true -> uploadedFaces allocs = [].
Proof. apply omap_allocations. intros []; cbn; congruence. Qed.

Lemma openedFiles_allocations allocs :
  forallb isAllocation allocs = true -> openedFiles allocs = [].
Proof. apply omap_allocations. intros []; cbn; congruence. Qed.

Lemma laterFaces_spec env type pre ext ptr l :
  Forall (fun i => 0 < i < 6) l ->
  forall T w,
  let run := forEachWith l T (loadFace env type pre ext ptr) w in
  exists new opn upl,
    trace (snd run) = trace w ++ new /\
    sameStorage w (snd run) /\
    opn `prefix_of` l /\
    openedFiles new = map (faceFile type pre ext) opn /\
    upl `prefix_of` l /\
    uploadedFaces new = map (Z.add PositiveX) upl /\
    Forall (squareFile env type pre ext T) upl /\
    (forall a, fst run = Done a -> a = T /\ opn = l).
Proof.
  induction 1 as [|i l Hi Hl IH]; intros T w; cbn [forEachWith]; cbn zeta.
  - exists [], [], []. cbn. rewrite app_nil_r.
    split; [reflexivity|]. split; [apply sameStorage_refl|].
    split; [apply prefix_nil|]. split; [reflexivity|].
    split; [apply prefix_nil|]. split; [reflexivity|].
    split; [constructor|]. intros a [= <-]. auto.
  - destruct (loadFace_events env type pre ext ptr i T w ltac:(lia))
      as (allocs & ups & Tr & Al & Fl & Later & Up & _).
    destruct (Later ltac:(lia)) as [-> Ss]. cbn [app] in Tr.
    unfold bind.
    destruct (loadFace env type pre ext ptr i T w) as [[a|e] w1] eqn:E;
      cbn [fst snd] in *.
    + destruct Up as [[_ Hn]|(d & T' & Ed & Hsz & -> & HT & Ha)];
        [destruct (Hn a eq_refl)|].
      specialize (HT ltac:(lia)). subst T'. specialize (Ha a eq_refl). subst a.
      destruct (IH T w1) as (new & opn & upl & Tr2 & Ss2 & Po & Op & Pu & Uu & Fu & Dn).
      cbn zeta in *.
      exists (EvOpenFile (faceFile type pre ext i)
                :: EvSetSubImage ptr (PositiveX + i) (subImageOf type d) :: new),
             (i :: opn), (i :: upl).
      split; [rewrite Tr2, Tr, <- app_assoc; reflexivity|].
      split; [eapply sameStorage_trans; eassumption|].
      split; [now apply prefix_cons|].
      split; [cbn; f_equal; exact Op|].
      split; [now apply prefix_cons|].
      split; [cbn; f_equal; exact Uu|].
      split; [constructor; [exists d; auto | exact Fu]|].
      intros a Ha. destruct (Dn a Ha) as [-> ->]. auto.
    + exists (EvOpenFile (faceFile type pre ext i) :: ups), [i],
             (match ups with [] => [] | _ => [i] end).
      split; [exact Tr|]. split; [exact Ss|].
      split; [apply prefix_cons, prefix_nil|].
      split.
      { destruct Up as [[-> _]|(d & T' & _ & _ & -> & _)]; reflexivity. }
      split.
      { destruct ups; [apply prefix_nil | apply prefix_cons, prefix_nil]. }
      split.
      { destruct Up as [[-> _]|(d & T' & _ & _ & -> & _)]; reflexivity. }
      split.
      { destruct Up as [[-> _]|(d & T' & Ed & Hsz & -> & HT & _)];
          [constructor|].
        specialize (HT ltac:(lia)). subst T'.
        constructor; [exists d; auto | constructor]. }
      intros a Ha. discriminate.
Qed.

Lemma faces_unfold : faces = 0 :: [1; 2; 3; 4; 5].
Proof. reflexivity. Qed.

Lemma later_faces_range : Forall (fun i => 0 < i < 6) [1; 2; 3; 4; 5].
Proof. repeat constructor. Qed.

Lemma generateMipmap_spec ptr w :
  trace (snd (generateMipmap ptr w)) = trace w ++ [EvGenerateMipmap ptr] /\
  sameStorage w (snd (generateMipmap ptr w)).
Proof.
  split; [|apply Keeps_generateMipmap].
  unfold generateMipmap, throughPointer. rewrite bind_emit, bind_gets. cbn [cubeMap].
  destruct (pointee (cubeMap w) ptr); reflexivity.
Qed.

Lemma forEachWith_cons {A S} (x : A) (l : list A) (s : S)
    (body : A -> S -> Op S) :
  forEachWith (x :: l) s body
    = bind (body x s) (fun s' => forEachWith l s' body).
Proof. reflexivity. Qed.

(** The face loop of [loadTexture]: the files it opens. *)
Lemma faceLoop_opened env type pre ext ptr w :
  let run := forEachWith faces 0 (loadFace env type pre ext ptr) w in
  exists new opn,
    trace (snd run) = trace w ++ new /\
    opn `prefix_of` faces /\
    openedFiles new = map (faceFile type pre ext) opn /\
    (forall a, fst run = Done a -> opn = faces).
Proof.
  rewrite faces_unfold, forEachWith_cons. cbn zeta.
  destruct (loadFace_events env type pre ext ptr 0 0 w ltac:(lia))
    as (allocs & ups & Tr & Al & _ & _ & Up & _).
  assert (openedFiles (EvOpenFile (faceFile type pre ext 0) :: allocs ++ ups)
          = [faceFile type pre ext 0]) as Ho.
  { pose proof (openedFiles_allocations allocs Al) as Ha.
    cbn. f_equal. unfold openedFiles in *. rewrite omap_app, Ha.
    destruct Up as [[-> _]|(d & T & _ & _ & -> & _)]; reflexivity. }
  unfold bind.
  destruct (loadFace env type pre ext ptr 0 0 w) as [[a|e] w1] eqn:E;
    cbn [fst snd] in *.
  - destruct (laterFaces_spec env type pre ext ptr _ later_faces_range a w1)
      as (new & opn & upl & Tr2 & _ & Po & Op & _ & _ & _ & Dn).
    cbn zeta in *.
    exists ((EvOpenFile (faceFile type pre ext 0) :: allocs ++ ups) ++ new),
           (0 :: opn).
    split; [rewrite Tr2, Tr, <- app_assoc; reflexivity|].
    split; [now apply prefix_cons|].
    split.
    { unfold openedFiles in *. rewrite omap_app, Ho, Op. reflexivity. }
    intros b Hb. destruct (Dn b Hb) as [_ ->]. reflexivity.
  - exists (EvOpenFile (faceFile type pre ext 0) :: allocs ++ ups), [0].
    split; [exact Tr|]. split; [apply prefix_cons, prefix_nil|].
    split; [exact Ho|]. intros a Ha. discriminate.
Qed.

Lemma newEvents_app w w' new : trace w' = trace w ++ new -> newEvents w w' = new.
Proof. intros H. unfold newEvents. rewrite H. apply drop_app_length. Qed.

Lemma faces_range : Forall (fun i => 0 <= i < 6) faces.
Proof. rewrite faces_unfold. repeat (constructor; [lia|]). constructor. Qed.

Lemma bind_sanityCheck {B} flags type fn (k : unit -> Op B) w :
  bind (textureTypeSanityCheck flags type fn) k w
    = if hasFlag flags (capability type) then k tt w
      else (Fatal (AssertionFailed (notCreatedWith fn type)), w).
Proof.
  unfold bind. rewrite textureTypeSanityCheck_spec.
  destruct (hasFlag flags (capability type)); reflexivity.
Qed.

Lemma saveTexture_exported env type pre w :
  let run := saveTexture env type pre w in
  exists new l1,
    trace (snd run) = trace w ++ new /\
    l1 `prefix_of` faces /\
    exportedFiles new = map (faceFile type pre (saveExtension type)) l1 /\
    (fst run = Done true -> l1 = faces).
Proof.
  cbn zeta. unfold saveTexture. rewrite bind_gets.
  rewrite bind_sanityCheck.
  assert (forall (r : Outcome Failure bool), r <> Done true ->
    exists new l1,
      trace w = trace w ++ new /\ l1 `prefix_of` faces /\
      exportedFiles new = map (faceFile type pre (saveExtension type)) l1 /\
      (r = Done true -> l1 = faces)) as Stop.
  { intros r Hr. exists [], []. rewrite app_nil_r.
    split; [reflexivity|]. split; [apply prefix_nil|]. split; [reflexivity|].
    intros H. contradiction. }
  destruct (hasFlag _ _); [|apply Stop; discriminate].
  destruct (converterPlugin env); cbn [negb]; [|apply Stop; discriminate].
  destruct (saveLoop_spec env type pre faces faces_range w)
    as (new & l1 & Tr & Pl & Ex & Nt & Dn).
  destruct (forEachReturn faces (saveFace env type pre) w) as [[[b|]|e] w1] eqn:El;
    [rewrite (bind_Done _ _ _ _ _ El) | rewrite (bind_Done _ _ _ _ _ El)
    | rewrite (bind_Fatal _ _ _ _ _ El)];
    cbn [fst snd ret] in *; exists new, l1;
    (split; [exact Tr|]); (split; [exact Pl|]); (split; [exact Ex|]).
  - intros [= ->]. destruct (Nt eq_refl).
  - intros _. now apply Dn.
  - discriminate.
Qed.

Lemma loadTexture_opened env type pre ext w :
  let run := loadTexture env type pre ext w in
  exists new opn,
    trace (snd run) = trace w ++ new /\
    opn `prefix_of` faces /\
    openedFiles new = map (faceFile type pre ext) opn /\
    (fst run = Done tt -> opn = faces).
Proof.
  cbn zeta. unfold loadTexture, CORRADE_INTERNAL_ASSERT. rewrite bind_gets.
  rewrite bind_sanityCheck.
  assert (forall (r : Outcome Failure unit) w1, trace w1 = trace w -> r <> Done tt ->
    exists new opn,
      trace w1 = trace w ++ new /\ opn `prefix_of` faces /\
      openedFiles new = map (faceFile type pre ext) opn /\
      (r = Done tt -> opn = faces)) as Stop.
  { intros r w1 Hw Hr. exists [], []. rewrite app_nil_r.
    split; [exact Hw|]. split; [apply prefix_nil|]. split; [reflexivity|].
    intros H. contradiction. }
  destruct (hasFlag _ _); [|apply Stop; [reflexivity | discriminate]].
  destruct (importerPlugin env); [|apply Stop; [reflexivity | discriminate]].
  rewrite bind_assert_true.
  assert (exists p w1,
    match type with Color => textures_at Color | Depth => textures_at Depth end w
      = (Done p, w1) /\ trace w1 = trace w) as (p & w1 & Ep & Tp).
  { assert (textures_at type w
            = match type with
              | Color => textures_at Color
              | Depth => textures_at Depth
              end w)
      as <- by (destruct type; reflexivity).
    destruct (textures_ (cubeMap w) !! type) as [p|] eqn:Et.
    - exists p, w. split; [now apply textures_at_present | reflexivity].
    - eexists _, _. split; [now apply textures_at_absent | reflexivity]. }
  rewrite (bind_Done _ _ _ _ _ Ep).
  destruct (get_pointer p) as [ptr|]; [|apply Stop; [exact Tp | discriminate]].
  destruct (faceLoop_opened env type pre ext ptr w1) as (new & opn & Tr & Po & Op & Dn).
  cbn zeta in *.
  destruct (forEachWith faces 0 (loadFace env type pre ext ptr) w1)
    as [[a|e] w2] eqn:El;
    [rewrite (bind_Done _ _ _ _ _ El) | rewrite (bind_Fatal _ _ _ _ _ El)];
    cbn [fst snd] in *.
  - rewrite bind_gets.
    specialize (Dn a eq_refl). subst opn.
    destruct (_ && _).
    + destruct (generateMipmap_spec ptr w2) as [Tg _].
      exists (new ++ [EvGenerateMipmap ptr]), faces.
      split; [rewrite Tg, Tr, Tp; apply eq_sym, app_assoc|].
      split; [reflexivity|].
      split; [unfold openedFiles in *; rewrite omap_app, Op; cbn; apply app_nil_r|].
      reflexivity.
    + exists new, faces. cbn. split; [congruence|]. auto.
  - exists new, opn. split; [congruence|]. split; [exact Po|].
    split; [exact Op|]. discriminate.
Qed.

Lemma prefix_map {A B} (f : A -> B) (l1 l : list A) :
  l1 `prefix_of` l -> map f l1 `prefix_of` map f l.
Proof. intros [k ->]. exists (map f k). apply map_app. Qed.

(** C4.  A successful [saveTexture] writes exactly the six files
    [{prefix}.{typeTag}.{faceTag}.{ext}], with [typeTag] "rgba" and [ext]
    "png" for colour, "depth" and "hdr" for depth, the faces in the order +X,
    -X, +Y, -Y, +Z, -Z; a [loadTexture] that returns has opened the six files
    named the same way with the caller's extension, in the same order.  A
    run that stops early has touched a prefix of that list. *)
Theorem save_load_file_names (env : Env) (w : World) (type : TextureType)
    (filePrefix ext : string) :
  (forall w', saveTexture env type filePrefix w = (Done true, w') ->
     exportedFiles (newEvents w w')
       = faceFileNames filePrefix type (saveExtension type)) /\
  (forall w', loadTexture env type filePrefix ext w = (Done tt, w') ->
     openedFiles (newEvents w w') = faceFileNames filePrefix type ext) /\
  exportedFiles (newEvents w (snd (saveTexture env type filePrefix w)))
    `prefix_of` faceFileNames filePrefix type (saveExtension type) /\
  openedFiles (newEvents w (snd (loadTexture env type filePrefix ext w)))
    `prefix_of` faceFileNames filePrefix type ext /\
  length (faceFileNames filePrefix type ext) = 6%nat.
Proof.
  destruct (saveTexture_exported env type filePrefix w)
    as (newS & lS & TrS & PS & ES & DS).
  destruct (loadTexture_opened env type filePrefix ext w)
    as (newL & lL & TrL & PL & EL & DL).
  cbn zeta in *.
  rewrite (newEvents_app _ _ _ TrS), (newEvents_app _ _ _ TrL), ES, EL.
  rewrite <- !faceFile_names.
  split; [|split; [|split; [|split]]].
  - intros w' E. rewrite E in *. cbn [fst snd] in *.
    rewrite (newEvents_app _ _ _ TrS), ES, (DS eq_refl). reflexivity.
  - intros w' E. rewrite E in *. cbn [fst snd] in *.
    rewrite (newEvents_app _ _ _ TrL), EL, (DL eq_refl). reflexivity.
  - now apply prefix_map.
  - now apply prefix_map.
  - reflexivity.
Qed.

Lemma save_load_file_names_witness :
  exportedFiles
    (newEvents (constructed 4 11)
       (snd (saveTexture (allFiles 4) Depth "test" (constructed 4 11))))
    = ["test.depth.+X.hdr"; "test.depth.-X.hdr"; "test.depth.+Y.hdr";
       "test.depth.-Y.hdr"; "test.depth.+Z.hdr"; "test.depth.-Z.hdr"] /\
  openedFiles
    (newEvents (constructed 4 11)
       (snd (loadTexture (allFiles 4) Color "test" "jpg" (constructed 4 11))))
    = ["test.rgba.+X.jpg"; "test.rgba.-X.jpg"; "test.rgba.+Y.jpg";
       "test.rgba.-Y.jpg"; "test.rgba.+Z.jpg"; "test.rgba.-Z.jpg"].
Proof.
  split.
  - apply (proj1 (save_load_file_names (allFiles 4) (constructed 4 11) Depth
                    "test" "jpg")).
    vm_compute. reflexivity.
  - apply (proj1 (proj2 (save_load_file_names (allFiles 4) (constructed 4 11)
                           Color "test" "jpg"))).
    vm_compute. reflexivity.
Defined.

Lemma loadTexture_prelims env type pre ext w t :
  hasFlag (flags_ (cubeMap w)) (capability type) = true ->
  importerPlugin env = true ->
  textures_ (cubeMap w) !! type = Some (Some t) ->
  loadTexture env type pre ext w
    = bind (forEachWith faces 0 (loadFace env type pre ext (tex_id t)))
        (fun _ =>
           let* c := gets cubeMap in
           if hasFlag (flags_ c) BuildMipmap && hasFlag (flags_ c) ColorTexture
           then generateMipmap (tex_id t) else ret tt) w.
Proof.
  intros Hf Hi Ht. unfold loadTexture, CORRADE_INTERNAL_ASSERT.
  rewrite bind_gets, bind_sanityCheck, Hf, Hi, bind_assert_true.
  assert (match type with Color => textures_at Color | Depth => textures_at Depth end w
          = (Done (Some t), w)) as Ep.
  { destruct type; now apply textures_at_present. }
  rewrite (bind_Done _ _ _ _ _ Ep). reflexivity.
Qed.

(** A face that is not square, or a later face of another size than the
    first, is turned away at its assertion, with nothing uploaded: the state
    is the one after opening the file. *)
Lemma loadFace_rejects env type pre ext ptr i acc w d :
  image2D env (faceFile type pre ext i) = Some d ->
  fst (img_size d) <> snd (img_size d) \/
  (i <> 0 /\ fst (img_size d) <> acc) ->
  exists msg,
    loadFace env type pre ext ptr i acc w
      = (Fatal (AssertionFailed msg), opened (faceFile type pre ext i) w).
Proof.
  intros E Hbad.
  destruct (Z.eq_dec (fst (img_size d)) (snd (img_size d))) as [Hsq|Hnsq].
  - destruct Hbad as [Hn|[Hi Hacc]]; [contradiction|].
    eexists. now apply (loadFace_other_size _ _ _ _ _ _ _ _ d).
  - eexists. now apply (loadFace_not_square _ _ _ _ _ _ _ _ d).
Qed.

(** *** Rendering *)

Lemma cameraCalls_app l1 l2 : cameraCalls (l1 ++ l2) = cameraCalls l1 ++ cameraCalls l2.
Proof. apply List.filter_app. Qed.

Lemma levelsOf_texture c type n :
  levelsOf c type = Some n -> exists t, textures_ c !! type = Some (Some t).
Proof.
  unfold levelsOf. destruct (textures_ c !! type) as [[t|]|]; [eauto | discriminate..].
Qed.

Lemma bind_bind_ret {A B C} (a : A) (k1 : A -> Op B) (k2 : B -> Op C)
    (w : World) :
  bind (bind (ret a) k1) k2 w = bind (k1 a) k2 w.
Proof. reflexivity. Qed.

Lemma generateMipmap_live ptr ty w :
  pointee (cubeMap w) ptr = Some ty ->
  exists w', generateMipmap ptr w = (Done tt, w') /\
             trace w' = trace w ++ [EvGenerateMipmap ptr].
Proof.
  intros H. unfold generateMipmap, throughPointer.
  rewrite bind_emit, bind_gets. cbn [cubeMap]. rewrite H.
  eexists. split; reflexivity.
Qed.

Lemma pointee_color c t :
  textures_ c !! Color = Some (Some t) -> pointee c (tex_id t) = Some Color.
Proof. intros H. unfold pointee. cbn. now rewrite H, Nat.eqb_refl. Qed.

Section Rendering.
Variable env : Env.
Context {Transform : Type}.
Variable faceTransformation : Transform -> Z -> Transform.
Variable sceneGraph : SceneGraph.
Variable flags : Z.
Hypothesis complete : forall fb, checkStatus env fb = true.

Lemma prepareToDraw_ok i w :
  0 <= i < 6 ->
  (hasFlag (flags_ (cubeMap w)) DepthTexture = true ->
   exists t, textures_ (cubeMap w) !! Depth = Some (Some t)) ->
  exists w',
    prepareToDraw env i w = (Done tt, w') /\
    trace w' = trace w ++ [EvClearDepth; EvClearColor 0] /\
    textures_ (cubeMap w') = textures_ (cubeMap w) /\
    flags_ (cubeMap w') = flags_ (cubeMap w) /\
    imageSize_ (cubeMap w') = imageSize_ (cubeMap w).
Proof.
  intros Hi Hd. unfold prepareToDraw, mapForDraw, CORRADE_INTERNAL_ASSERT.
  rewrite bind_setCubeMap, bind_gets. cbn [cubeMap set_frameBuffer flags_].
  destruct (hasFlag (flags_ (cubeMap w)) DepthTexture).
  - destruct (Hd eq_refl) as [t Ht].
    rewrite bind_assoc.
    rewrite (bind_Done _ _ _ _ _ (convertFaceIndex_ok i _ Hi)).
    cbv beta. rewrite bind_assoc.
    erewrite (bind_Done (textures_at Depth)); [|apply textures_at_present; exact Ht].
    cbn [deref]. rewrite bind_assoc, bind_ret, bind_setCubeMap.
    rewrite bind_emit, bind_emit, bind_gets, complete.
    eexists. split; [reflexivity|]. cbn. rewrite <- app_assoc. auto.
  - rewrite bind_ret, bind_emit, bind_emit, bind_gets, complete.
    eexists. split; [reflexivity|]. cbn. rewrite <- app_assoc. auto.
Qed.

Lemma drawGroups_ok (camera : CubeMapCamera Transform) groups w :
  exists w' new,
    forEach groups (fun it =>
        let* prepared := prepareForDraw it camera in
        if prepared || true then draw it flags camera else ret tt) w
      = (Done tt, w') /\
    cubeMap w' = cubeMap w /\
    trace w' = trace w ++ new /\ cameraCalls new = [].
Proof.
  revert w. induction groups as [|g groups IH]; intros w; cbn [forEach].
  - exists w, []. rewrite app_nil_r. auto.
  - unfold prepareForDraw at 1, draw at 1.
    rewrite bind_assoc, bind_assoc, bind_emit, bind_ret. cbn [orb].
    rewrite bind_emit.
    edestruct IH as (w' & new & E & C & T & K). rewrite E.
    exists w', ([EvPrepareForDraw g; EvDraw g flags] ++ new).
    split; [reflexivity|]. split; [exact C|].
    split; [rewrite T; cbn; rewrite <- !app_assoc; reflexivity|].
    rewrite cameraCalls_app, K. reflexivity.
Qed.

Lemma renderFaces_ok l : Forall (fun i => 0 <= i < 6) l ->
  forall (camera : CubeMapCamera Transform) w,
  texturesPresent w ->
  exists camera' w' new,
    forEachWith l camera (renderFace env faceTransformation sceneGraph flags) w
      = (Done camera', w') /\
    cam_originalViewingMatrix camera' = cam_originalViewingMatrix camera /\
    textures_ (cubeMap w') = textures_ (cubeMap w) /\
    flags_ (cubeMap w') = flags_ (cubeMap w) /\
    trace w' = trace w ++ new /\
    cameraCalls new = map EvSwitchToFace l.
Proof.
  induction 1 as [|i l Hi Hl IH]; intros camera w Hp.
  - exists camera, w, []. cbn. rewrite app_nil_r. auto 6.
  - rewrite forEachWith_cons. unfold renderFace at 1, switchToFace.
    rewrite !bind_assoc, bind_emit, bind_ret.
    edestruct (prepareToDraw_ok i) as (w1 & E1 & T1 & X1 & F1 & _);
      [exact Hi | | rewrite bind_assoc, (bind_Done _ _ _ _ _ E1)].
    { intros Hd. apply (Hp Depth Hd). }
    pose (cam1 := {| cam_sceneGraph := cam_sceneGraph camera;
                     cam_viewport := cam_viewport camera;
                     cam_transformation :=
                       faceTransformation (cam_originalViewingMatrix camera) i;
                     cam_originalViewingMatrix :=
                       cam_originalViewingMatrix camera |}).
    destruct (drawGroups_ok cam1 (getDrawableGroups sceneGraph) w1)
      as (w2 & new2 & E2 & C2 & T2 & K2).
    fold cam1. rewrite bind_assoc, (bind_Done _ _ _ _ _ E2), bind_ret.
    destruct (IH cam1 w2) as (cam' & w3 & new3 & E3 & O3 & X3 & F3 & T3 & K3).
    { intros ty Hty. rewrite C2, X1. rewrite C2, F1 in Hty. apply (Hp ty Hty). }
    rewrite E3. cbn in *.
    exists cam', w3,
      ([EvSwitchToFace i] ++ [EvClearDepth; EvClearColor 0] ++ new2 ++ new3).
    split; [reflexivity|]. split; [exact O3|].
    split; [congruence|]. split; [congruence|].
    split; [rewrite T3, T2, T1; cbn; rewrite <- !app_assoc; reflexivity|].
    rewrite !cameraCalls_app, K2, K3. reflexivity.
Qed.
End Rendering.

Lemma Reachable_texturesPresent w :
  Reachable w -> 0 < imageSize_ (cubeMap w) -> texturesPresent w.
Proof.
  intros Hr Hpos.
  destruct (Reachable_storagePolicy w Hr Hpos) as [Hc Hd].
  intros [] Hty; eapply levelsOf_texture; eauto.
Qed.

(** C9.  A [renderToTexture] call that meets its preconditions (camera
    attached to the scene graph, viewport equal to the image size, on an
    object that has a size, every framebuffer found complete) returns; the
    camera's local transformation afterwards is the one at entry, which is
    also the base orientation captured; and the camera was asked to capture
    it exactly once, before being switched to the six faces in order, and to
    restore it once, after them. *)
Theorem renderToTexture_restores_camera (env : Env) {Transform : Type}
    (faceTransformation : Transform -> Z -> Transform)
    (camera : CubeMapCamera Transform) (sceneGraph : SceneGraph) (flags : Z)
    (w : World) :
  Reachable w -> 0 < imageSize_ (cubeMap w) ->
  isInSceneGraph camera sceneGraph = true ->
  cam_viewport camera = (imageSize_ (cubeMap w), imageSize_ (cubeMap w)) ->
  (forall fb, checkStatus env fb = true) ->
  exists camera' w',
    renderToTexture env faceTransformation camera sceneGraph flags w
      = (Done camera', w') /\
    cam_transformation camera' = cam_transformation camera /\
    cam_originalViewingMatrix camera' = cam_transformation camera /\
    cameraCalls (newEvents w w')
      = EvUpdateOriginalViewingMatrix :: map EvSwitchToFace faces
        ++ [EvRestoreTransformation].
Proof.
  intros Hr Hpos Hin Hvp Hok.
  pose proof (Reachable_texturesPresent w Hr Hpos) as Hp.
  unfold renderToTexture, updateOriginalViewingMatrix, restoreTransformation.
  rewrite Hin, bind_assert_true, bind_gets, Hvp. cbn [fst snd].
  rewrite Z.eqb_refl. cbn [andb]. rewrite bind_assert_true.
  rewrite bind_assoc, bind_emit, bind_ret, bind_emit.
  set (cam0 := {| cam_sceneGraph := cam_sceneGraph camera;
                  cam_viewport := (imageSize_ (cubeMap w), imageSize_ (cubeMap w));
                  cam_transformation := cam_transformation camera;
                  cam_originalViewingMatrix := cam_transformation camera |}).
  set (w0 := {| cubeMap := cubeMap w; nextObject := nextObject w;
                trace := (trace w ++ [EvUpdateOriginalViewingMatrix]) ++ [EvBind] |}).
  destruct (renderFaces_ok env faceTransformation sceneGraph flags Hok
              faces faces_range cam0 w0 Hp)
    as (cam1 & w1 & new & E1 & O1 & X1 & F1 & T1 & K1).
  rewrite (bind_Done _ _ _ _ _ E1), bind_assoc, bind_emit, bind_ret, bind_gets.
  cbn [cubeMap].
  assert (forall w2 : World,
    trace w2 = trace w ++ [EvUpdateOriginalViewingMatrix; EvBind] ++ new
               ++ [EvRestoreTransformation] ->
    cameraCalls (newEvents w w2)
      = EvUpdateOriginalViewingMatrix :: map EvSwitchToFace faces
        ++ [EvRestoreTransformation]) as Calls.
  { intros w2 T2. rewrite (newEvents_app _ _ _ T2).
    rewrite !cameraCalls_app, K1. reflexivity. }
  destruct (hasFlag (flags_ (cubeMap w1)) BuildMipmap
            && hasFlag (flags_ (cubeMap w1)) ColorTexture) eqn:Hmip.
  - apply andb_prop in Hmip as [_ Hcol]. rewrite F1 in Hcol.
    destruct (Hp Color Hcol) as [t Ht0].
    assert (textures_ (cubeMap w1) !! Color = Some (Some t)) as Ht
      by (rewrite X1; exact Ht0).
    rewrite bind_assoc.
    erewrite (bind_Done (textures_at Color)); [|apply textures_at_present; exact Ht].
    cbn [deref]. rewrite bind_bind_ret.
    edestruct (generateMipmap_live (tex_id t) Color) as (w2 & E2 & T2);
      [|rewrite (bind_Done _ _ _ _ _ E2)].
    { apply pointee_color. exact Ht. }
    eexists _, _. split; [reflexivity|].
    cbn [cam_transformation cam_originalViewingMatrix].
    split; [exact O1|]. split; [exact O1|].
    rewrite (newEvents_app _ _
               ([EvUpdateOriginalViewingMatrix; EvBind] ++ new
                ++ [EvRestoreTransformation] ++ [EvGenerateMipmap (tex_id t)])).
    + rewrite !cameraCalls_app, K1. reflexivity.
    + rewrite T2. cbn [trace]. rewrite T1. subst w0. cbn [trace].
      rewrite <- !app_assoc. reflexivity.
  - rewrite bind_ret. eexists _, _. split; [reflexivity|].
    cbn [cam_transformation cam_originalViewingMatrix].
    split; [exact O1|]. split; [exact O1|].
    apply Calls. cbn [trace]. rewrite T1. subst w0. cbn [trace].
    rewrite <- !app_assoc. reflexivity.
Qed.


Lemma renderToTexture_restores_camera_witness :
  exists camera' w',
    renderToTexture (allFiles 2) sampleFaceTransformation (sampleCamera 2)
                    sampleScene 0 (constructed 2 11)
      = (Done camera', w') /\
    cam_transformation camera' = 5 /\
    cam_originalViewingMatrix camera' = 5 /\
    cameraCalls (newEvents (constructed 2 11) w')
      = EvUpdateOriginalViewingMatrix :: map EvSwitchToFace faces
        ++ [EvRestoreTransformation].
Proof.
  assert (Reachable (constructed 2 11)) as Hreach.
  { apply (Reachable_CubeMap freshContext 2 11). vm_compute. reflexivity. }
  exact (renderToTexture_restores_camera (allFiles 2) sampleFaceTransformation
           (sampleCamera 2) sampleScene 0 (constructed 2 11)
           Hreach ltac:(vm_compute; reflexivity) eq_refl eq_refl
           (fun fb => eq_refl)).
Defined.

(** *** Where the code departs from the specification *)

(** Without the converter plugin [saveTexture] returns [false] and leaves
    everything as it was. *)
Lemma saveTexture_converter_missing env type filePrefix w :
  hasFlag (flags_ (cubeMap w)) (capability type) = true ->
  converterPlugin env = false ->
  saveTexture env type filePrefix w = (Done false, w).
Proof.
  intros Hf Hc. unfold saveTexture.
  rewrite bind_gets, bind_sanityCheck, Hf, Hc. reflexivity.
Qed.

(** Without the importer plugin [loadTexture] stops at
    [CORRADE_INTERNAL_ASSERT(importer)]. *)
Lemma loadTexture_importer_missing env type filePrefix ext w :
  hasFlag (flags_ (cubeMap w)) (capability type) = true ->
  importerPlugin env = false ->
  loadTexture env type filePrefix ext w
    = (Fatal (AssertionFailed "Assertion importer failed"), w).
Proof.
  intros Hf Hi. unfold loadTexture, CORRADE_INTERNAL_ASSERT.
  rewrite bind_gets, bind_sanityCheck, Hf, Hi. reflexivity.
Qed.

(** C5 (the code departs from the specification).  Specified: a plugin
    that cannot be instantiated is a recoverable error for both
    [saveTexture] and [loadTexture].  On a colour cube map of size 4, with
    no plugin available, [saveTexture] does return [false], but
    [loadTexture] stops at its internal assertion on the importer: the
    process is aborted, no failure is reported to the caller. *)
Theorem loadTexture_without_importer_aborts :
  loadTexture (noPlugins 4) Color "cube" "png" (constructed 4 1)
    = (Fatal (AssertionFailed "Assertion importer failed"), constructed 4 1) /\
  saveTexture (noPlugins 4) Color "cube" (constructed 4 1)
    = (Done false, constructed 4 1).
Proof. split; vm_compute; reflexivity. Qed.

(** The part of C5 on exports holds: when the export of a face fails,
    [saveTexture] returns [false], and the faces exported before stay. *)
Example saveTexture_export_failure :
  let w := constructed 4 1 in
  let run := saveTexture (exportFailsFor "cube.rgba.+Y.png" 4) Color "cube" w in
  fst run = Done false /\
  exportedFiles (newEvents w (snd run)) = ["cube.rgba.+X.png"; "cube.rgba.-X.png"].
Proof. vm_compute. auto. Qed.

(** C7 (the code departs from the specification).  Specified: after the
    six faces are loaded, with [BuildMipmap] and [ColorTexture] enabled,
    the mip chain of the colour texture is regenerated, whatever type was
    loaded.  On a cube map of size 2 with colour (texture 0), depth
    (texture 1) and mipmaps, loading the depth faces regenerates the mip
    chain of texture 1, the depth texture, through the pointer taken for
    the loaded type; the colour texture's is not regenerated. *)
Theorem loadTexture_depth_generates_depth_mipmap :
  let w := constructed 2 11 in
  let run := loadTexture (allFiles 2) Depth "cube" "hdr" w in
  fst run = Done tt /\
  tex_id <$> textureOf (cubeMap w) Color = Some 0%nat /\
  tex_id <$> textureOf (cubeMap w) Depth = Some 1%nat /\
  mipmapsGenerated (newEvents w (snd run)) = [1%nat] /\
  tex_mipmapGenerations <$> textureOf (cubeMap (snd run)) Color = Some 0%nat /\
  tex_mipmapGenerations <$> textureOf (cubeMap (snd run)) Depth = Some 1%nat.
Proof. vm_compute. repeat split. Qed.

(** [renderToTexture] on the same object, and [loadTexture] of the colour
    faces, do regenerate the colour texture's mip chain. *)
Example renderToTexture_generates_color_mipmap :
  let w := constructed 2 11 in
  let run := renderToTexture (allFiles 2) sampleFaceTransformation
               (sampleCamera 2) sampleScene 0 w in
  mipmapsGenerated (newEvents w (snd run)) = [0%nat] /\
  tex_mipmapGenerations <$> textureOf (cubeMap (snd run)) Color = Some 1%nat.
Proof. vm_compute. auto. Qed.

Example loadTexture_color_generates_color_mipmap :
  let w := constructed 2 11 in
  let run := loadTexture (allFiles 2) Color "cube" "png" w in
  fst run = Done tt /\ mipmapsGenerated (newEvents w (snd run)) = [0%nat].
Proof. vm_compute. auto. Qed.

(** *** The pointer taken before the face loop *)

Lemma keepsOwned_refl w : keepsOwned w w.
Proof. intros H. exact H. Qed.

Lemma keepsOwned_trans w1 w2 w3 :
  keepsOwned w1 w2 -> keepsOwned w2 w3 -> keepsOwned w1 w3.
Proof. unfold keepsOwned. auto. Qed.

Lemma ko_ret {A} (a : A) : Keeps keepsOwned (ret a).
Proof. apply Keeps_ret, keepsOwned_refl. Qed.
Lemma ko_fatal {A} e : Keeps keepsOwned (@fatal World Failure A e).
Proof. apply Keeps_fatal, keepsOwned_refl. Qed.
Lemma ko_gets {A} (f : World -> A) : Keeps keepsOwned (gets f).
Proof. apply Keeps_gets, keepsOwned_refl. Qed.
Lemma ko_assert b msg : Keeps keepsOwned (CORRADE_ASSERT b msg).
Proof. apply Keeps_assert, keepsOwned_refl. Qed.
Lemma ko_bind {A B} (c : Op A) (k : A -> Op B) :
  Keeps keepsOwned c -> (forall a, Keeps keepsOwned (k a)) ->
  Keeps keepsOwned (bind c k).
Proof. apply Keeps_bind, keepsOwned_trans. Qed.
Lemma ko_if {A} (b : bool) (c1 c2 : Op A) :
  Keeps keepsOwned c1 -> Keeps keepsOwned c2 ->
  Keeps keepsOwned (if b then c1 else c2).
Proof. destruct b; auto. Qed.
Lemma ko_forEach {A} (l : list A) (body : A -> Op unit) :
  (forall x, Keeps keepsOwned (body x)) -> Keeps keepsOwned (forEach l body).
Proof. apply Keeps_forEach; [apply keepsOwned_refl | apply keepsOwned_trans]. Qed.
Lemma ko_forEachReturn {A B} (l : list A) (body : A -> Op (option B)) :
  (forall x, Keeps keepsOwned (body x)) ->
  Keeps keepsOwned (forEachReturn l body).
Proof.
  apply Keeps_forEachReturn; [apply keepsOwned_refl | apply keepsOwned_trans].
Qed.
Lemma ko_forEachWith {A S} (l : list A) (body : A -> S -> Op S) s :
  (forall x s, Keeps keepsOwned (body x s)) ->
  Keeps keepsOwned (forEachWith l s body).
Proof.
  intros H. apply Keeps_forEachWith;
    [apply keepsOwned_refl | apply keepsOwned_trans | exact H].
Qed.

Create HintDb owned.
#[local] Hint Resolve ko_ret ko_fatal ko_gets ko_assert ko_bind ko_if
  ko_forEach ko_forEachReturn ko_forEachWith : owned.

Lemma ko_emit e : Keeps keepsOwned (emit e).
Proof. intros w H. exact H. Qed.

Lemma ko_set_frameBuffer f : Keeps keepsOwned (setCubeMap (set_frameBuffer f)).
Proof. intros w H. exact H. Qed.

Lemma ko_set_optionalDepthBuffer r :
  Keeps keepsOwned (setCubeMap (set_optionalDepthBuffer r)).
Proof. intros w H. exact H. Qed.

Lemma ko_set_imageSize n : Keeps keepsOwned (setCubeMap (set_imageSize n)).
Proof. intros w H. exact H. Qed.

Lemma ko_textures_at ty : Keeps keepsOwned (textures_at ty).
Proof.
  intros w. unfold textures_at. rewrite bind_gets.
  destruct (textures_ (cubeMap w) !! ty) as [p|] eqn:E; cbn.
  - apply keepsOwned_refl.
  - intros H ty' t. cbn.
    destruct (decide (ty = ty')) as [<-|Hne].
    + rewrite lookup_insert_eq. discriminate.
    + rewrite lookup_insert_ne by assumption. apply H.
Qed.

Lemma ko_throughPointer ptr f :
  (forall t, tex_id (f t) = tex_id t) ->
  Keeps keepsOwned (throughPointer ptr f).
Proof.
  intros Hf w. unfold throughPointer. rewrite bind_gets.
  destruct (pointee (cubeMap w) ptr) as [ty|]; cbn; [|apply keepsOwned_refl].
  intros H ty' t. cbn.
  destruct (decide (ty = ty')) as [<-|Hne].
  - rewrite lookup_alter_eq.
    destruct (textures_ (cubeMap w) !! ty) as [[t0|]|] eqn:E; cbn; try discriminate.
    intros [= <-]. rewrite Hf. now apply H.
  - rewrite lookup_alter_ne by assumption. apply H.
Qed.

#[local] Hint Resolve ko_emit ko_set_frameBuffer ko_set_optionalDepthBuffer
  ko_set_imageSize ko_textures_at : owned.

Lemma ko_recreateTexture : Keeps keepsOwned recreateTexture.
Proof.
  intros w H. unfold recreateTexture, make_unique_CubeMapTexture.
  rewrite bind_gets.
  destruct (hasFlag (flags_ (cubeMap w)) ColorTexture) eqn:Hc;
  destruct (hasFlag (flags_ (cubeMap w)) DepthTexture) eqn:Hd; cbn;
  intros ty t; cbn; destruct ty;
  rewrite ?lookup_insert_eq, ?lookup_insert_ne by discriminate;
  rewrite ?lookup_insert_eq;
  try (intros [= <-]; cbn; split; [assumption | lia]);
  intros E; destruct (H _ _ E) as [Hf Hid]; (split; [exact Hf | cbn; lia]).
Qed.

Lemma ko_recreateFramebuffer : Keeps keepsOwned recreateFramebuffer.
Proof. unfold recreateFramebuffer. auto 10 with owned. Qed.

Lemma ko_convertFaceIndex i : Keeps keepsOwned (convertFaceIndexToCubeMapCoordinate i).
Proof. unfold convertFaceIndexToCubeMapCoordinate. auto with owned. Qed.

Lemma ko_int_mul a b : Keeps keepsOwned (int_mul a b).
Proof. unfold int_mul. destruct (_ && _); auto with owned. Qed.

Lemma ko_deref p : Keeps keepsOwned (deref p).
Proof. destruct p; cbn; auto with owned. Qed.

Lemma ko_sanityCheck flags ty fn :
  Keeps keepsOwned (textureTypeSanityCheck flags ty fn).
Proof. destruct ty; apply ko_assert. Qed.

#[local] Hint Resolve ko_recreateTexture ko_recreateFramebuffer
  ko_convertFaceIndex ko_int_mul ko_deref ko_sanityCheck : owned.

Lemma ko_attach : Keeps keepsOwned attachFramebufferRenderbuffer.
Proof. unfold attachFramebufferRenderbuffer. auto 20 with owned. Qed.

#[local] Hint Resolve ko_attach : owned.

Lemma ko_reset S : Keeps keepsOwned (reset S).
Proof. unfold reset. auto 20 with owned. Qed.

Lemma ko_setSubImage ptr c img : Keeps keepsOwned (setSubImage ptr c img).
Proof.
  unfold setSubImage. apply ko_bind; [auto with owned | intros _].
  now apply ko_throughPointer.
Qed.

Lemma ko_generateMipmap ptr : Keeps keepsOwned (generateMipmap ptr).
Proof.
  unfold generateMipmap. apply ko_bind; [auto with owned | intros _].
  now apply ko_throughPointer.
Qed.

#[local] Hint Resolve ko_reset ko_setSubImage ko_generateMipmap : owned.

Lemma ko_getTexture ty : Keeps keepsOwned (getTexture ty).
Proof. unfold getTexture. auto 10 with owned. Qed.

Lemma ko_saveTexture env ty pre : Keeps keepsOwned (saveTexture env ty pre).
Proof.
  assert (forall i, Keeps keepsOwned (saveFace env ty pre i)) as Hface
    by (intros i; unfold saveFace; auto 20 with owned).
  unfold saveTexture.
  apply ko_bind; [auto with owned | intros c].
  apply ko_bind; [auto with owned | intros _].
  apply ko_if; [auto with owned|].
  apply ko_bind; [auto with owned | intros [b|]; auto with owned].
Qed.

Lemma ko_loadTexture env ty pre ext : Keeps keepsOwned (loadTexture env ty pre ext).
Proof.
  assert (forall ptr i acc, Keeps keepsOwned (loadFace env ty pre ext ptr i acc))
    as Hface.
  { intros ptr i acc. unfold loadFace.
    apply ko_bind; [auto with owned | intros _].
    destruct (image2D env _); [|auto with owned].
    destruct ty; auto 20 with owned. }
  unfold loadTexture, CORRADE_INTERNAL_ASSERT.
  apply ko_bind; [auto with owned | intros c].
  apply ko_bind; [auto with owned | intros _].
  apply ko_bind; [auto with owned | intros _].
  apply ko_bind; [destruct ty; auto with owned | intros p].
  destruct (get_pointer p); auto 10 with owned.
Qed.

Lemma ko_renderToTexture env T (ft : T -> Z -> T) cam sg flags :
  Keeps keepsOwned (renderToTexture env ft cam sg flags).
Proof.
  assert (forall i, Keeps keepsOwned (prepareToDraw env i)) as Hprep.
  { intros i. unfold prepareToDraw, mapForDraw, CORRADE_INTERNAL_ASSERT.
    auto 20 with owned. }
  unfold renderToTexture, renderFace, updateOriginalViewingMatrix,
    switchToFace, restoreTransformation, prepareForDraw, draw.
  auto 30 with owned.
Qed.

Lemma Reachable_ownedTextures w : Reachable w -> ownedTextures w.
Proof.
  induction 1 as [w0 S flags w E | w S b w' _ IH E | w ty t w' _ IH E
                 | env w ty pre b w' _ IH E | env w ty pre ext w' _ IH E
                 | env T ft cam cam' sg flags w w' _ IH E].
  - unfold CubeMap in E. rewrite bind_setCubeMap, bind_emit in E.
    apply bind_Done_inv in E as (b & w1 & E1 & E2). inversion E2; subst w1.
    match type of E1 with reset S ?w1 = _ =>
      pose proof (ko_reset S w1) as K end.
    rewrite E1 in K. apply K.
    intros ty t. cbn. rewrite lookup_empty. discriminate.
  - pose proof (ko_reset S w) as K. rewrite E in K. now apply K.
  - pose proof (ko_getTexture ty w) as K. rewrite E in K. now apply K.
  - pose proof (ko_saveTexture env ty pre w) as K. rewrite E in K. now apply K.
  - pose proof (ko_loadTexture env ty pre ext w) as K. rewrite E in K. now apply K.
  - pose proof (ko_renderToTexture env T ft cam sg flags w) as K.
    rewrite E in K. now apply K.
Qed.

(** After [recreateTexture] every texture the object owns is new. *)
Lemma recreateTexture_fresh w :
  ownedTextures w ->
  forall w', recreateTexture w = (Done tt, w') ->
  forall type t, textures_ (cubeMap w') !! type = Some (Some t) ->
    (nextObject w <= tex_id t)%nat.
Proof.
  intros Ho w' E. unfold recreateTexture, make_unique_CubeMapTexture in E.
  rewrite bind_gets in E.
  destruct (hasFlag (flags_ (cubeMap w)) ColorTexture) eqn:Hc;
  destruct (hasFlag (flags_ (cubeMap w)) DepthTexture) eqn:Hd; cbn in E;
  inversion E; subst w'; clear E; intros ty t; cbn; destruct ty;
  rewrite ?lookup_insert_eq, ?lookup_insert_ne by discriminate;
  rewrite ?lookup_insert_eq;
  try (intros [= <-]; cbn; lia);
  intros E; destruct (Ho _ _ E) as [Hf _]; cbn in Hf; congruence.
Qed.

Lemma reset_resize_fresh w S :
  ownedTextures w -> S <> imageSize_ (cubeMap w) -> 0 < S ->
  forall type t,
    textures_ (cubeMap (snd (reset S w))) !! type = Some (Some t) ->
    (nextObject w <= tex_id t)%nat.
Proof.
  intros Ho Hne Hpos. unfold reset. rewrite bind_gets.
  destruct (Z.eqb_spec (imageSize_ (cubeMap w)) S); [congruence|].
  rewrite bind_setCubeMap.
  destruct (Z.ltb_spec 0 S); [|lia]. rewrite bind_assert_true.
  fold (resized S w).
  destruct (recreateTexture_spec (resized S w)) as (w1 & new & E1 & _ & _ & _ & _ & L1).
  rewrite (bind_Done _ _ _ _ _ E1).
  destruct (recreateFramebuffer_spec w1) as (w2 & E2 & F2 & _ & X2 & _).
  rewrite (bind_Done _ _ _ _ _ E2).
  destruct (attachFramebufferRenderbuffer_spec w2) as (w3 & E3 & _ & _ & X3 & _).
  { intros Hc. rewrite X2. rewrite F2 in Hc.
    destruct (recreateTexture_spec (resized S w)) as (w1' & ? & E1' & F1 & _).
    assert (w1' = w1) as -> by congruence. rewrite F1 in Hc.
    apply (L1 Color Hc). }
  rewrite (bind_Done _ _ _ _ _ E3). cbn [snd ret].
  intros ty t Ht. rewrite X3, X2 in Ht.
  apply (recreateTexture_fresh (resized S w) Ho w1 E1 ty t Ht).
Qed.

Lemma pointee_none c ptr :
  (forall type t, textures_ c !! type = Some (Some t) -> tex_id t <> ptr) ->
  pointee c ptr = None.
Proof.
  intros H. unfold pointee. cbn.
  assert (forall ty,
    match textures_ c !! ty with
    | Some (Some t) => Nat.eqb (tex_id t) ptr
    | _ => false
    end = false) as Hno.
  { intros ty. destruct (textures_ c !! ty) as [[t|]|] eqn:E; [|reflexivity..].
    apply Nat.eqb_neq. now apply (H ty). }
  now rewrite !Hno.
Qed.

(** After a resize the pointer to a texture the object owned before points
    to nothing it owns. *)
Lemma resize_leaves_pointer_dangling w type t T name :
  ownedTextures w -> textures_ (cubeMap w) !! type = Some (Some t) ->
  T <> imageSize_ (cubeMap w) -> 0 < T ->
  exists w1,
    reset T (opened name w) = (Done true, w1) /\
    imageSize_ (cubeMap w1) = T /\
    pointee (cubeMap w1) (tex_id t) = None.
Proof.
  intros Ho Ht Hne Hpos. set (w0 := opened name w).
  assert (ownedTextures w0) as Ho0 by exact Ho.
  destruct (reset_resize w0 T Hne Hpos) as (w1 & new & E1 & _ & S1 & _).
  pose proof (reset_resize_fresh w0 T Ho0 Hne Hpos) as Fresh.
  rewrite E1 in Fresh. cbn [snd] in Fresh.
  exists w1. split; [exact E1|]. split; [exact S1|].
  apply pointee_none. intros ty t' Ht'.
  specialize (Fresh ty t' Ht'). destruct (Ho _ _ Ht) as [_ Hid].
  cbn in Fresh. lia.
Qed.

Lemma thenUpload_dangling type ptr i edge d w :
  pointee (cubeMap w) ptr = None ->
  fst (thenUpload type ptr i edge d w) = Fatal (resizingLoadFailure type edge).
Proof.
  intros Hp. unfold thenUpload, resizingLoadFailure.
  destruct (depthArrayOverflows type edge); [reflexivity|].
  unfold setSubImage, throughPointer.
  rewrite !bind_assoc, bind_emit, bind_assoc, bind_gets. cbn [cubeMap].
  now rewrite Hp.
Qed.

Lemma resizing_load_outcome env w type pre ext t d T w1 :
  hasFlag (flags_ (cubeMap w)) (capability type) = true ->
  importerPlugin env = true ->
  textures_ (cubeMap w) !! type = Some (Some t) ->
  image2D env (faceFile type pre ext 0) = Some d ->
  img_size d = (T, T) ->
  reset T (opened (faceFile type pre ext 0) w) = (Done true, w1) ->
  pointee (cubeMap w1) (tex_id t) = None ->
  fst (loadTexture env type pre ext w) = Fatal (resizingLoadFailure type T).
Proof.
  intros Hf Hi Ht E Hsz E1 Hp.
  rewrite (loadTexture_prelims env type pre ext w t Hf Hi Ht).
  rewrite faces_unfold, forEachWith_cons.
  assert (fst (loadFace env type pre ext (tex_id t) 0 0 w)
          = Fatal (resizingLoadFailure type T)) as El.
  { rewrite (loadFace_first _ _ _ _ _ _ _ d T E Hsz).
    rewrite (bind_Done _ _ _ _ _ E1). now apply thenUpload_dangling. }
  destruct (loadFace env type pre ext (tex_id t) 0 0 w) as [r w2] eqn:Er.
  cbn [fst] in El. subst r.
  erewrite bind_Fatal; [reflexivity|].
  erewrite bind_Fatal; [reflexivity | exact Er].
Qed.

(** X19.  On an object that came from the constructor, a [loadTexture]
    whose first face has another, positive size than the object never
    returns: its first upload goes through the pointer to the texture that
    [reset] has just destroyed.  For a depth face whose pixel count is
    beyond [int], the product that sizes the array comes before the upload
    and is where the behaviour is undefined. *)
Theorem resizing_load_never_returns env w type filePrefix ext t d T :
  Reachable w ->
  hasFlag (flags_ (cubeMap w)) (capability type) = true ->
  importerPlugin env = true ->
  textures_ (cubeMap w) !! type = Some (Some t) ->
  image2D env (faceFile type filePrefix ext 0) = Some d ->
  img_size d = (T, T) -> T <> imageSize_ (cubeMap w) -> 0 < T ->
  fst (loadTexture env type filePrefix ext w)
    = Fatal (if depthArrayOverflows type T
             then Undefined "signed integer overflow"
             else Undefined "texture used after its destruction").
Proof.
  intros Hr Hf Hi Ht E Hsz Hne Hpos.
  pose proof (Reachable_ownedTextures w Hr) as Ho.
  destruct (resize_leaves_pointer_dangling w type t T
              (faceFile type filePrefix ext 0) Ho Ht Hne Hpos)
    as (w1 & E1 & _ & Hp).
  pose proof (resizing_load_outcome env w type filePrefix ext t d T w1
                Hf Hi Ht E Hsz E1 Hp) as Ef.
  unfold resizingLoadFailure in Ef.
  destruct (depthArrayOverflows type T); exact Ef.
Qed.

(** The pointer [texture] of [loadTexture] is taken before the face loop.
    When the first face triggers a resize, [reset] replaces the textures, and
    the upload that follows goes through the pointer to the texture that was
    destroyed: here texture 0, while the object now owns texture 1, which
    receives no face. *)
Example resizing_load_uses_destroyed_texture :
  let w := constructed 4 1 in
  let run := loadTexture (allFiles 2) Color "cube" "png" w in
  fst run = Fatal (Undefined "texture used after its destruction") /\
  imageSize_ (cubeMap (snd run)) = 2 /\
  tex_id <$> textureOf (cubeMap w) Color = Some 0%nat /\
  tex_id <$> textureOf (cubeMap (snd run)) Color = Some 1%nat /\
  (exists image,
     last (newEvents w (snd run)) = Some (EvSetSubImage 0 PositiveX image)) /\
  tex_faces <$> textureOf (cubeMap (snd run)) Color = Some ∅.
Proof. vm_compute. repeat split. eexists. reflexivity. Qed.

(** *** The state a resize builds *)

(** The six colour attachments, one face after the other. *)
Lemma attachLoop_exact l : Forall (fun i => 0 <= i < 6) l -> forall w t,
  textures_ (cubeMap w) !! Color = Some (Some t) ->
  forEach l (fun index =>
       let* cubeMapCoord := convertFaceIndexToCubeMapCoordinate index in
       let* p := textures_at Color in
       let* t := deref p in
       setCubeMap (set_frameBuffer
         (attachColor (colorAttachment index) (tex_id t) cubeMapCoord 0))) w
    = (Done tt,
       {| cubeMap := set_frameBuffer
            (fun f => foldl (fun f index =>
               attachColor (colorAttachment index) (tex_id t)
                           (PositiveX + index) 0 f) f l) (cubeMap w);
          nextObject := nextObject w; trace := trace w |}).
Proof.
  induction 1 as [|i l Hi _ IH]; intros w t Ht.
  - destruct w as [[] ? ?]. reflexivity.
  - cbn [forEach].
    rewrite bind_assoc, (bind_Done _ _ _ _ _ (convertFaceIndex_ok i w Hi)).
    rewrite bind_assoc, (bind_Done _ _ _ _ _ (textures_at_present _ _ _ Ht)).
    cbn [deref]. rewrite bind_assoc, bind_ret, bind_setCubeMap.
    rewrite (IH _ t) by exact Ht. reflexivity.
Qed.

Lemma faceAttachments_fold tex f :
  fb_color f = ∅ ->
  fb_color (foldl (fun f index =>
       attachColor (colorAttachment index) tex (PositiveX + index) 0 f) f faces)
    = faceAttachments tex.
Proof.
  intros He. change faces with [0; 1; 2; 3; 4; 5].
  cbn [foldl fb_color attachColor colorAttachment]. rewrite He. reflexivity.
Qed.

Lemma attachFramebufferRenderbuffer_exact w t :
  (hasFlag (flags_ (cubeMap w)) ColorTexture = true ->
   textures_ (cubeMap w) !! Color = Some (Some t)) ->
  attachFramebufferRenderbuffer w
    = (Done tt,
       {| cubeMap := set_frameBuffer
            (fun f =>
               (if hasFlag (flags_ (cubeMap w)) DepthTexture
                then fun f => f else attachDepth DepthOfRenderbuffer)
                 ((if hasFlag (flags_ (cubeMap w)) ColorTexture
                   then fun f => foldl (fun f index =>
                          attachColor (colorAttachment index) (tex_id t)
                                      (PositiveX + index) 0 f) f faces
                   else fun f => f) f)) (cubeMap w);
          nextObject := nextObject w; trace := trace w |}).
Proof.
  intros Ht. unfold attachFramebufferRenderbuffer. rewrite bind_gets.
  destruct (hasFlag (flags_ (cubeMap w)) ColorTexture).
  - erewrite bind_Done;
      [|apply attachLoop_exact;
        [eapply Forall_impl; [apply faces_range | cbn; lia] | exact (Ht eq_refl)]].
    destruct (hasFlag (flags_ (cubeMap w)) DepthTexture); cbn.
    + reflexivity.
    + reflexivity.
  - rewrite bind_ret.
    destruct (hasFlag (flags_ (cubeMap w)) DepthTexture); cbn.
    + destruct w as [[fl sz tx fb rb] nx tr]. destruct fb. reflexivity.
    + reflexivity.
Qed.

Lemma recreateTexture_exact w :
  let c := cubeMap w in
  let edge := imageSize_ c in
  let color := hasFlag (flags_ c) ColorTexture in
  let depth := hasFlag (flags_ c) DepthTexture in
  let colorId := nextObject w in
  let depthId := if color then S colorId else colorId in
  let levels := if hasFlag (flags_ c) BuildMipmap then log2 edge + 1 else 1 in
  recreateTexture w
    = (Done tt,
       {| cubeMap := set_textures
            (fun m =>
               (if depth
                then <[Depth := Some (newDepthTexture depthId edge)]>
                else fun m => m)
                 ((if color
                   then <[Color := Some (newColorTexture colorId levels edge)]>
                   else fun m => m) m)) c;
          nextObject := if depth then S depthId else depthId;
          trace := trace w ++
            (if color then [EvTextureStorage colorId levels RGBA8 (edge, edge)]
             else []) ++
            (if depth
             then [EvTextureStorage depthId 1 DepthComponent32F (edge, edge)]
             else []) |}).
Proof.
  cbn zeta. unfold recreateTexture, make_unique_CubeMapTexture.
  rewrite bind_gets.
  destruct (hasFlag (flags_ (cubeMap w)) ColorTexture);
  destruct (hasFlag (flags_ (cubeMap w)) DepthTexture); exec; unfold modify; cbn.
  - rewrite <- app_assoc. reflexivity.
  - reflexivity.
  - reflexivity.
  - rewrite app_nil_r. destruct w as [[fl sz tx fb rb] nx tr]. reflexivity.
Qed.

(** The state in which a resize to a positive size ends. *)
Lemma reset_resize_exact w edge :
  edge <> imageSize_ (cubeMap w) -> 0 < edge ->
  reset edge w = (Done true, afterResize edge w).
Proof.
  intros Hne Hpos. unfold reset. rewrite bind_gets.
  destruct (Z.eqb_spec (imageSize_ (cubeMap w)) edge); [congruence|].
  rewrite bind_setCubeMap.
  destruct (Z.ltb_spec 0 edge); [|lia]. rewrite bind_assert_true.
  rewrite (bind_Done _ _ _ _ _ (recreateTexture_exact _)).
  unfold recreateFramebuffer.
  rewrite bind_assoc, bind_gets, bind_assoc, bind_setCubeMap,
    bind_assoc, bind_emit, bind_setCubeMap.
  cbn [cubeMap set_frameBuffer set_optionalDepthBuffer set_textures
       set_imageSize flags_ imageSize_ textures_ frameBuffer_
       optionalDepthBuffer_ nextObject trace].
  match goal with |- bind _ _ ?w0 = _ => set (w2 := w0) end.
  assert (hasFlag (flags_ (cubeMap w2)) ColorTexture = true ->
          textures_ (cubeMap w2) !! Color
            = Some (Some (newColorTexture (nextObject w)
                (if hasFlag (flags_ (cubeMap w)) BuildMipmap
                 then log2 edge + 1 else 1) edge))) as Ht.
  { subst w2. cbn. intros Hc. rewrite Hc.
    destruct (hasFlag (flags_ (cubeMap w)) DepthTexture);
      [rewrite lookup_insert_ne by discriminate|]; apply lookup_insert_eq. }
  rewrite (bind_Done _ _ _ _ _ (attachFramebufferRenderbuffer_exact w2 _ Ht)).
  subst w2. unfold afterResize, ret. cbn.
  destruct (hasFlag (flags_ (cubeMap w)) ColorTexture);
  destruct (hasFlag (flags_ (cubeMap w)) DepthTexture);
    cbn; rewrite <- ?app_assoc; reflexivity.
Qed.

(** The constructor with a positive size is that resize of the object as
    declared. *)
Lemma CubeMap_exact w0 edge flags :
  0 < edge ->
  CubeMap edge flags w0 = (Done tt, afterResize edge (declared flags w0)).
Proof.
  intros Hpos. unfold CubeMap. rewrite bind_setCubeMap, bind_emit.
  fold (declared flags w0).
  rewrite (bind_Done _ _ _ _ _
             (reset_resize_exact (declared flags w0) edge
                ltac:(cbn; lia) Hpos)).
  reflexivity.
Qed.

Lemma faceAttachments_lookup tex i :
  faceAttachments tex !! i
    = if (0 <=? i) && (i <? 6) then Some (tex, PositiveX + i, 0) else None.
Proof.
  unfold faceAttachments. change faces with [0; 1; 2; 3; 4; 5].
  cbn [map list_to_map foldr uncurry fst snd].
  repeat match goal with
  | |- <[?k := _]> _ !! i = _ =>
      destruct (decide (i = k)) as [->|];
        [rewrite lookup_insert_eq; reflexivity
        |rewrite lookup_insert_ne by congruence]
  end.
  rewrite lookup_empty.
  destruct (Z.leb_spec 0 i), (Z.ltb_spec i 6); cbn; try reflexivity; lia.
Qed.

Lemma textureOf_afterResize edge w type :
  textureOf (cubeMap (afterResize edge w)) type
    = if hasFlag (flags_ (cubeMap w)) (capability type)
      then Some (match type with
                 | Color =>
                     newColorTexture (nextObject w)
                       (if hasFlag (flags_ (cubeMap w)) BuildMipmap
                        then log2 edge + 1 else 1) edge
                 | Depth =>
                     newDepthTexture
                       (if hasFlag (flags_ (cubeMap w)) ColorTexture
                        then S (nextObject w) else nextObject w) edge
                 end)
      else textureOf (cubeMap w) type.
Proof.
  unfold textureOf, afterResize. cbn [cubeMap textures_].
  destruct type; cbn [capability];
  destruct (hasFlag (flags_ (cubeMap w)) ColorTexture);
  destruct (hasFlag (flags_ (cubeMap w)) DepthTexture);
    rewrite ?lookup_insert_eq, ?lookup_insert_ne, ?lookup_insert_eq
      by discriminate; reflexivity.
Qed.

Lemma textureOf_Some c type t :
  textureOf c type = Some t <-> textures_ c !! type = Some (Some t).
Proof.
  unfold textureOf. destruct (textures_ c !! type) as [[t'|]|]; split; congruence.
Qed.

(** X5.  The constructor called with a positive size returns an object with
    the given flags and that size.  On the way it makes, after enabling
    seamless cube map textures, one storage allocation per enabled texture
    (the colour texture first, with [log2 edge + 1] levels under
    [BuildMipmap] and one level otherwise, then the depth texture with one
    level), and then creates one framebuffer of that size.  The object owns
    a texture for an enabled type, set up as [recreateTexture] does, and
    none for the other type. *)
Theorem CubeMap_positive_size (w0 : World) (edge flags : Z) :
  0 < edge ->
  let colorId := nextObject w0 in
  let depthId := if hasFlag flags ColorTexture then S colorId else colorId in
  let levels := if hasFlag flags BuildMipmap then log2 edge + 1 else 1 in
  exists w,
    CubeMap edge flags w0 = (Done tt, w) /\
    flags_ (cubeMap w) = flags /\
    imageSize_ (cubeMap w) = edge /\
    newEvents w0 w
      = [EvEnableSeamlessCubeMapTexture] ++
        (if hasFlag flags ColorTexture
         then [EvTextureStorage colorId levels RGBA8 (edge, edge)] else []) ++
        (if hasFlag flags DepthTexture
         then [EvTextureStorage depthId 1 DepthComponent32F (edge, edge)]
         else []) ++
        [EvFramebufferCreate ((0, 0), (edge, edge))] /\
    forall type,
      textureOf (cubeMap w) type
        = if hasFlag flags (capability type)
          then Some (match type with
                     | Color => newColorTexture colorId levels edge
                     | Depth => newDepthTexture depthId edge
                     end)
          else None.
Proof.
  intros Hpos. cbn zeta. unfold CubeMap.
  rewrite bind_setCubeMap, bind_emit.
  match goal with |- context [bind (reset edge) _ ?w1] => set (w1' := w1) end.
  assert (edge <> imageSize_ (cubeMap w1')) as Hne by (cbn; lia).
  rewrite (bind_Done _ _ _ _ _ (reset_resize_exact w1' edge Hne Hpos)).
  eexists. split; [reflexivity|]. subst w1'. unfold afterResize.
  cbn [cubeMap flags_ imageSize_ nextObject trace textures_].
  split; [reflexivity|]. split; [reflexivity|]. split.
  - apply newEvents_app. rewrite <- app_assoc. reflexivity.
  - intros type. unfold textureOf. cbn [textures_].
    destruct type; cbn [capability];
    destruct (hasFlag flags ColorTexture);
    destruct (hasFlag flags DepthTexture);
      rewrite ?lookup_insert_eq, ?lookup_insert_ne, ?lookup_insert_eq,
        ?lookup_empty by discriminate; reflexivity.
Qed.

Lemma CubeMap_positive_size_witness :
  exists w,
    CubeMap 4 11 freshContext = (Done tt, w) /\
    newEvents freshContext w
      = [EvEnableSeamlessCubeMapTexture;
         EvTextureStorage 0 3 RGBA8 (4, 4);
         EvTextureStorage 1 1 DepthComponent32F (4, 4);
         EvFramebufferCreate ((0, 0), (4, 4))].
Proof.
  destruct (CubeMap_positive_size freshContext 4 11 eq_refl)
    as (w & E & _ & _ & Hev & _).
  exists w. split; [exact E | exact Hev].
Defined.

(** X6.  With the default flags the object is a colour cube map: it has a
    colour texture with one mip level and no depth texture, the depth
    renderbuffer serves as depth attachment, and asking for the depth
    texture fails the capability check. *)
Theorem default_flags_give_a_colour_cube_map (w0 : World) (edge : Z) :
  0 < edge ->
  exists w,
    CubeMap edge defaultFlags w0 = (Done tt, w) /\
    textureOf (cubeMap w) Color = Some (newColorTexture (nextObject w0) 1 edge) /\
    textureOf (cubeMap w) Depth = None /\
    fb_depth (frameBuffer_ (cubeMap w)) = Some DepthOfRenderbuffer /\
    getTexture Depth w
      = (Fatal (AssertionFailed (notCreatedWith "CubeMap::getTexture():" Depth)),
         w).
Proof.
  intros Hpos. exists (afterResize edge (declared defaultFlags w0)).
  split; [now apply CubeMap_exact|].
  rewrite !textureOf_afterResize.
  split; [reflexivity|]. split; [reflexivity|]. split; [reflexivity|].
  unfold getTexture. rewrite bind_gets, bind_sanityCheck. reflexivity.
Qed.

Lemma default_flags_give_a_colour_cube_map_witness :
  exists w,
    CubeMap 4 defaultFlags freshContext = (Done tt, w) /\
    textureOf (cubeMap w) Color = Some (newColorTexture 0 1 4) /\
    textureOf (cubeMap w) Depth = None.
Proof.
  destruct (default_flags_give_a_colour_cube_map freshContext 4 eq_refl)
    as (w & E & Hc & Hd & _).
  exists w. split; [exact E|]. split; [exact Hc | exact Hd].
Defined.

(** X7.  A resize to another, positive size replaces the texture of every
    enabled type by a new texture object: clamped to the edge, with linear
    filtering and the chosen number of levels of [RGBA8] for colour, nearest
    filtering and one level of [DepthComponent32F] for depth, the storage of
    the new size, and no face uploaded.  What the old texture held is gone.
    The entry of a type that is not enabled stays as it was. *)
Theorem reset_replaces_textures (w : World) (edge : Z) :
  edge <> imageSize_ (cubeMap w) -> 0 < edge ->
  let c := cubeMap w in
  let colorId := nextObject w in
  let depthId :=
    if hasFlag (flags_ c) ColorTexture then S colorId else colorId in
  let levels := if hasFlag (flags_ c) BuildMipmap then log2 edge + 1 else 1 in
  exists w',
    reset edge w = (Done true, w') /\
    textures_ (cubeMap w') !! Color
      = (if hasFlag (flags_ c) ColorTexture
         then Some (Some (newColorTexture colorId levels edge))
         else textures_ c !! Color) /\
    textures_ (cubeMap w') !! Depth
      = (if hasFlag (flags_ c) DepthTexture
         then Some (Some (newDepthTexture depthId edge))
         else textures_ c !! Depth).
Proof.
  intros Hne Hpos. cbn zeta. exists (afterResize edge w).
  split; [now apply reset_resize_exact|].
  unfold afterResize. cbn [cubeMap textures_].
  destruct (hasFlag (flags_ (cubeMap w)) ColorTexture);
  destruct (hasFlag (flags_ (cubeMap w)) DepthTexture);
    rewrite ?lookup_insert_eq, ?lookup_insert_ne, ?lookup_insert_eq
      by discriminate; auto.
Qed.

Lemma reset_replaces_textures_witness :
  exists w',
    reset 8 (constructed 4 11) = (Done true, w') /\
    textures_ (cubeMap w') !! Color = Some (Some (newColorTexture 2 4 8)) /\
    textures_ (cubeMap w') !! Depth = Some (Some (newDepthTexture 3 8)).
Proof.
  assert (8 <> imageSize_ (cubeMap (constructed 4 11))) as Hne
    by (vm_compute; discriminate).
  destruct (reset_replaces_textures (constructed 4 11) 8 Hne eq_refl)
    as (w' & E & Hc & Hd).
  exists w'. split; [exact E|]. split; [exact Hc | exact Hd].
Defined.

(** X8.  A resize to another, positive size leaves a new framebuffer with
    the viewport of the new size.  With colour output its colour attachments
    0 to 5 are level 0 of the faces [+X] to [-Z] of the new colour texture,
    and there is no other colour attachment; without colour output there is
    none.  The depth renderbuffer gets 24-bit storage of the new size in
    either case, and is attached exactly when there is no depth output: with
    depth output the framebuffer has no depth attachment until a face is
    rendered. *)
Theorem reset_rebuilds_framebuffer (w : World) (edge : Z) :
  edge <> imageSize_ (cubeMap w) -> 0 < edge ->
  exists w',
    reset edge w = (Done true, w') /\
    let fb := frameBuffer_ (cubeMap w') in
    fb_created fb = true /\
    fb_viewport fb = ((0, 0), (edge, edge)) /\
    (forall i,
       fb_color fb !! i
         = if hasFlag (flags_ (cubeMap w)) ColorTexture
              && (0 <=? i) && (i <? 6)
           then Some (nextObject w, PositiveX + i, 0) else None) /\
    fb_depth fb
      = (if hasFlag (flags_ (cubeMap w)) DepthTexture then None
         else Some DepthOfRenderbuffer) /\
    fb_drawMapping fb = [] /\
    optionalDepthBuffer_ (cubeMap w')
      = {| rb_storage := Some (DepthComponent24, (edge, edge)) |}.
Proof.
  intros Hne Hpos. exists (afterResize edge w).
  split; [now apply reset_resize_exact|].
  unfold afterResize. cbn [cubeMap frameBuffer_ fb_created fb_viewport fb_color
                           fb_depth fb_drawMapping optionalDepthBuffer_].
  repeat (split; [reflexivity|]).
  split; [|auto]. intros i.
  destruct (hasFlag (flags_ (cubeMap w)) ColorTexture); cbn [andb].
  - apply faceAttachments_lookup.
  - apply lookup_empty.
Qed.

Lemma reset_rebuilds_framebuffer_witness :
  exists w',
    reset 8 (constructed 4 1) = (Done true, w') /\
    fb_viewport (frameBuffer_ (cubeMap w')) = ((0, 0), (8, 8)) /\
    fb_color (frameBuffer_ (cubeMap w')) !! 5 = Some (1%nat, 34074, 0) /\
    fb_color (frameBuffer_ (cubeMap w')) !! 6 = None /\
    fb_depth (frameBuffer_ (cubeMap w')) = Some DepthOfRenderbuffer.
Proof.
  assert (8 <> imageSize_ (cubeMap (constructed 4 1))) as Hne
    by (vm_compute; discriminate).
  destruct (reset_rebuilds_framebuffer (constructed 4 1) 8 Hne eq_refl)
    as (w' & E & _ & Hv & Hc & Hd & _).
  exists w'. split; [exact E|]. split; [exact Hv|].
  split; [exact (Hc 5)|]. split; [exact (Hc 6) | exact Hd].
Defined.

(** X9.  A size that is not positive, and differs from the current one, is
    rejected by the assertion of [reset] only after it has been stored:
    [imageSize_] holds the illegal size when the call stops, while textures,
    framebuffer and renderbuffer still are those of the size before, and
    nothing has been allocated.  The constructor stops in the same way for
    every negative size. *)
Theorem illegal_size_is_assigned_before_it_is_rejected (w : World) (edge : Z) :
  edge <= 0 -> edge <> imageSize_ (cubeMap w) ->
  let msg := ("CubeMap::reset(): image size " ++ pretty edge ++
              " is illegal.")%string in
  exists w',
    reset edge w = (Fatal (AssertionFailed msg), w') /\
    imageSize_ (cubeMap w') = edge /\
    flags_ (cubeMap w') = flags_ (cubeMap w) /\
    textures_ (cubeMap w') = textures_ (cubeMap w) /\
    frameBuffer_ (cubeMap w') = frameBuffer_ (cubeMap w) /\
    optionalDepthBuffer_ (cubeMap w') = optionalDepthBuffer_ (cubeMap w) /\
    nextObject w' = nextObject w /\
    trace w' = trace w /\
    (edge < 0 ->
     forall flags w0, fst (CubeMap edge flags w0) = Fatal (AssertionFailed msg)).
Proof.
  intros Hle Hne. cbn zeta. exists (resized edge w).
  split; [now apply reset_illegal|]. cbn.
  repeat (split; [reflexivity|]).
  intros Hneg flags w0. now apply CubeMap_negative_size_asserts.
Qed.

Lemma illegal_size_is_assigned_before_it_is_rejected_witness :
  exists w',
    reset (-1) (constructed 4 1)
      = (Fatal (AssertionFailed "CubeMap::reset(): image size -1 is illegal."),
         w') /\
    imageSize_ (cubeMap w') = -1 /\
    textures_ (cubeMap w') = textures_ (cubeMap (constructed 4 1)).
Proof.
  assert (-1 <> imageSize_ (cubeMap (constructed 4 1))) as Hne
    by (vm_compute; discriminate).
  destruct (illegal_size_is_assigned_before_it_is_rejected
              (constructed 4 1) (-1) ltac:(discriminate) Hne)
    as (w' & E & Hs & _ & Ht & _).
  exists w'. split; [exact E|]. split; [exact Hs | exact Ht].
Defined.

(** X10.  After a [reset] that returned, the object has the requested size
    and the same [reset] again returns [false] without any change. *)
Theorem reset_again_is_a_noop (w w' : World) (edge : Z) (b : bool) :
  reset edge w = (Done b, w') ->
  imageSize_ (cubeMap w') = edge /\ reset edge w' = (Done false, w').
Proof.
  intros E.
  destruct (reset_outcomes edge w) as (allocs & _ & _ & Hs & _).
  rewrite E in Hs. cbn [snd] in Hs.
  split; [exact Hs|]. rewrite <- Hs at 1. apply reset_same.
Qed.

Lemma reset_again_is_a_noop_witness :
  reset 8 (snd (reset 8 (constructed 4 11)))
    = (Done false, snd (reset 8 (constructed 4 11))).
Proof.
  assert (reset 8 (constructed 4 11)
          = (Done true, snd (reset 8 (constructed 4 11)))) as E
    by (vm_compute; reflexivity).
  exact (proj2 (reset_again_is_a_noop _ _ 8 true E)).
Defined.

(** *** What the calls after a resize keep *)

Lemma sameShape_refl w : sameShape w w.
Proof. unfold sameShape. cbn zeta. auto 10. Qed.

Lemma blank_id t1 t2 : blank t1 = blank t2 -> tex_id t1 = tex_id t2.
Proof. intros H. apply (f_equal tex_id) in H. exact H. Qed.

Lemma sameShape_trans w1 w2 w3 :
  sameShape w1 w2 -> sameShape w2 w3 -> sameShape w1 w3.
Proof.
  unfold sameShape. cbn zeta.
  intros (F1 & S1 & T1 & C1 & V1 & A1 & R1 & D1)
         (F2 & S2 & T2 & C2 & V2 & A2 & R2 & D2).
  split; [congruence|]. split; [congruence|].
  split; [intros ty; rewrite T2; apply T1|].
  split; [congruence|]. split; [congruence|]. split; [congruence|].
  split; [congruence|].
  destruct D2 as [D2|D2]; [|right; exact D2].
  destruct D1 as [D1|(t & co & Ht & D1)]; [left; congruence|].
  right. specialize (T2 Depth). rewrite Ht in T2.
  destruct (textureOf (cubeMap w3) Depth) as [t3|]; [|discriminate].
  exists t3, co. split; [reflexivity|].
  assert (tex_id t3 = tex_id t) as Hid
    by (apply blank_id; cbn in T2; congruence).
  rewrite Hid. congruence.
Qed.

Lemma sh_ret {A} (a : A) : Keeps sameShape (ret a).
Proof. apply Keeps_ret, sameShape_refl. Qed.
Lemma sh_fatal {A} e : Keeps sameShape (@fatal World Failure A e).
Proof. apply Keeps_fatal, sameShape_refl. Qed.
Lemma sh_gets {A} (f : World -> A) : Keeps sameShape (gets f).
Proof. apply Keeps_gets, sameShape_refl. Qed.
Lemma sh_assert b msg : Keeps sameShape (CORRADE_ASSERT b msg).
Proof. apply Keeps_assert, sameShape_refl. Qed.
Lemma sh_bind {A B} (c : Op A) (k : A -> Op B) :
  Keeps sameShape c -> (forall a, Keeps sameShape (k a)) ->
  Keeps sameShape (bind c k).
Proof. apply Keeps_bind, sameShape_trans. Qed.
Lemma sh_if {A} (b : bool) (c1 c2 : Op A) :
  Keeps sameShape c1 -> Keeps sameShape c2 ->
  Keeps sameShape (if b then c1 else c2).
Proof. destruct b; auto. Qed.
Lemma sh_forEach {A} (l : list A) (body : A -> Op unit) :
  (forall x, Keeps sameShape (body x)) -> Keeps sameShape (forEach l body).
Proof. apply Keeps_forEach; [apply sameShape_refl | apply sameShape_trans]. Qed.
Lemma sh_forEachReturn {A B} (l : list A) (body : A -> Op (option B)) :
  (forall x, Keeps sameShape (body x)) ->
  Keeps sameShape (forEachReturn l body).
Proof.
  apply Keeps_forEachReturn; [apply sameShape_refl | apply sameShape_trans].
Qed.
Lemma sh_forEachWith {A S} (l : list A) (body : A -> S -> Op S) s :
  (forall x s, Keeps sameShape (body x s)) ->
  Keeps sameShape (forEachWith l s body).
Proof.
  intros H. apply Keeps_forEachWith;
    [apply sameShape_refl | apply sameShape_trans | exact H].
Qed.

Create HintDb shape.
#[local] Hint Resolve sh_ret sh_fatal sh_gets sh_assert sh_bind sh_if
  sh_forEach sh_forEachReturn sh_forEachWith : shape.

Lemma sh_emit e : Keeps sameShape (emit e).
Proof. intros w. unfold sameShape. cbn. auto 10. Qed.

Lemma sh_setDrawMapping m :
  Keeps sameShape (setCubeMap (set_frameBuffer (setDrawMapping m))).
Proof. intros w. unfold sameShape. cbn. auto 10. Qed.

Lemma textureOf_insert_None c ty ty' :
  textures_ c !! ty = None ->
  textureOf (set_textures (insert ty None) c) ty' = textureOf c ty'.
Proof.
  intros E. unfold textureOf. cbn.
  destruct (decide (ty = ty')) as [<-|Hne].
  - now rewrite lookup_insert_eq, E.
  - now rewrite lookup_insert_ne.
Qed.

Lemma sh_textures_at ty : Keeps sameShape (textures_at ty).
Proof.
  intros w. unfold textures_at. rewrite bind_gets.
  destruct (textures_ (cubeMap w) !! ty) as [p|] eqn:E; cbn.
  - apply sameShape_refl.
  - unfold sameShape. cbn [cubeMap]. 
    split; [reflexivity|]. split; [reflexivity|].
    split; [intros ty'; now rewrite textureOf_insert_None|].
    cbn. auto 10.
Qed.

Lemma textureOf_alter c ty ty' f :
  textureOf (set_textures (alter (fmap f) ty) c) ty'
    = if decide (ty = ty') then f <$> textureOf c ty' else textureOf c ty'.
Proof.
  unfold textureOf. cbn. destruct (decide (ty = ty')) as [<-|Hne].
  - rewrite lookup_alter_eq.
    destruct (textures_ c !! ty) as [[t|]|]; reflexivity.
  - now rewrite lookup_alter_ne.
Qed.

Lemma sh_throughPointer ptr f :
  (forall t, blank (f t) = blank t) ->
  Keeps sameShape (throughPointer ptr f).
Proof.
  intros Hf w. unfold throughPointer. rewrite bind_gets.
  destruct (pointee (cubeMap w) ptr) as [ty|]; cbn; [|apply sameShape_refl].
  unfold sameShape. cbn [cubeMap].
  split; [reflexivity|]. split; [reflexivity|]. split.
  - intros ty'. rewrite textureOf_alter.
    destruct (decide (ty = ty')); [|reflexivity].
    destruct (textureOf (cubeMap w) ty'); cbn; [|reflexivity].
    now rewrite Hf.
  - cbn. auto 10.
Qed.

#[local] Hint Resolve sh_emit sh_setDrawMapping sh_textures_at : shape.

Lemma sh_sanityCheck flags ty fn :
  Keeps sameShape (textureTypeSanityCheck flags ty fn).
Proof. destruct ty; apply sh_assert. Qed.

Lemma sh_convertFaceIndex i :
  Keeps sameShape (convertFaceIndexToCubeMapCoordinate i).
Proof. unfold convertFaceIndexToCubeMapCoordinate. auto with shape. Qed.

Lemma sh_int_mul a b : Keeps sameShape (int_mul a b).
Proof. unfold int_mul. destruct (_ && _); auto with shape. Qed.

Lemma sh_deref p : Keeps sameShape (deref p).
Proof. destruct p; cbn; auto with shape. Qed.

Lemma sh_setSubImage ptr c img : Keeps sameShape (setSubImage ptr c img).
Proof.
  unfold setSubImage. apply sh_bind; [auto with shape | intros _].
  now apply sh_throughPointer.
Qed.

Lemma sh_generateMipmap ptr : Keeps sameShape (generateMipmap ptr).
Proof.
  unfold generateMipmap. apply sh_bind; [auto with shape | intros _].
  now apply sh_throughPointer.
Qed.

#[local] Hint Resolve sh_sanityCheck sh_convertFaceIndex sh_int_mul sh_deref
  sh_setSubImage sh_generateMipmap : shape.

Lemma sh_getTexture ty : Keeps sameShape (getTexture ty).
Proof. unfold getTexture. auto 10 with shape. Qed.

Lemma sh_saveFace env ty pre i : Keeps sameShape (saveFace env ty pre i).
Proof. unfold saveFace. auto 20 with shape. Qed.

Lemma sh_saveTexture env ty pre : Keeps sameShape (saveTexture env ty pre).
Proof.
  unfold saveTexture. pose proof (sh_saveFace env ty pre).
  apply sh_bind; [auto with shape | intros c].
  apply sh_bind; [auto with shape | intros _].
  apply sh_if; [auto with shape|].
  apply sh_bind; [auto with shape | intros [b|]; auto with shape].
Qed.

(** The depth texture is attached face by face. *)
Lemma sh_attachDepthFace coordinate :
  Keeps sameShape
    (let* p := textures_at Depth in
     let* t := deref p in
     setCubeMap (set_frameBuffer
       (attachDepth (DepthOfTexture (tex_id t) coordinate 0)))).
Proof.
  intros w. unfold textures_at. rewrite bind_assoc, bind_gets.
  destruct (textures_ (cubeMap w) !! Depth) as [[t|]|] eqn:E; cbn.
  - unfold sameShape. cbn.
    repeat (split; [reflexivity|]). right. exists t, coordinate.
    unfold textureOf. cbn. now rewrite E.
  - apply sameShape_refl.
  - unfold sameShape. cbn [cubeMap].
    split; [reflexivity|]. split; [reflexivity|].
    split; [intros ty'; now rewrite textureOf_insert_None|].
    cbn. auto 10.
Qed.

Lemma sh_prepareToDraw env i : Keeps sameShape (prepareToDraw env i).
Proof.
  pose proof sh_attachDepthFace.
  unfold prepareToDraw, mapForDraw, CORRADE_INTERNAL_ASSERT.
  auto 20 with shape.
Qed.

Lemma sh_renderToTexture env T (ft : T -> Z -> T) cam sg flags :
  Keeps sameShape (renderToTexture env ft cam sg flags).
Proof.
  pose proof (sh_prepareToDraw env).
  unfold renderToTexture, renderFace, updateOriginalViewingMatrix,
    switchToFace, restoreTransformation, prepareForDraw, draw.
  auto 30 with shape.
Qed.

(** *** The object agrees with its size *)

(** Calls that keep the shape keep the object in agreement with its size. *)
Lemma consistent_sameShape w w' :
  sameShape w w' -> consistent w -> consistent w'.
Proof.
  unfold sameShape, consistent. cbn zeta.
  intros (F & S & T & C & V & A & R & D) (H0 & Hown & Hids & Hzero & Hpos).
  assert (forall type t', textureOf (cubeMap w') type = Some t' ->
            exists t, textureOf (cubeMap w) type = Some t /\ blank t' = blank t)
    as Back.
  { intros type t' Ht'. specialize (T type). rewrite Ht' in T.
    destruct (textureOf (cubeMap w) type) as [t|]; [|discriminate].
    exists t. split; [reflexivity|]. cbn in T. congruence. }
  assert (forall type t', textureOf (cubeMap w') type = Some t' ->
            hasFlag (flags_ (cubeMap w')) (capability type) = true) as Hown'.
  { intros type t' Ht'. destruct (Back _ _ Ht') as (t & Ht & _).
    rewrite F. eapply Hown; eauto. }
  rewrite S, F.
  split; [exact H0|]. split; [intros type t'; rewrite <- F; apply Hown'|]. split.
  { intros t1 t2 H1 H2.
    destruct (Back _ _ H1) as (u1 & Hu1 & B1).
    destruct (Back _ _ H2) as (u2 & Hu2 & B2).
    rewrite (blank_id _ _ B1), (blank_id _ _ B2). eauto. }
  split.
  { intros Hz. destruct (Hzero Hz) as [Hc Hn]. split; [congruence|].
    intros type. specialize (T type). rewrite Hn in T.
    destruct (textureOf (cubeMap w') type); [discriminate | reflexivity]. }
  intros Hp. destruct (Hpos Hp) as (Hc & Hv & Hr & Hcol & Hdep).
  split; [congruence|]. split; [congruence|]. split; [congruence|].
  assert (mipLevelsFor (cubeMap w') = mipLevelsFor (cubeMap w)) as Hm
    by (unfold mipLevelsFor; now rewrite F, S).
  rewrite Hm, !T, A. split; [exact Hcol|].
  destruct (hasFlag (flags_ (cubeMap w)) DepthTexture) eqn:Hd.
  - destruct Hdep as (id & Hb & Hat). exists id. split; [exact Hb|].
    destruct D as [D|(t & co & Ht & D)]; [now rewrite D|].
    right. exists co. rewrite D. do 2 f_equal.
    specialize (T Depth). rewrite Ht, Hb in T.
    apply (f_equal (fmap tex_id)) in T. cbn in T. congruence.
  - destruct D as [D|(t & co & Ht & D)]; [now rewrite D|].
    specialize (Hown' Depth t Ht). cbn in Hown'. congruence.
Qed.

Lemma consistent_afterResize edge w :
  ownedTextures w -> 0 < edge -> consistent (afterResize edge w).
Proof.
  intros Ho Hpos. unfold consistent. cbn zeta.
  assert (forall type t,
    textureOf (cubeMap (afterResize edge w)) type = Some t ->
    hasFlag (flags_ (cubeMap w)) (capability type) = true) as Hown.
  { intros type t. rewrite textureOf_afterResize.
    destruct (hasFlag (flags_ (cubeMap w)) (capability type)) eqn:Hf;
      [reflexivity|].
    intros Ht. apply textureOf_Some in Ht.
    destruct (Ho _ _ Ht) as [Hc _]. congruence. }
  assert (imageSize_ (cubeMap (afterResize edge w)) = edge) as Hs by reflexivity.
  assert (flags_ (cubeMap (afterResize edge w)) = flags_ (cubeMap w)) as Hf
    by reflexivity.
  rewrite Hs, Hf.
  split; [lia|]. split; [exact Hown|]. split.
  { intros t1 t2 H1 H2.
    pose proof (Hown _ _ H1) as F1. pose proof (Hown _ _ H2) as F2.
    rewrite textureOf_afterResize in H1, H2.
    cbn [capability] in F1, F2, H1, H2. rewrite F1 in H1, H2. rewrite F2 in H2.
    injection H1 as <-. injection H2 as <-. cbn. lia. }
  split; [lia|]. intros _.
  rewrite !textureOf_afterResize. unfold mipLevelsFor. rewrite Hs, Hf.
  cbn [capability].
  unfold afterResize.
  cbn [cubeMap frameBuffer_ fb_created fb_viewport fb_color fb_depth
       optionalDepthBuffer_].
  repeat (split; [reflexivity|]). split.
  - destruct (hasFlag (flags_ (cubeMap w)) ColorTexture); [|reflexivity].
    eexists. split; reflexivity.
  - destruct (hasFlag (flags_ (cubeMap w)) DepthTexture); [|reflexivity].
    eexists. split; [reflexivity|]. now left.
Qed.

Lemma Preserves_shape {A} (op : Op A) :
  Keeps sameShape op -> Keeps keepsOwned op -> Preserves sound op.
Proof.
  intros Hs Ho w a w' [O C] E. specialize (Hs w). specialize (Ho w).
  rewrite E in Hs, Ho. split; [now apply Ho | eapply consistent_sameShape; eauto].
Qed.

Lemma reset_sound edge : Preserves sound (reset edge).
Proof.
  intros w b w' [O C] E.
  split; [pose proof (ko_reset edge w) as K; rewrite E in K; now apply K|].
  destruct (Z.eq_dec edge (imageSize_ (cubeMap w))) as [->|Hne].
  - rewrite reset_same in E. now inversion E; subst.
  - destruct (Z_lt_le_dec 0 edge) as [Hpos|Hle].
    + rewrite (reset_resize_exact w edge Hne Hpos) in E. inversion E; subst.
      now apply consistent_afterResize.
    + rewrite (reset_illegal w edge Hne Hle) in E. discriminate.
Qed.

Lemma loadFace_sound env ty pre ext ptr i acc :
  Preserves sound (loadFace env ty pre ext ptr i acc).
Proof.
  unfold loadFace.
  apply Preserves_bind;
    [apply Preserves_shape; [auto with shape | auto with owned] | intros _].
  destruct (image2D env _) as [img|];
    [|apply Preserves_shape; [auto with shape | auto with owned]].
  apply Preserves_bind;
    [apply Preserves_shape; [auto with shape | auto with owned] | intros _].
  apply Preserves_bind.
  - destruct (i =? 0).
    + apply Preserves_bind; [apply reset_sound | intros _].
      apply Preserves_shape; [auto with shape | auto with owned].
    + apply Preserves_shape; [auto with shape | auto with owned].
  - intros s. apply Preserves_shape;
      destruct ty; [auto 10 with shape | auto 10 with shape
                   | auto 10 with owned | auto 10 with owned].
Qed.

Lemma loadTexture_sound env ty pre ext :
  Preserves sound (loadTexture env ty pre ext).
Proof.
  unfold loadTexture, CORRADE_INTERNAL_ASSERT.
  apply Preserves_bind;
    [apply Preserves_shape; [auto with shape | auto with owned] | intros c].
  apply Preserves_bind;
    [apply Preserves_shape; [auto with shape | auto with owned] | intros _].
  apply Preserves_bind;
    [apply Preserves_shape; [auto with shape | auto with owned] | intros _].
  apply Preserves_bind;
    [apply Preserves_shape; destruct ty; auto with shape owned | intros p].
  destruct (get_pointer p) as [ptr|];
    [|apply Preserves_shape; [auto with shape | auto with owned]].
  apply Preserves_bind.
  - apply Preserves_forEachWith. intros i acc. apply loadFace_sound.
  - intros _. apply Preserves_shape; [auto 10 with shape | auto 10 with owned].
Qed.

(** Every state an object can reach is sound. *)
Lemma Reachable_sound w : Reachable w -> sound w.
Proof.
  induction 1 as [w0 S flags w E | w S b w' _ IH E | w ty t w' _ IH E
                 | env w ty pre b w' _ IH E | env w ty pre ext w' _ IH E
                 | env T ft cam cam' sg flags w w' _ IH E].
  - unfold CubeMap in E. rewrite bind_setCubeMap, bind_emit in E.
    apply bind_Done_inv in E as (b & w1 & E1 & E2). inversion E2; subst w1.
    eapply reset_sound; [|exact E1]. split.
    + intros ty t. cbn. rewrite lookup_empty. discriminate.
    + unfold consistent, textureOf. cbn. rewrite !lookup_empty.
      split; [lia|]. split; [discriminate|]. split; [discriminate|].
      split; [auto|lia].
  - eapply reset_sound; eauto.
  - eapply (Preserves_shape _ (sh_getTexture ty) (ko_getTexture ty)); eauto.
  - eapply (Preserves_shape _ (sh_saveTexture env ty pre)
                              (ko_saveTexture env ty pre)); eauto.
  - eapply loadTexture_sound; eauto.
  - eapply (Preserves_shape _ (sh_renderToTexture env T ft cam sg flags)
                              (ko_renderToTexture env T ft cam sg flags)); eauto.
Qed.

(** A constructor call that returns gives a reachable state. *)
Lemma Reachable_constructed edge flags :
  fst (CubeMap edge flags freshContext) = Done tt ->
  Reachable (constructed edge flags).
Proof.
  intros E. apply (Reachable_CubeMap freshContext edge flags).
  unfold constructed. destruct (CubeMap edge flags freshContext) as [r w].
  cbn in E. now subst r.
Qed.

Lemma consistent_texturesPresent w :
  consistent w -> 0 < imageSize_ (cubeMap w) -> texturesPresent w.
Proof.
  intros (_ & _ & _ & _ & Hpos) Hp ty Hf.
  destruct (Hpos Hp) as (_ & _ & _ & Hcol & Hdep).
  destruct ty; cbn in Hf.
  - rewrite Hf in Hcol. destruct Hcol as (id & Hb & _).
    destruct (textureOf (cubeMap w) Color) as [t|] eqn:E; [|discriminate].
    exists t. now apply textureOf_Some.
  - rewrite Hf in Hdep. destruct Hdep as (id & Hb & _).
    destruct (textureOf (cubeMap w) Depth) as [t|] eqn:E; [|discriminate].
    exists t. now apply textureOf_Some.
Qed.

(** X11.  In every state an object can reach, its size is not negative.
    An object of size 0 has no framebuffer and owns no texture; an object
    of positive size has a framebuffer and a depth renderbuffer of that
    size and owns a texture exactly for the types it was created with. *)
Theorem size_decides_what_the_object_owns (w : World) :
  Reachable w ->
  let c := cubeMap w in
  0 <= imageSize_ c /\
  (imageSize_ c = 0 ->
   fb_created (frameBuffer_ c) = false /\
   forall type, textureOf c type = None) /\
  (0 < imageSize_ c ->
   fb_created (frameBuffer_ c) = true /\
   fb_viewport (frameBuffer_ c) = ((0, 0), (imageSize_ c, imageSize_ c)) /\
   optionalDepthBuffer_ c
     = {| rb_storage := Some (DepthComponent24, (imageSize_ c, imageSize_ c)) |} /\
   forall type,
     is_Some (textureOf c type)
     <-> hasFlag (flags_ c) (capability type) = true).
Proof.
  intros Hr. destruct (Reachable_sound w Hr) as [_ C].
  destruct C as (H0 & Hown & _ & Hzero & Hpos). cbn zeta.
  split; [exact H0|]. split; [exact Hzero|].
  intros Hp. destruct (Hpos Hp) as (Hc & Hv & Hrb & Hcol & Hdep).
  repeat (split; [assumption|]).
  intros type. split.
  - intros [t Ht]. eapply Hown; eauto.
  - intros Hf. destruct type; cbn in Hf.
    + rewrite Hf in Hcol. destruct Hcol as (id & Hb & _).
      destruct (textureOf (cubeMap w) Color); [eauto | discriminate].
    + rewrite Hf in Hdep. destruct Hdep as (id & Hb & _).
      destruct (textureOf (cubeMap w) Depth); [eauto | discriminate].
Qed.

Lemma size_decides_what_the_object_owns_witness :
  fb_created (frameBuffer_ (cubeMap (constructed 0 11))) = false /\
  forall type, textureOf (cubeMap (constructed 0 11)) type = None.
Proof.
  assert (Reachable (constructed 0 11)) as Hr
    by (apply Reachable_constructed; vm_compute; reflexivity).
  exact (proj1 (proj2 (size_decides_what_the_object_owns _ Hr)) eq_refl).
Defined.

(** X12.  On an object of positive size, [getTexture] for an enabled type
    returns the texture the object owns and changes nothing.  Apart from
    its contents that texture is as [recreateTexture] sets it up for the
    current size: the storage has the current size, the format of the type
    and the level count of the flags, whatever calls were made since. *)
Theorem getTexture_returns_the_texture_of_the_size (w : World)
    (type : TextureType) :
  Reachable w -> 0 < imageSize_ (cubeMap w) ->
  hasFlag (flags_ (cubeMap w)) (capability type) = true ->
  exists t,
    getTexture type w = (Done t, w) /\
    textureOf (cubeMap w) type = Some t /\
    blank t
      = match type with
        | Color =>
            newColorTexture (tex_id t) (mipLevelsFor (cubeMap w))
                            (imageSize_ (cubeMap w))
        | Depth => newDepthTexture (tex_id t) (imageSize_ (cubeMap w))
        end.
Proof.
  intros Hr Hp Hf. destruct (Reachable_sound w Hr) as [_ C].
  destruct C as (_ & _ & _ & _ & Hpos).
  destruct (Hpos Hp) as (_ & _ & _ & Hcol & Hdep).
  assert (exists t, textureOf (cubeMap w) type = Some t /\
    blank t = match type with
        | Color =>
            newColorTexture (tex_id t) (mipLevelsFor (cubeMap w))
                            (imageSize_ (cubeMap w))
        | Depth => newDepthTexture (tex_id t) (imageSize_ (cubeMap w))
        end) as (t & Ht & Hb).
  { destruct type; cbn in Hf.
    - rewrite Hf in Hcol. destruct Hcol as (id & Hb & _).
      destruct (textureOf (cubeMap w) Color) as [t|]; [|discriminate].
      exists t. split; [reflexivity|].
      assert (blank t = newColorTexture id (mipLevelsFor (cubeMap w))
                          (imageSize_ (cubeMap w))) as Hb'
        by (cbn in Hb; congruence).
      pose proof (f_equal tex_id Hb') as Hid. cbn in Hid.
      rewrite Hid. exact Hb'.
    - rewrite Hf in Hdep. destruct Hdep as (id & Hb & _).
      destruct (textureOf (cubeMap w) Depth) as [t|]; [|discriminate].
      exists t. split; [reflexivity|].
      assert (blank t = newDepthTexture id (imageSize_ (cubeMap w))) as Hb'
        by (cbn in Hb; congruence).
      pose proof (f_equal tex_id Hb') as Hid. cbn in Hid.
      rewrite Hid. exact Hb'. }
  exists t. split; [|split; assumption].
  unfold getTexture. rewrite bind_gets, bind_sanityCheck, Hf.
  apply textureOf_Some in Ht.
  rewrite (bind_Done _ _ _ _ _ (textures_at_present _ _ _ Ht)). reflexivity.
Qed.

Lemma getTexture_returns_the_texture_of_the_size_witness :
  exists t,
    getTexture Color (constructed 4 11) = (Done t, constructed 4 11) /\
    blank t = newColorTexture (tex_id t) 3 4.
Proof.
  assert (Reachable (constructed 4 11)) as Hr
    by (apply Reachable_constructed; vm_compute; reflexivity).
  destruct (getTexture_returns_the_texture_of_the_size
              (constructed 4 11) Color Hr eq_refl eq_refl) as (t & E & _ & Hb).
  exists t. split; [exact E | exact Hb].
Defined.

(** X13.  The framebuffer of an object of positive size never refers to a
    texture the object has given up: with colour output, the colour
    attachments 0 to 5 are the six faces of the colour texture owned now,
    and there are no others; with depth output, the depth attachment is
    absent or level 0 of a face of the depth texture owned now; without
    depth output it is the renderbuffer.  The colour and the depth texture
    are different objects. *)
Theorem attachments_follow_the_textures (w : World) :
  Reachable w -> 0 < imageSize_ (cubeMap w) ->
  let c := cubeMap w in
  let fb := frameBuffer_ c in
  (if hasFlag (flags_ c) ColorTexture
   then exists t,
          textureOf c Color = Some t /\
          forall i,
            fb_color fb !! i
              = if (0 <=? i) && (i <? 6)
                then Some (tex_id t, PositiveX + i, 0) else None
   else fb_color fb = ∅) /\
  (if hasFlag (flags_ c) DepthTexture
   then exists t,
          textureOf c Depth = Some t /\
          (fb_depth fb = None \/
           exists coordinate,
             fb_depth fb = Some (DepthOfTexture (tex_id t) coordinate 0))
   else fb_depth fb = Some DepthOfRenderbuffer) /\
  (forall t1 t2, textureOf c Color = Some t1 -> textureOf c Depth = Some t2 ->
     tex_id t1 <> tex_id t2).
Proof.
  intros Hr Hp. destruct (Reachable_sound w Hr) as [_ C].
  destruct C as (_ & _ & Hids & _ & Hpos). cbn zeta.
  destruct (Hpos Hp) as (_ & _ & _ & Hcol & Hdep).
  split; [|split; [|exact Hids]].
  - destruct (hasFlag (flags_ (cubeMap w)) ColorTexture); [|exact Hcol].
    destruct Hcol as (id & Hb & Ha).
    destruct (textureOf (cubeMap w) Color) as [t|]; [|discriminate].
    exists t. split; [reflexivity|]. intros i.
    apply (f_equal (fmap tex_id)) in Hb. cbn in Hb. injection Hb as ->.
    rewrite Ha. apply faceAttachments_lookup.
  - destruct (hasFlag (flags_ (cubeMap w)) DepthTexture); [|exact Hdep].
    destruct Hdep as (id & Hb & Ha).
    destruct (textureOf (cubeMap w) Depth) as [t|]; [|discriminate].
    exists t. split; [reflexivity|].
    apply (f_equal (fmap tex_id)) in Hb. cbn in Hb. injection Hb as ->.
    exact Ha.
Qed.

Lemma attachments_follow_the_textures_witness :
  let w := snd (reset 8 (constructed 4 1)) in
  exists t,
    textureOf (cubeMap w) Color = Some t /\
    fb_color (frameBuffer_ (cubeMap w)) !! 2
      = Some (tex_id t, PositiveX + 2, 0).
Proof.
  assert (Reachable (constructed 4 1)) as Hr
    by (apply Reachable_constructed; vm_compute; reflexivity).
  assert (Reachable (snd (reset 8 (constructed 4 1)))) as Hr2
    by (apply (Reachable_reset _ 8 true _ Hr); vm_compute; reflexivity).
  destruct (attachments_follow_the_textures _ Hr2 eq_refl) as ((t & Ht & Ha) & _).
  exists t. split; [exact Ht | exact (Ha 2)].
Defined.

(** X14.  An object of size 0, as the constructor returns it for
    [imageSize = 0], owns no texture, and the calls that need one do not
    return: [getTexture] and, once the converter is there, [saveTexture]
    dereference the null pointer that [textures_[type]] holds; [loadTexture]
    stops at its assertion on the texture pointer before it reads a file,
    so loading cannot give the object its first size. *)
Theorem object_of_size_zero_is_unusable (env : Env) (w : World)
    (type : TextureType) (filePrefix ext : string) :
  Reachable w -> imageSize_ (cubeMap w) = 0 ->
  hasFlag (flags_ (cubeMap w)) (capability type) = true ->
  fst (getTexture type w) = Fatal (Undefined "null pointer dereferenced") /\
  (converterPlugin env = true ->
   fst (saveTexture env type filePrefix w)
     = Fatal (Undefined "null pointer dereferenced")) /\
  (importerPlugin env = true ->
   fst (loadTexture env type filePrefix ext w)
     = Fatal (AssertionFailed "CubeMap::loadTexture(): Unknown texture type.")).
Proof.
  intros Hr Hz Hf. destruct (Reachable_sound w Hr) as [_ C].
  destruct C as (_ & _ & _ & Hzero & _).
  destruct (Hzero Hz) as [_ Hnone]. specialize (Hnone type).
  assert (exists w1, textures_at type w = (Done None, w1)) as (w1 & E1).
  { unfold textureOf in Hnone.
    destruct (textures_ (cubeMap w) !! type) as [[t|]|] eqn:E; [discriminate| |].
    - exists w. now apply textures_at_present.
    - eexists. now apply textures_at_absent. }
  split; [|split].
  - unfold getTexture. rewrite bind_gets, bind_sanityCheck, Hf.
    now rewrite (bind_Done _ _ _ _ _ E1).
  - intros Hc. unfold saveTexture. rewrite bind_gets, bind_sanityCheck, Hf, Hc.
    cbn [negb]. rewrite faces_unfold. cbn [forEachReturn].
    unfold saveFace at 1. rewrite !bind_assoc.
    now rewrite (bind_Done _ _ _ _ _ E1).
  - intros Hi. unfold loadTexture, CORRADE_INTERNAL_ASSERT.
    rewrite bind_gets, bind_sanityCheck, Hf, Hi, bind_assert_true.
    destruct type; now rewrite (bind_Done _ _ _ _ _ E1).
Qed.

Lemma object_of_size_zero_is_unusable_witness :
  fst (getTexture Color (constructed 0 1))
    = Fatal (Undefined "null pointer dereferenced") /\
  fst (loadTexture (allFiles 4) Color "cube" "png" (constructed 0 1))
    = Fatal (AssertionFailed "CubeMap::loadTexture(): Unknown texture type.").
Proof.
  assert (Reachable (constructed 0 1)) as Hr
    by (apply Reachable_constructed; vm_compute; reflexivity).
  destruct (object_of_size_zero_is_unusable (allFiles 4) (constructed 0 1)
              Color "cube" "png" Hr eq_refl eq_refl) as (Hg & _ & Hl).
  split; [exact Hg | exact (Hl eq_refl)].
Defined.

(** *** The capabilities are fixed *)

Lemma sameFlags_refl w : sameFlags w w.
Proof. reflexivity. Qed.

Lemma sameFlags_trans w1 w2 w3 :
  sameFlags w1 w2 -> sameFlags w2 w3 -> sameFlags w1 w3.
Proof. unfold sameFlags. congruence. Qed.

Lemma sf_shape {A} (op : Op A) : Keeps sameShape op -> Keeps sameFlags op.
Proof. intros H w. apply (H w). Qed.

Lemma sf_reset edge : Keeps sameFlags (reset edge).
Proof.
  intros w. destruct (reset_outcomes edge w) as (allocs & _ & _ & _ & Hf & _).
  exact Hf.
Qed.

Lemma sf_loadFace env ty pre ext ptr i acc :
  Keeps sameFlags (loadFace env ty pre ext ptr i acc).
Proof.
  unfold loadFace.
  apply (Keeps_bind _ sameFlags_trans); [apply sf_shape; auto with shape|intros _].
  destruct (image2D env _) as [img|]; [|apply sf_shape; auto with shape].
  apply (Keeps_bind _ sameFlags_trans); [apply sf_shape; auto with shape|intros _].
  apply (Keeps_bind _ sameFlags_trans).
  - destruct (i =? 0).
    + apply (Keeps_bind _ sameFlags_trans); [apply sf_reset | intros _].
      apply sf_shape; auto with shape.
    + apply sf_shape; auto with shape.
  - intros s. apply sf_shape. destruct ty; auto 10 with shape.
Qed.

Lemma sf_loadTexture env ty pre ext :
  Keeps sameFlags (loadTexture env ty pre ext).
Proof.
  unfold loadTexture, CORRADE_INTERNAL_ASSERT.
  apply (Keeps_bind _ sameFlags_trans); [apply sf_shape; auto with shape|intros c].
  apply (Keeps_bind _ sameFlags_trans); [apply sf_shape; auto with shape|intros _].
  apply (Keeps_bind _ sameFlags_trans); [apply sf_shape; auto with shape|intros _].
  apply (Keeps_bind _ sameFlags_trans);
    [apply sf_shape; destruct ty; auto with shape|intros p].
  destruct (get_pointer p) as [ptr|]; [|apply sf_shape; auto with shape].
  apply (Keeps_bind _ sameFlags_trans).
  - apply (Keeps_forEachWith _ sameFlags_refl sameFlags_trans).
    intros i acc. apply sf_loadFace.
  - intros _. apply sf_shape. auto 10 with shape.
Qed.

(** X15.  The capabilities are those given to the constructor: the
    constructor stores its flags, and no member function changes [flags_],
    whether it returns or stops at an assertion or at undefined behaviour. *)
Theorem flags_are_fixed_at_construction (env : Env) {Transform : Type}
    (faceTransformation : Transform -> Z -> Transform)
    (camera : CubeMapCamera Transform) (sceneGraph : SceneGraph)
    (renderFlags : Z) (type : TextureType) (filePrefix ext : string)
    (edge flags : Z) (w : World) :
  flags_ (cubeMap (snd (CubeMap edge flags w))) = flags /\
  flags_ (cubeMap (snd (reset edge w))) = flags_ (cubeMap w) /\
  flags_ (cubeMap (snd (getTexture type w))) = flags_ (cubeMap w) /\
  flags_ (cubeMap (snd (saveTexture env type filePrefix w)))
    = flags_ (cubeMap w) /\
  flags_ (cubeMap (snd (loadTexture env type filePrefix ext w)))
    = flags_ (cubeMap w) /\
  flags_ (cubeMap (snd (renderToTexture env faceTransformation camera
                          sceneGraph renderFlags w)))
    = flags_ (cubeMap w).
Proof.
  split.
  { unfold CubeMap. rewrite bind_setCubeMap, bind_emit.
    match goal with
    | |- context [bind (reset edge) _ ?w1] =>
        pose proof (sf_reset edge w1) as H;
        destruct (reset edge w1) as [[b|e] w2] eqn:E
    end.
    - rewrite (bind_Done _ _ _ _ _ E). exact H.
    - rewrite (bind_Fatal _ _ _ _ _ E). exact H. }
  split; [apply sf_reset|].
  split; [apply (sh_getTexture type w)|].
  split; [apply (sh_saveTexture env type filePrefix w)|].
  split; [apply sf_loadTexture|].
  apply (sh_renderToTexture env Transform faceTransformation camera sceneGraph
           renderFlags w).
Qed.

(** *** Saving, face by face *)

Lemma traced_nil w : traced [] w = w.
Proof. unfold traced. rewrite app_nil_r. now destruct w. Qed.

Lemma traced_app l1 l2 w : traced l2 (traced l1 w) = traced (l1 ++ l2) w.
Proof. unfold traced. cbn. now rewrite app_assoc. Qed.

(** An iteration of the face loop of [saveTexture]. *)
Lemma saveFace_exact env type pre i w t :
  textures_ (cubeMap w) !! type = Some (Some t) -> 0 <= i < 6 ->
  saveFace env type pre i w
    = if exportToFile env (faceFile type pre (saveExtension type) i)
      then (Done None, traced (saveEvents type pre (tex_id t) i) w)
      else (Done (Some false), w).
Proof.
  intros Ht Hi. unfold saveFace.
  rewrite (bind_Done _ _ _ _ _ (textures_at_present _ _ _ Ht)).
  cbn [deref]. rewrite bind_ret.
  rewrite (bind_Done _ _ _ _ _ (convertFaceIndex_ok i w Hi)).
  rewrite faceFile_save, faceFile_nonempty. cbn [negb].
  rewrite bind_assert_true.
  destruct (exportToFile env _); cbn [negb]; [|reflexivity].
  rewrite bind_emit, bind_emit. unfold ret, traced, saveEvents. cbn.
  now rewrite <- app_assoc.
Qed.

Lemma saveLoop_exact env type pre t l :
  Forall (fun i => 0 <= i < 6) l ->
  Forall (fun i =>
    exportToFile env (faceFile type pre (saveExtension type) i) = true) l ->
  forall w, textures_ (cubeMap w) !! type = Some (Some t) ->
  forEachReturn l (saveFace env type pre) w
    = (Done None, traced (flat_map (saveEvents type pre (tex_id t)) l) w).
Proof.
  induction 1 as [|i l Hi _ IH]; intros Hex w Ht; cbn [forEachReturn flat_map].
  - now rewrite traced_nil.
  - inversion Hex as [|? ? Hexi Hexl]; subst.
    erewrite bind_Done; [|rewrite (saveFace_exact _ _ _ _ _ t Ht Hi), Hexi;
                          reflexivity].
    rewrite IH by assumption. now rewrite traced_app.
Qed.

Lemma forEachReturn_app {A R} (l1 l2 : list A) (body : A -> Op (option R)) w w1 :
  forEachReturn l1 body w = (Done None, w1) ->
  forEachReturn (l1 ++ l2) body w = forEachReturn l2 body w1.
Proof.
  revert w. induction l1 as [|x l1 IH]; intros w E; cbn in *.
  - now inversion E.
  - unfold bind in *. destruct (body x w) as [[[r|]|e] w2]; try discriminate.
    now apply IH.
Qed.

(** X16.  [saveTexture] exports the faces in order and stops at the first
    export that fails.  If the exports of the faces before [k] succeed and
    that of face [k] fails, it returns [false]; if all six succeed ([k = 6]),
    it returns [true].  In either case the calls made are, for each face
    before [k] in order, the export of the face of the texture of the type
    in the pixel format of the type, followed by its log line; nothing is
    undone, and the object itself is not changed. *)
Theorem saveTexture_exports_until_a_failure (env : Env) (w : World)
    (type : TextureType) (filePrefix : string) (t : CubeMapTexture) (k : Z) :
  hasFlag (flags_ (cubeMap w)) (capability type) = true ->
  converterPlugin env = true ->
  textures_ (cubeMap w) !! type = Some (Some t) ->
  0 <= k <= 6 ->
  (forall j, 0 <= j < k ->
     exportToFile env (faceFile type filePrefix (saveExtension type) j) = true) ->
  (k < 6 ->
     exportToFile env (faceFile type filePrefix (saveExtension type) k) = false) ->
  saveTexture env type filePrefix w
    = (Done (k =? 6),
       {| cubeMap := cubeMap w; nextObject := nextObject w;
          trace := trace w ++
            flat_map (saveEvents type filePrefix (tex_id t)) (seqZ 0 k) |}).
Proof.
  intros Hf Hc Ht Hk Hok Hbad.
  unfold saveTexture. rewrite bind_gets, bind_sanityCheck, Hf, Hc. cbn [negb].
  assert (forEachReturn (seqZ 0 k) (saveFace env type filePrefix) w
          = (Done None,
             traced (flat_map (saveEvents type filePrefix (tex_id t)) (seqZ 0 k)) w))
    as Efirst.
  { apply saveLoop_exact; [| |exact Ht].
    - apply Forall_seqZ. intros; lia.
    - apply Forall_seqZ. intros j Hj. apply Hok. lia. }
  unfold faces. replace 6 with (k + (6 - k)) at 1 by lia.
  rewrite seqZ_app by lia. rewrite Z.add_0_l.
  unfold bind at 1.
  rewrite (forEachReturn_app _ _ _ _ _ Efirst).
  destruct (Z.eqb_spec k 6) as [->|Hne].
  - cbn. reflexivity.
  - rewrite (seqZ_cons k) by lia. cbn [forEachReturn].
    unfold bind at 1.
    rewrite (saveFace_exact _ _ _ _ _ t); [|exact Ht | lia].
    rewrite Hbad by lia. reflexivity.
Qed.

Lemma saveTexture_exports_until_a_failure_witness :
  saveTexture (exportFailsFor "cube.rgba.+Y.png" 4) Color "cube"
              (constructed 4 1)
    = (Done false,
       {| cubeMap := cubeMap (constructed 4 1);
          nextObject := nextObject (constructed 4 1);
          trace := trace (constructed 4 1) ++
            flat_map (saveEvents Color "cube" 0) [0; 1] |}).
Proof.
  assert (forall j, 0 <= j < 2 ->
    exportToFile (exportFailsFor "cube.rgba.+Y.png" 4)
      (faceFile Color "cube" (saveExtension Color) j) = true) as Hok.
  { intros j Hj. assert (j = 0 \/ j = 1) as [-> | ->] by lia; reflexivity. }
  exact (saveTexture_exports_until_a_failure
           (exportFailsFor "cube.rgba.+Y.png" 4) (constructed 4 1) Color "cube"
           (newColorTexture 0 1 4) 2 eq_refl eq_refl eq_refl
           ltac:(lia) Hok (fun _ => eq_refl)).
Defined.

(** *** Loading, face by face *)

Lemma pointee_of w type t :
  consistent w ->
  textures_ (cubeMap w) !! type = Some (Some t) ->
  pointee (cubeMap w) (tex_id t) = Some type.
Proof.
  intros (_ & _ & Hids & _) Ht. destruct type.
  - now apply pointee_color.
  - unfold pointee. cbn [List.find].
    destruct (textures_ (cubeMap w) !! Color) as [[t1|]|] eqn:E1.
    + assert (tex_id t1 <> tex_id t) as Hne.
      { apply Hids; apply textureOf_Some; assumption. }
      apply Nat.eqb_neq in Hne. rewrite Hne, Ht, Nat.eqb_refl. reflexivity.
    + now rewrite Ht, Nat.eqb_refl.
    + now rewrite Ht, Nat.eqb_refl.
Qed.

Lemma setSubImage_exact ptr type coordinate image w :
  pointee (cubeMap w) ptr = Some type ->
  setSubImage ptr coordinate image w
    = (Done tt,
       {| cubeMap := uploaded type coordinate image (cubeMap w);
          nextObject := nextObject w;
          trace := trace w ++ [EvSetSubImage ptr coordinate image] |}).
Proof.
  intros Hp. unfold setSubImage, throughPointer.
  rewrite bind_emit, bind_gets. cbn [cubeMap]. rewrite Hp. reflexivity.
Qed.

(** An iteration of the face loop of [loadTexture] on a file of the
    current size, while the pointer is good. *)
Lemma loadFace_exact env type pre ext ptr i acc w d :
  pointee (cubeMap w) ptr = Some type ->
  0 <= i < 6 ->
  image2D env (faceFile type pre ext i) = Some d ->
  img_size d = (imageSize_ (cubeMap w), imageSize_ (cubeMap w)) ->
  (i <> 0 -> acc = imageSize_ (cubeMap w)) ->
  depthArrayOverflows type (imageSize_ (cubeMap w)) = false ->
  loadFace env type pre ext ptr i acc w
    = (Done (imageSize_ (cubeMap w)), faceLoaded env type pre ext ptr w i).
Proof.
  intros Hp Hi Hd Hsz Hacc Hov. unfold faceLoaded. rewrite Hd.
  destruct (Z.eq_dec i 0) as [->|Hne].
  - rewrite (loadFace_first _ _ _ _ _ _ _ d _ Hd Hsz).
    change (imageSize_ (cubeMap w))
      with (imageSize_ (cubeMap (opened (faceFile type pre ext 0) w))) at 1.
    rewrite (bind_Done _ _ _ _ _ (reset_same _)).
    unfold thenUpload. cbn [opened cubeMap]. rewrite Hov.
    rewrite (bind_Done _ _ _ _ _
               (setSubImage_exact ptr type _ _
                  (opened (faceFile type pre ext 0) w) Hp)).
    unfold ret, loadEvents, opened. cbn. now rewrite <- app_assoc.
  - rewrite (Hacc Hne).
    rewrite (loadFace_later _ _ _ _ _ _ _ _ d Hd Hsz) by lia.
    unfold thenUpload. rewrite Hov.
    rewrite (bind_Done _ _ _ _ _
               (setSubImage_exact ptr type _ _
                  (opened (faceFile type pre ext i) w) Hp)).
    unfold ret, loadEvents, opened. cbn. now rewrite <- app_assoc.
Qed.

Lemma pointee_uploaded c ptr type coordinate image :
  pointee (uploaded type coordinate image c) ptr = pointee c ptr.
Proof.
  unfold pointee, uploaded. cbn [List.find textures_ set_textures].
  assert (forall ty,
    match alter (fmap (setFace coordinate image)) type (textures_ c) !! ty with
    | Some (Some t) => Nat.eqb (tex_id t) ptr
    | _ => false
    end
    = match textures_ c !! ty with
      | Some (Some t) => Nat.eqb (tex_id t) ptr
      | _ => false
      end) as H.
  { intros ty. destruct (decide (type = ty)) as [<-|Hne].
    - rewrite lookup_alter_eq.
      destruct (textures_ c !! type) as [[t|]|]; reflexivity.
    - now rewrite lookup_alter_ne. }
  now rewrite !H.
Qed.

Lemma faceLoaded_frame env type pre ext ptr w i :
  let w' := faceLoaded env type pre ext ptr w i in
  imageSize_ (cubeMap w') = imageSize_ (cubeMap w) /\
  flags_ (cubeMap w') = flags_ (cubeMap w) /\
  frameBuffer_ (cubeMap w') = frameBuffer_ (cubeMap w) /\
  optionalDepthBuffer_ (cubeMap w') = optionalDepthBuffer_ (cubeMap w) /\
  nextObject w' = nextObject w /\
  pointee (cubeMap w') ptr = pointee (cubeMap w) ptr /\
  (forall ty, ty <> type ->
     textures_ (cubeMap w') !! ty = textures_ (cubeMap w) !! ty).
Proof.
  cbn zeta. unfold faceLoaded.
  destruct (image2D env _) as [d|]; [|auto 10].
  cbn [cubeMap nextObject]. rewrite pointee_uploaded.
  repeat (split; [reflexivity|]).
  intros ty Hne. unfold uploaded. cbn. now rewrite lookup_alter_ne.
Qed.

Lemma loadLoop_exact env type pre ext ptr l : Forall (fun i => 0 < i < 6) l ->
  forall w,
  pointee (cubeMap w) ptr = Some type ->
  Forall (squareFile env type pre ext (imageSize_ (cubeMap w))) l ->
  depthArrayOverflows type (imageSize_ (cubeMap w)) = false ->
  forEachWith l (imageSize_ (cubeMap w)) (loadFace env type pre ext ptr) w
    = (Done (imageSize_ (cubeMap w)),
       foldl (faceLoaded env type pre ext ptr) w l).
Proof.
  induction 1 as [|i l Hi _ IH]; intros w Hp Hsq Hov; [reflexivity|].
  inversion Hsq as [|? ? (d & Hd & Hsz) Hsql]; subst.
  rewrite forEachWith_cons.
  rewrite (bind_Done _ _ _ _ _
             (loadFace_exact env type pre ext ptr i _ w d Hp
                ltac:(lia) Hd Hsz (fun _ => eq_refl) Hov)).
  destruct (faceLoaded_frame env type pre ext ptr w i)
    as (Hs & _ & _ & _ & _ & Hp' & _).
  cbn [foldl]. rewrite <- Hs. apply IH.
  - now rewrite Hp'.
  - now rewrite Hs.
  - now rewrite Hs.
Qed.

Lemma loadedFaces_frame env type pre ext ptr l : forall w,
  let w' := foldl (faceLoaded env type pre ext ptr) w l in
  imageSize_ (cubeMap w') = imageSize_ (cubeMap w) /\
  flags_ (cubeMap w') = flags_ (cubeMap w) /\
  frameBuffer_ (cubeMap w') = frameBuffer_ (cubeMap w) /\
  optionalDepthBuffer_ (cubeMap w') = optionalDepthBuffer_ (cubeMap w) /\
  nextObject w' = nextObject w /\
  pointee (cubeMap w') ptr = pointee (cubeMap w) ptr /\
  (forall ty, ty <> type ->
     textures_ (cubeMap w') !! ty = textures_ (cubeMap w) !! ty).
Proof.
  induction l as [|i l IH]; intros w; cbn [foldl]; [cbn; auto 10|].
  destruct (faceLoaded_frame env type pre ext ptr w i)
    as (H1 & H2 & H3 & H4 & H5 & H6 & H7).
  destruct (IH (faceLoaded env type pre ext ptr w i))
    as (G1 & G2 & G3 & G4 & G5 & G6 & G7).
  cbn zeta. repeat (split; [congruence|]).
  intros ty Hne. rewrite G7, H7 by assumption. reflexivity.
Qed.

Lemma loadedFaces_trace env type pre ext ptr l : forall w,
  Forall (squareFile env type pre ext (imageSize_ (cubeMap w))) l ->
  trace (foldl (faceLoaded env type pre ext ptr) w l)
    = trace w ++ flat_map (loadEventsOf env type pre ext ptr) l.
Proof.
  induction l as [|i l IH]; intros w Hsq; cbn [foldl flat_map].
  - now rewrite app_nil_r.
  - inversion Hsq as [|? ? (d & Hd & Hsz) Hsql]; subst.
    rewrite IH.
    + unfold faceLoaded, loadEventsOf. rewrite Hd. cbn [trace].
      now rewrite <- app_assoc.
    + destruct (faceLoaded_frame env type pre ext ptr w i) as (-> & _).
      exact Hsql.
Qed.

(** The texture after a run of uploads: the faces of the run hold the
    images of their files, the other faces what they held. *)
Lemma loadedFaces_texture env type pre ext ptr l : forall w t T,
  textureOf (cubeMap w) type = Some t ->
  Forall (squareFile env type pre ext T) l ->
  exists t',
    textureOf (cubeMap (foldl (faceLoaded env type pre ext ptr) w l)) type
      = Some t' /\
    blank t' = blank t /\
    tex_mipmapGenerations t' = tex_mipmapGenerations t /\
    (forall coordinate,
       (forall i, i ∈ l -> coordinate <> PositiveX + i) ->
       tex_faces t' !! coordinate = tex_faces t !! coordinate) /\
    (forall i d, i ∈ l ->
       image2D env (faceFile type pre ext i) = Some d ->
       tex_faces t' !! (PositiveX + i) = Some (subImageOf type d)).
Proof.
  induction l as [|i l IH]; intros w t T Ht Hsq; cbn [foldl].
  - exists t. repeat (split; [auto|]). intros i d Hi. inversion Hi.
  - inversion Hsq as [|? ? (d & Hd & Hsz) Hsql]; subst.
    set (img := subImageOf type d).
    assert (textureOf (cubeMap (faceLoaded env type pre ext ptr w i)) type
            = Some (setFace (PositiveX + i) img t)) as Ht1.
    { unfold faceLoaded. rewrite Hd. cbn [cubeMap]. unfold uploaded.
      rewrite textureOf_alter, Ht. now rewrite decide_True by reflexivity. }
    destruct (IH _ _ T Ht1 Hsql) as (t' & Ht' & Hb & Hm & Hframe & Hhit).
    exists t'. split; [exact Ht'|]. split; [exact Hb|]. split; [exact Hm|].
    split.
    + intros coordinate Hc. rewrite Hframe.
      * cbn. apply lookup_insert_ne. intros Heq.
        apply (Hc i); [apply elem_of_cons; now left | congruence].
      * intros j Hj. apply Hc. apply elem_of_cons. now right.
    + intros j dj Hj Hdj. destruct (decide (j ∈ l)) as [Hin|Hnin].
      * now apply Hhit.
      * apply elem_of_cons in Hj as [->|Hj]; [|contradiction].
        rewrite Hframe.
        -- cbn. rewrite lookup_insert_eq. subst img. congruence.
        -- intros i' Hi' Heq. apply Hnin.
           assert (i' = i) as -> by lia. exact Hi'.
Qed.

Lemma generateMipmap_exact ptr type w :
  pointee (cubeMap w) ptr = Some type ->
  generateMipmap ptr w
    = (Done tt,
       {| cubeMap :=
            set_textures (alter (fmap countMipmapGeneration) type) (cubeMap w);
          nextObject := nextObject w;
          trace := trace w ++ [EvGenerateMipmap ptr] |}).
Proof.
  intros Hp. unfold generateMipmap, throughPointer.
  rewrite bind_emit, bind_gets. cbn [cubeMap]. rewrite Hp. reflexivity.
Qed.

Lemma elem_of_faces i : i ∈ faces <-> 0 <= i < 6.
Proof. unfold faces. rewrite elem_of_seqZ. lia. Qed.

Lemma forEachWith_app {A S} (l1 l2 : list A) (s : S) (body : A -> S -> Op S) w :
  forEachWith (l1 ++ l2) s body w
    = bind (forEachWith l1 s body) (fun s' => forEachWith l2 s' body) w.
Proof.
  revert s w. induction l1 as [|x l1 IH]; intros s w; [reflexivity|].
  cbn [app forEachWith]. rewrite bind_assoc. apply bind_ext. intros; apply IH.
Qed.

(** X17.  When the six files hold square images of the current size, and
    for depth the pixel count of a face is within [int], [loadTexture]
    returns, and then every face of the texture of the loaded type holds the
    image of its file (for depth, the red channel taken out as [R32F]).  The texture is the same object with the same storage; its
    mip chain has been regenerated once if the object builds mipmaps; the
    texture of the other type, the size and the framebuffer are untouched;
    and the calls made are, face by face, opening the file and uploading,
    then the regeneration of the mip chain if any. *)
Theorem loadTexture_fills_the_six_faces (env : Env) (w : World)
    (type : TextureType) (filePrefix ext : string) :
  Reachable w -> 0 < imageSize_ (cubeMap w) ->
  hasFlag (flags_ (cubeMap w)) (capability type) = true ->
  importerPlugin env = true ->
  (forall i, 0 <= i < 6 ->
     squareFile env type filePrefix ext (imageSize_ (cubeMap w)) i) ->
  depthArrayOverflows type (imageSize_ (cubeMap w)) = false ->
  exists w' t t',
    loadTexture env type filePrefix ext w = (Done tt, w') /\
    textureOf (cubeMap w) type = Some t /\
    textureOf (cubeMap w') type = Some t' /\
    blank t' = blank t /\
    (forall i d, 0 <= i < 6 ->
       image2D env (faceFile type filePrefix ext i) = Some d ->
       tex_faces t' !! (PositiveX + i) = Some (subImageOf type d)) /\
    tex_mipmapGenerations t'
      = (tex_mipmapGenerations t
         + if buildsMipmap (cubeMap w) then 1 else 0)%nat /\
    (forall ty, ty <> type ->
       textures_ (cubeMap w') !! ty = textures_ (cubeMap w) !! ty) /\
    imageSize_ (cubeMap w') = imageSize_ (cubeMap w) /\
    frameBuffer_ (cubeMap w') = frameBuffer_ (cubeMap w) /\
    newEvents w w'
      = flat_map (loadEventsOf env type filePrefix ext (tex_id t)) faces ++
        (if buildsMipmap (cubeMap w) then [EvGenerateMipmap (tex_id t)] else []).
Proof.
  intros Hr Hp Hf Hi Hsq Hov.
  destruct (Reachable_sound w Hr) as [_ C].
  assert (exists t, textureOf (cubeMap w) type = Some t) as (t & Ht).
  { destruct C as (_ & _ & _ & _ & Hpos).
    destruct (Hpos Hp) as (_ & _ & _ & Hcol & Hdep).
    destruct type; cbn in Hf.
    - rewrite Hf in Hcol. destruct Hcol as (id & Hb & _).
      destruct (textureOf (cubeMap w) Color); [eauto | discriminate].
    - rewrite Hf in Hdep. destruct Hdep as (id & Hb & _).
      destruct (textureOf (cubeMap w) Depth); [eauto | discriminate]. }
  pose proof (proj1 (textureOf_Some _ _ _) Ht) as Ht0.
  pose proof (pointee_of w type t C Ht0) as Hptr.
  assert (Forall (squareFile env type filePrefix ext (imageSize_ (cubeMap w)))
            faces) as Hall.
  { apply List.Forall_forall. intros i Hin. apply Hsq. now apply In_faces. }
  set (ptr := tex_id t) in *.
  set (w6 := foldl (faceLoaded env type filePrefix ext ptr) w faces).
  assert (forEachWith faces 0 (loadFace env type filePrefix ext ptr) w
          = (Done (imageSize_ (cubeMap w)), w6)) as Eloop.
  { subst w6. rewrite faces_unfold, forEachWith_cons. cbn [foldl].
    destruct (Hsq 0 ltac:(lia)) as (d0 & Hd0 & Hsz0).
    rewrite (bind_Done _ _ _ _ _
               (loadFace_exact env type filePrefix ext ptr 0 0 w d0 Hptr
                  ltac:(lia) Hd0 Hsz0 ltac:(intros H; now contradict H) Hov)).
    destruct (faceLoaded_frame env type filePrefix ext ptr w 0)
      as (Hs & _ & _ & _ & _ & Hp' & _).
    rewrite <- Hs. apply loadLoop_exact.
    - apply later_faces_range.
    - now rewrite Hp'.
    - rewrite Hs. rewrite faces_unfold in Hall. now inversion Hall.
    - now rewrite Hs. }
  destruct (loadedFaces_frame env type filePrefix ext ptr faces w)
    as (Hs6 & Hf6 & Hfb6 & _ & _ & Hp6 & Ho6).
  fold w6 in Hs6, Hf6, Hfb6, Hp6, Ho6.
  pose proof (loadedFaces_trace env type filePrefix ext ptr faces w Hall) as Ht6.
  fold w6 in Ht6.
  destruct (loadedFaces_texture env type filePrefix ext ptr faces w t _ Ht Hall)
    as (t6 & Htex6 & Hb6 & Hm6 & _ & Hhit6).
  fold w6 in Htex6.
  rewrite (loadTexture_prelims env type filePrefix ext w t Hf Hi Ht0).
  fold ptr. rewrite (bind_Done _ _ _ _ _ Eloop), bind_gets.
  fold (buildsMipmap (cubeMap w6)).
  assert (buildsMipmap (cubeMap w6) = buildsMipmap (cubeMap w)) as ->
    by (unfold buildsMipmap; now rewrite Hf6).
  destruct (buildsMipmap (cubeMap w)).
  - rewrite (generateMipmap_exact ptr type w6) by (now rewrite Hp6).
    eexists _, t, (countMipmapGeneration t6).
    split; [reflexivity|]. cbn [cubeMap].
    split; [exact Ht|].
    split; [rewrite textureOf_alter, decide_True, Htex6 by reflexivity;
            reflexivity|].
    split; [exact Hb6|].
    split; [intros i d Hi6 Hd; cbn; apply Hhit6; [now apply elem_of_faces | exact Hd]|].
    split; [cbn; rewrite Hm6; lia|].
    split; [intros ty Hne; cbn; rewrite lookup_alter_ne by congruence;
            now apply Ho6|].
    split; [exact Hs6|]. split; [exact Hfb6|].
    apply newEvents_app. cbn [trace]. rewrite Ht6. now rewrite <- app_assoc.
  - exists w6, t, t6. split; [reflexivity|].
    split; [exact Ht|]. split; [exact Htex6|]. split; [exact Hb6|].
    split; [intros i d Hi6 Hd; apply Hhit6; [now apply elem_of_faces | exact Hd]|].
    split; [rewrite Hm6; lia|].
    split; [exact Ho6|]. split; [exact Hs6|]. split; [exact Hfb6|].
    apply newEvents_app. rewrite Ht6. now rewrite app_nil_r.
Qed.

Lemma loadTexture_fills_the_six_faces_witness :
  exists w' t t',
    loadTexture (allFiles 2) Depth "cube" "hdr" (constructed 2 11)
      = (Done tt, w') /\
    textureOf (cubeMap (constructed 2 11)) Depth = Some t /\
    textureOf (cubeMap w') Depth = Some t' /\
    (forall i d, 0 <= i < 6 ->
       image2D (allFiles 2) (faceFile Depth "cube" "hdr" i) = Some d ->
       tex_faces t' !! (PositiveX + i) = Some (subImageOf Depth d)) /\
    tex_mipmapGenerations t' = (tex_mipmapGenerations t + 1)%nat.
Proof.
  assert (Reachable (constructed 2 11)) as Hr
    by (apply Reachable_constructed; vm_compute; reflexivity).
  destruct (loadTexture_fills_the_six_faces (allFiles 2) (constructed 2 11)
              Depth "cube" "hdr" Hr eq_refl eq_refl eq_refl)
    as (w' & t & t' & E & Ht & Ht' & _ & Hfaces & Hm & _).
  { intros i _. exists (flatImage 2 7). split; reflexivity. }
  { reflexivity. }
  exists w', t, t'. repeat (split; [assumption|]). exact Hm.
Defined.

(** X18.  [loadTexture] is not undone when it fails.  If the files of the
    faces before [k] hold square images of the current size (for depth, with
    a pixel count within [int]) and the file of face [k] cannot be read or
    is not square, the call stops at an assertion after opening [k + 1]
    files, and the faces before [k] of the texture hold the new images. *)
Theorem failed_load_keeps_the_faces_already_uploaded (env : Env) (w : World)
    (type : TextureType) (filePrefix ext : string) (k : Z) :
  Reachable w -> 0 < imageSize_ (cubeMap w) ->
  hasFlag (flags_ (cubeMap w)) (capability type) = true ->
  importerPlugin env = true ->
  0 <= k < 6 ->
  (forall i, 0 <= i < k ->
     squareFile env type filePrefix ext (imageSize_ (cubeMap w)) i) ->
  depthArrayOverflows type (imageSize_ (cubeMap w)) = false ->
  match image2D env (faceFile type filePrefix ext k) with
  | None => True
  | Some d => fst (img_size d) <> snd (img_size d)
  end ->
  exists msg w' t',
    loadTexture env type filePrefix ext w = (Fatal (AssertionFailed msg), w') /\
    textureOf (cubeMap w') type = Some t' /\
    (forall i d, 0 <= i < k ->
       image2D env (faceFile type filePrefix ext i) = Some d ->
       tex_faces t' !! (PositiveX + i) = Some (subImageOf type d)) /\
    openedFiles (newEvents w w')
      = map (faceFile type filePrefix ext) (seqZ 0 (k + 1)) /\
    uploadedFaces (newEvents w w') = map (Z.add PositiveX) (seqZ 0 k).
Proof.
  intros Hr Hp Hf Hi Hk Hsq Hov Hbad.
  destruct (Reachable_sound w Hr) as [_ C].
  assert (exists t, textureOf (cubeMap w) type = Some t) as (t & Ht).
  { destruct C as (_ & _ & _ & _ & Hpos).
    destruct (Hpos Hp) as (_ & _ & _ & Hcol & Hdep).
    destruct type; cbn in Hf.
    - rewrite Hf in Hcol. destruct Hcol as (id & Hb & _).
      destruct (textureOf (cubeMap w) Color); [eauto | discriminate].
    - rewrite Hf in Hdep. destruct Hdep as (id & Hb & _).
      destruct (textureOf (cubeMap w) Depth); [eauto | discriminate]. }
  pose proof (proj1 (textureOf_Some _ _ _) Ht) as Ht0.
  pose proof (pointee_of w type t C Ht0) as Hptr.
  set (ptr := tex_id t) in *.
  assert (Forall (squareFile env type filePrefix ext (imageSize_ (cubeMap w))) (seqZ 0 k)) as Hall.
  { apply Forall_seqZ. intros i Hi0. apply Hsq. lia. }
  set (wk := foldl (faceLoaded env type filePrefix ext ptr) w (seqZ 0 k)).
  (* the faces before [k] *)
  assert (exists acc,
    forEachWith (seqZ 0 k) 0 (loadFace env type filePrefix ext ptr) w
      = (Done acc, wk) /\ (k <> 0 -> acc = (imageSize_ (cubeMap w)))) as (acc & Eloop & Hacc).
  { destruct (Z.eq_dec k 0) as [->|Hne].
    - exists 0. split; [reflexivity | congruence].
    - exists (imageSize_ (cubeMap w)). split; [|reflexivity]. subst wk.
      rewrite (seqZ_cons 0 k) by lia. rewrite forEachWith_cons. cbn [foldl].
      destruct (Hsq 0 ltac:(lia)) as (d0 & Hd0 & Hsz0).
      rewrite (bind_Done _ _ _ _ _
                 (loadFace_exact env type filePrefix ext ptr 0 0 w d0 Hptr
                    ltac:(lia) Hd0 Hsz0 ltac:(intros H; now contradict H)
                    Hov)).
      destruct (faceLoaded_frame env type filePrefix ext ptr w 0)
        as (Hs & _ & _ & _ & _ & Hp' & _).
      rewrite <- Hs. apply loadLoop_exact.
      + apply Forall_seqZ. intros; lia.
      + now rewrite Hp'.
      + rewrite Hs. rewrite (seqZ_cons 0 k) in Hall by lia. now inversion Hall.
      + now rewrite Hs. }
  pose proof (loadedFaces_trace env type filePrefix ext ptr (seqZ 0 k) w Hall)
    as Htk. fold wk in Htk.
  destruct (loadedFaces_texture env type filePrefix ext ptr (seqZ 0 k) w t _
              Ht Hall) as (tk & Htexk & _ & _ & _ & Hhitk).
  fold wk in Htexk.
  (* face [k] *)
  assert (exists msg,
    loadFace env type filePrefix ext ptr k acc wk
      = (Fatal (AssertionFailed msg),
         opened (faceFile type filePrefix ext k) wk)) as (msg & Ek).
  { destruct (image2D env (faceFile type filePrefix ext k)) as [d|] eqn:Ed.
    - eexists. eapply loadFace_not_square; eauto.
    - eexists. now apply loadFace_unreadable. }
  exists msg, (opened (faceFile type filePrefix ext k) wk), tk.
  split.
  { rewrite (loadTexture_prelims env type filePrefix ext w t Hf Hi Ht0).
    fold ptr. erewrite bind_Fatal; [reflexivity|].
    unfold faces. replace 6 with (k + (6 - k)) by lia.
    rewrite seqZ_app by lia. rewrite Z.add_0_l, forEachWith_app.
    rewrite (bind_Done _ _ _ _ _ Eloop).
    rewrite (seqZ_cons k) by lia. rewrite forEachWith_cons.
    erewrite bind_Fatal; [reflexivity | exact Ek]. }
  split; [exact Htexk|].
  split.
  { intros i d Hik Hd. apply Hhitk; [|exact Hd]. apply elem_of_seqZ. lia. }
  assert (newEvents w (opened (faceFile type filePrefix ext k) wk)
          = flat_map (loadEventsOf env type filePrefix ext ptr) (seqZ 0 k)
            ++ [EvOpenFile (faceFile type filePrefix ext k)]) as ->.
  { apply newEvents_app. cbn [opened trace]. rewrite Htk.
    now rewrite <- app_assoc. }
  clear - Hall Hk.
  replace (k + 1) with (Z.of_nat (S (Z.to_nat k))) by lia.
  rewrite seqZ_S, map_app, Z2Nat.id by lia. cbn [map Z.add].
  unfold openedFiles, uploadedFaces. rewrite !omap_app. cbn [omap].
  rewrite app_nil_r. split; [f_equal|].
  - induction Hall as [|i l (d & Hd & _) _ IH]; [reflexivity|].
    cbn [flat_map map]. rewrite omap_app, IH.
    unfold loadEventsOf. rewrite Hd. reflexivity.
  - induction Hall as [|i l (d & Hd & _) _ IH]; [reflexivity|].
    cbn [flat_map map]. rewrite omap_app, IH.
    unfold loadEventsOf. rewrite Hd. reflexivity.
Qed.

Lemma failed_load_keeps_the_faces_already_uploaded_witness :
  exists msg w' t',
    loadTexture (missingFile "cube.rgba.+Y.png" 4) Color "cube" "png"
                (constructed 4 1)
      = (Fatal (AssertionFailed msg), w') /\
    textureOf (cubeMap w') Color = Some t' /\
    (forall i d, 0 <= i < 2 ->
       image2D (missingFile "cube.rgba.+Y.png" 4)
               (faceFile Color "cube" "png" i) = Some d ->
       tex_faces t' !! (PositiveX + i) = Some (subImageOf Color d)) /\
    openedFiles (newEvents (constructed 4 1) w')
      = ["cube.rgba.+X.png"; "cube.rgba.-X.png"; "cube.rgba.+Y.png"].
Proof.
  assert (Reachable (constructed 4 1)) as Hr
    by (apply Reachable_constructed; vm_compute; reflexivity).
  assert (forall i, 0 <= i < 2 ->
    squareFile (missingFile "cube.rgba.+Y.png" 4) Color "cube" "png"
      (imageSize_ (cubeMap (constructed 4 1))) i) as Hsq.
  { intros i Hi. exists (flatImage 4 7).
    assert (i = 0 \/ i = 1) as [-> | ->] by lia; split; reflexivity. }
  destruct (failed_load_keeps_the_faces_already_uploaded
              (missingFile "cube.rgba.+Y.png" 4) (constructed 4 1) Color
              "cube" "png" 2 Hr eq_refl eq_refl eq_refl ltac:(lia) Hsq
              eq_refl I)
    as (msg & w' & t' & E & Ht & Hfaces & Hopen & _).
  exists msg, w', t'. repeat (split; [assumption|]). exact Hopen.
Defined.

Lemma resizing_load_never_returns_witness :
  fst (loadTexture (allFiles 2) Color "cube" "png" (constructed 4 1))
    = Fatal (Undefined "texture used after its destruction").
Proof.
  assert (Reachable (constructed 4 1)) as Hr
    by (apply Reachable_constructed; vm_compute; reflexivity).
  assert (2 <> imageSize_ (cubeMap (constructed 4 1))) as Hne
    by (vm_compute; discriminate).
  exact (resizing_load_never_returns (allFiles 2) (constructed 4 1) Color
           "cube" "png" (newColorTexture 0 1 4) (flatImage 2 7) 2
           Hr eq_refl eq_refl eq_refl eq_refl eq_refl Hne eq_refl).
Defined.

(** *** The depth channel *)

Lemma depthImage_cons d row rows :
  img_rows d = row :: rows ->
  depthImage d
    = map (fun pixel => hd 0 pixel) row
      ++ depthImage {| img_size := img_size d; img_rows := rows |}.
Proof. intros E. unfold depthImage. rewrite E. reflexivity. Qed.

(** X20.  The array [loadTexture] builds for a depth face holds the first
    channel of every pixel, row after row: for an image whose rows all have
    the same width it has rows times width elements, and the element at
    [r * width + c] is the red channel of pixel [c] of row [r]. *)
Theorem depthImage_is_the_red_channel_row_by_row (d : ImageData)
    (width : nat) :
  Forall (fun row => length row = width) (img_rows d) ->
  length (depthImage d) = (length (img_rows d) * width)%nat /\
  forall (r c : nat) (row : list (list Z)) (pixel : list Z),
    img_rows d !! r = Some row -> row !! c = Some pixel ->
    depthImage d !! (r * width + c)%nat = Some (hd 0 pixel).
Proof.
  unfold depthImage. generalize (img_rows d) as rows. clear d.
  induction rows as [|row0 rows IH]; intros Hw.
  - split; [reflexivity|]. intros r c row pixel Hr. destruct r; discriminate.
  - inversion Hw as [|? ? Hrow0 Hrows]; subst.
    destruct (IH Hrows) as [IHlen IHat].
    cbn [flat_map length]. split.
    + rewrite length_app, length_map, IHlen. reflexivity.
    + intros r c row pixel Hr Hc. destruct r as [|r].
      * cbn in Hr. injection Hr as ->. cbn [Nat.mul Nat.add].
        rewrite lookup_app_l
          by (rewrite length_map; eapply lookup_lt_Some; eauto).
        rewrite list_lookup_fmap, Hc. reflexivity.
      * cbn in Hr.
        replace (S r * length row0 + c)%nat
          with (length (map (fun pixel => hd 0%Z pixel) row0)
                + (r * length row0 + c))%nat
          by (rewrite length_map; lia).
        rewrite lookup_app_r by lia.
        replace (_ + _ - _)%nat with (r * length row0 + c)%nat by lia.
        eapply IHat; eauto.
Qed.

Lemma depthImage_is_the_red_channel_row_by_row_witness :
  length (depthImage (flatImage 3 7)) = 9%nat /\
  depthImage (flatImage 3 7) !! 5%nat = Some 7.
Proof.
  assert (Forall (fun row => length row = 3%nat) (img_rows (flatImage 3 7)))
    as Hw by (repeat constructor).
  destruct (depthImage_is_the_red_channel_row_by_row (flatImage 3 7) 3 Hw)
    as [Hlen Hat].
  split; [exact Hlen|].
  exact (Hat 1%nat 2%nat [[7; 7; 7]; [7; 7; 7]; [7; 7; 7]] [7; 7; 7]
             eq_refl eq_refl).
Defined.

(** *** Rendering, face by face *)

(** X21.  [renderToTexture] checks the camera before it does anything: with
    a camera that is not in the scene graph, or whose viewport is not the
    size of the cube map in both directions, it stops at an assertion with
    the state untouched. *)
Theorem renderToTexture_checks_the_camera_first (env : Env)
    {Transform : Type} (faceTransformation : Transform -> Z -> Transform)
    (camera : CubeMapCamera Transform) (sceneGraph : SceneGraph) (flags : Z)
    (w : World) :
  (isInSceneGraph camera sceneGraph = false ->
   renderToTexture env faceTransformation camera sceneGraph flags w
     = (Fatal (AssertionFailed
          "CubeMap::renderToTexture(): camera is NOT attached to the current scene graph."),
        w)) /\
  (isInSceneGraph camera sceneGraph = true ->
   cam_viewport camera <> (imageSize_ (cubeMap w), imageSize_ (cubeMap w)) ->
   exists msg,
     renderToTexture env faceTransformation camera sceneGraph flags w
       = (Fatal (AssertionFailed msg), w)).
Proof.
  split.
  - intros Hsg. unfold renderToTexture. rewrite Hsg. reflexivity.
  - intros Hsg Hvp. unfold renderToTexture.
    rewrite Hsg, bind_assert_true, bind_gets.
    destruct (cam_viewport camera) as [x y]. cbn [fst snd].
    destruct (Z.eqb_spec x (imageSize_ (cubeMap w))) as [->|Hx];
      [destruct (Z.eqb_spec y (imageSize_ (cubeMap w))) as [->|Hy]|].
    + congruence.
    + eexists. reflexivity.
    + eexists. reflexivity.
Qed.

Lemma renderToTexture_checks_the_camera_first_witness :
  exists msg,
    renderToTexture (allFiles 2) sampleFaceTransformation (sampleCamera 4)
                    sampleScene 0 (constructed 2 11)
      = (Fatal (AssertionFailed msg), constructed 2 11).
Proof.
  apply (renderToTexture_checks_the_camera_first (allFiles 2)
           sampleFaceTransformation (sampleCamera 4) sampleScene 0
           (constructed 2 11)); [reflexivity|].
  vm_compute. discriminate.
Defined.

Section RenderingExactly.
Variable env : Env.
Context {Transform : Type}.
Variable faceTransformation : Transform -> Z -> Transform.
Variable sceneGraph : SceneGraph.
Variable flags : Z.
Hypothesis complete : forall fb, checkStatus env fb = true.

Lemma prepareToDraw_exact i w :
  0 <= i < 6 -> texturesPresent w ->
  prepareToDraw env i w
    = (Done tt,
       {| cubeMap := set_frameBuffer
            (fun f => boundToFace (depthTarget (cubeMap w)) f i) (cubeMap w);
          nextObject := nextObject w;
          trace := trace w ++ [EvClearDepth; EvClearColor 0] |}).
Proof.
  intros Hi Hp. unfold prepareToDraw, mapForDraw, CORRADE_INTERNAL_ASSERT.
  rewrite bind_setCubeMap, bind_gets. cbn [cubeMap set_frameBuffer flags_].
  unfold boundToFace, depthTarget.
  destruct (hasFlag (flags_ (cubeMap w)) DepthTexture) eqn:Hd.
  - destruct (Hp Depth Hd) as [t Ht].
    rewrite bind_assoc.
    rewrite (bind_Done _ _ _ _ _ (convertFaceIndex_ok i _ Hi)).
    cbv beta. rewrite bind_assoc.
    erewrite (bind_Done (textures_at Depth)); [|apply textures_at_present; exact Ht].
    cbn [deref]. rewrite bind_assoc, bind_ret, bind_setCubeMap.
    rewrite bind_emit, bind_emit, bind_gets, complete.
    unfold textureOf. rewrite Ht. cbn. now rewrite <- app_assoc.
  - rewrite bind_ret, bind_emit, bind_emit, bind_gets, complete.
    cbn. now rewrite <- app_assoc.
Qed.

Lemma drawGroups_exact (camera : CubeMapCamera Transform) groups w :
  forEach groups (fun it =>
      let* prepared := prepareForDraw it camera in
      if prepared || true then draw it flags camera else ret tt) w
    = (Done tt,
       traced (flat_map (fun group =>
                 [EvPrepareForDraw group; EvDraw group flags]) groups) w).
Proof.
  revert w. induction groups as [|g groups IH]; intros w; cbn [forEach flat_map].
  - now rewrite traced_nil.
  - unfold prepareForDraw at 1, draw at 1.
    rewrite bind_assoc, bind_assoc, bind_emit, bind_ret. cbn [orb].
    rewrite bind_emit, IH. unfold traced. cbn. now rewrite <- !app_assoc.
Qed.

Lemma renderFaces_exact l : Forall (fun i => 0 <= i < 6) l ->
  forall (camera : CubeMapCamera Transform) w,
  texturesPresent w ->
  exists camera',
    forEachWith l camera (renderFace env faceTransformation sceneGraph flags) w
      = (Done camera',
         {| cubeMap := set_frameBuffer
              (fun f => foldl (boundToFace (depthTarget (cubeMap w))) f l)
              (cubeMap w);
            nextObject := nextObject w;
            trace := trace w ++
              flat_map (renderEvents (getDrawableGroups sceneGraph) flags) l |}).
Proof.
  induction 1 as [|i l Hi Hl IH]; intros camera w Hp.
  - exists camera. cbn. rewrite app_nil_r. destruct w as [[? ? ? [] ?] ? ?].
    reflexivity.
  - rewrite forEachWith_cons. unfold renderFace at 1, switchToFace.
    rewrite !bind_assoc, bind_emit, bind_ret.
    rewrite bind_assoc.
    erewrite bind_Done; [|apply prepareToDraw_exact; [exact Hi | exact Hp]].
    rewrite bind_assoc. erewrite bind_Done; [|apply drawGroups_exact].
    rewrite bind_ret.
    match goal with
    | |- context [forEachWith l ?c _ ?w1] => destruct (IH c w1) as (camera' & E)
    end.
    { intros ty Hty. apply (Hp ty Hty). }
    exists camera'. rewrite E. unfold traced, renderEvents. cbn.
    rewrite <- !app_assoc. reflexivity.
Qed.
End RenderingExactly.

Lemma textureOf_set_frameBuffer f c type :
  textureOf (set_frameBuffer f c) type = textureOf c type.
Proof. reflexivity. Qed.

(** X22.  A render pass on an object of positive size, within its
    preconditions, makes these calls in this order: the camera's base
    orientation is captured and the framebuffer bound; then for each face
    from 0 to 5 the camera is turned to it, depth and colour are cleared,
    and every drawable group of the scene graph is prepared and drawn with
    the given flags, in the order of the scene graph; then the camera is
    restored, and the mip chain of the colour texture is regenerated exactly
    when the object was created with [BuildMipmap] and [ColorTexture].
    Afterwards the colour output is mapped to attachment 5, the face [-Z] of
    the depth texture is attached when there is depth output, the colour
    attachments are as before, and only the colour texture's mip chain has
    been regenerated. *)
Theorem renderToTexture_draws_every_group_on_every_face (env : Env)
    {Transform : Type} (faceTransformation : Transform -> Z -> Transform)
    (camera : CubeMapCamera Transform) (sceneGraph : SceneGraph) (flags : Z)
    (w : World) :
  Reachable w -> 0 < imageSize_ (cubeMap w) ->
  isInSceneGraph camera sceneGraph = true ->
  cam_viewport camera = (imageSize_ (cubeMap w), imageSize_ (cubeMap w)) ->
  (forall fb, checkStatus env fb = true) ->
  exists camera' w',
    renderToTexture env faceTransformation camera sceneGraph flags w
      = (Done camera', w') /\
    newEvents w w'
      = [EvUpdateOriginalViewingMatrix; EvBind] ++
        flat_map (renderEvents (getDrawableGroups sceneGraph) flags) faces ++
        [EvRestoreTransformation] ++ colorMipmapEvents (cubeMap w) /\
    fb_drawMapping (frameBuffer_ (cubeMap w')) = [(ColorOutput, 5)] /\
    fb_depth (frameBuffer_ (cubeMap w'))
      = match depthTarget (cubeMap w) with
        | Some tex => Some (DepthOfTexture tex (PositiveX + 5) 0)
        | None => fb_depth (frameBuffer_ (cubeMap w))
        end /\
    fb_color (frameBuffer_ (cubeMap w')) = fb_color (frameBuffer_ (cubeMap w)) /\
    forall type,
      tex_mipmapGenerations <$> textureOf (cubeMap w') type
        = (fun t =>
             match type with
             | Color =>
                 (tex_mipmapGenerations t
                  + if buildsMipmap (cubeMap w) then 1 else 0)%nat
             | Depth => tex_mipmapGenerations t
             end) <$> textureOf (cubeMap w) type.
Proof.
  intros Hr Hpos Hsg Hvp Hcomplete.
  destruct (Reachable_sound w Hr) as [_ C].
  pose proof (consistent_texturesPresent w C Hpos) as Hp.
  unfold renderToTexture. rewrite Hsg, bind_assert_true, bind_gets, Hvp.
  cbn [fst snd]. rewrite Z.eqb_refl. cbn [andb]. rewrite bind_assert_true.
  unfold updateOriginalViewingMatrix.
  rewrite bind_assoc, bind_emit, bind_ret, bind_emit.
  match goal with
  | |- context [bind (forEachWith faces ?c _) _ ?w1] =>
      destruct (renderFaces_exact env faceTransformation sceneGraph flags
                  Hcomplete faces faces_range c w1) as (cam1 & E1)
  end.
  { intros ty Hty. apply (Hp ty Hty). }
  rewrite (bind_Done _ _ _ _ _ E1).
  unfold restoreTransformation. rewrite bind_assoc, bind_emit, bind_ret, bind_gets.
  cbn [cubeMap set_frameBuffer flags_ trace nextObject].
  fold (buildsMipmap (cubeMap w)). unfold colorMipmapEvents.
  assert (fb_drawMapping
            (foldl (boundToFace (depthTarget (cubeMap w)))
               (frameBuffer_ (cubeMap w)) faces) = [(ColorOutput, 5)]) as Hmap.
  { change faces with [0; 1; 2; 3; 4; 5]. unfold boundToFace.
    destruct (depthTarget (cubeMap w)); reflexivity. }
  assert (fb_depth
            (foldl (boundToFace (depthTarget (cubeMap w)))
               (frameBuffer_ (cubeMap w)) faces)
          = match depthTarget (cubeMap w) with
            | Some tex => Some (DepthOfTexture tex (PositiveX + 5) 0)
            | None => fb_depth (frameBuffer_ (cubeMap w))
            end) as Hdep.
  { change faces with [0; 1; 2; 3; 4; 5]. unfold boundToFace.
    destruct (depthTarget (cubeMap w)); reflexivity. }
  assert (fb_color
            (foldl (boundToFace (depthTarget (cubeMap w)))
               (frameBuffer_ (cubeMap w)) faces)
          = fb_color (frameBuffer_ (cubeMap w))) as Hcol.
  { change faces with [0; 1; 2; 3; 4; 5]. unfold boundToFace.
    destruct (depthTarget (cubeMap w)); reflexivity. }
  destruct (buildsMipmap (cubeMap w)) eqn:Hb.
  - assert (hasFlag (flags_ (cubeMap w)) ColorTexture = true) as Hc
      by (unfold buildsMipmap in Hb; now apply andb_prop in Hb).
    destruct (Hp Color Hc) as [t Ht].
    rewrite bind_assoc.
    erewrite (bind_Done (textures_at Color)); [|apply textures_at_present; exact Ht].
    cbn [deref]. rewrite bind_assoc, bind_ret.
    erewrite bind_Done;
      [|apply (generateMipmap_exact _ Color); apply pointee_color; exact Ht].
    rewrite (proj2 (textureOf_Some _ _ _) Ht).
    eexists _, _. split; [reflexivity|]. cbn [cubeMap trace frameBuffer_].
    split; [apply newEvents_app; rewrite <- !app_assoc; reflexivity|].
    split; [exact Hmap|]. split; [exact Hdep|]. split; [exact Hcol|].
    intros type. rewrite textureOf_alter, textureOf_set_frameBuffer.
    destruct type; [rewrite decide_True by reflexivity
                   |rewrite decide_False by discriminate];
      destruct (textureOf (cubeMap w) _) as [u|]; cbn; try reflexivity.
    rewrite Nat.add_1_r. reflexivity.
  - rewrite bind_ret. eexists _, _. split; [reflexivity|].
    cbn [cubeMap trace frameBuffer_ set_frameBuffer].
    split; [apply newEvents_app; rewrite <- !app_assoc, app_nil_r; reflexivity|].
    split; [exact Hmap|]. split; [exact Hdep|]. split; [exact Hcol|].
    intros type. rewrite textureOf_set_frameBuffer.
    destruct type; destruct (textureOf (cubeMap w) _) as [u|]; cbn;
      try reflexivity.
    rewrite Nat.add_0_r. reflexivity.
Qed.

Lemma renderToTexture_draws_every_group_on_every_face_witness :
  exists camera' w',
    renderToTexture (allFiles 2) sampleFaceTransformation (sampleCamera 2)
                    sampleScene 0 (constructed 2 11)
      = (Done camera', w') /\
    newEvents (constructed 2 11) w'
      = [EvUpdateOriginalViewingMatrix; EvBind] ++
        flat_map (renderEvents ["stage"; "objects"] 0) faces ++
        [EvRestoreTransformation; EvGenerateMipmap 0] /\
    fb_depth (frameBuffer_ (cubeMap w')) = Some (DepthOfTexture 1 34074 0).
Proof.
  assert (Reachable (constructed 2 11)) as Hr
    by (apply Reachable_constructed; vm_compute; reflexivity).
  destruct (renderToTexture_draws_every_group_on_every_face (allFiles 2)
              sampleFaceTransformation (sampleCamera 2) sampleScene 0
              (constructed 2 11) Hr eq_refl eq_refl eq_refl (fun _ => eq_refl))
    as (camera' & w' & E & Hev & _ & Hd & _).
  exists camera', w'. split; [exact E|]. split; [exact Hev | exact Hd].
Defined.

(** *** A load that resizes the object *)

Lemma textures_at_none w type :
  textureOf (cubeMap w) type = None ->
  exists w1,
    textures_at type w = (Done None, w1) /\
    imageSize_ (cubeMap w1) = imageSize_ (cubeMap w) /\
    trace w1 = trace w.
Proof.
  intros Hn. unfold textureOf in Hn.
  destruct (textures_ (cubeMap w) !! type) as [[t|]|] eqn:E; [discriminate| |].
  - exists w. split; [now apply textures_at_present | auto].
  - eexists. split; [now apply textures_at_absent | auto].
Qed.

(** C6 (the code departs from the specification).  Specified: when the
    first face is a square of an edge [T] other than the current size, the
    size becomes [T] before any face is uploaded, and the load goes on.  In
    the code the resize takes away the texture the load uploads to:
    [texture] is taken from [textures_] before the loop, [reset] replaces
    the textures at the first face, and the upload of that face goes through
    the pointer taken before.  So for every positive [T] other than the
    current size the call does not return.  On an object of positive size
    the reset returns with the size [T], the pointer then points to no
    texture the object owns, and the upload through it is undefined (for a
    depth face whose pixel count is beyond [int], the product before it).
    On the object of size 0 that the constructor returns for [imageSize = 0],
    the call stops at the assertion on the texture pointer before any file
    is opened, and the size stays 0. *)
Theorem loadTexture_resize_destroys_the_upload_target (env : Env) (w : World)
    (type : TextureType) (filePrefix ext : string) (d : ImageData) (T : Z) :
  Reachable w ->
  hasFlag (flags_ (cubeMap w)) (capability type) = true ->
  importerPlugin env = true ->
  image2D env (faceFile type filePrefix ext 0) = Some d ->
  img_size d = (T, T) -> T <> imageSize_ (cubeMap w) -> 0 < T ->
  let run := loadTexture env type filePrefix ext w in
  (forall a, fst run <> Done a) /\
  (0 < imageSize_ (cubeMap w) ->
   exists t w1,
     textures_ (cubeMap w) !! type = Some (Some t) /\
     reset T (opened (faceFile type filePrefix ext 0) w) = (Done true, w1) /\
     imageSize_ (cubeMap w1) = T /\
     pointee (cubeMap w1) (tex_id t) = None /\
     fst run = Fatal (resizingLoadFailure type T)) /\
  (imageSize_ (cubeMap w) = 0 ->
   fst run
     = Fatal (AssertionFailed "CubeMap::loadTexture(): Unknown texture type.") /\
   imageSize_ (cubeMap (snd run)) = 0 /\
   newEvents w (snd run) = []).
Proof.
  intros Hr Hf Hi E Hsz Hne Hpos. cbn zeta.
  destruct (Reachable_sound w Hr) as [Ho C].
  assert (0 < imageSize_ (cubeMap w) ->
          exists t w1,
            textures_ (cubeMap w) !! type = Some (Some t) /\
            reset T (opened (faceFile type filePrefix ext 0) w)
              = (Done true, w1) /\
            imageSize_ (cubeMap w1) = T /\
            pointee (cubeMap w1) (tex_id t) = None /\
            fst (loadTexture env type filePrefix ext w)
              = Fatal (resizingLoadFailure type T)) as Sized.
  { intros Hp.
    destruct (consistent_texturesPresent w C Hp type Hf) as [t Ht].
    destruct (resize_leaves_pointer_dangling w type t T
                (faceFile type filePrefix ext 0) Ho Ht Hne Hpos)
      as (w1 & E1 & S1 & Hdangling).
    exists t, w1. repeat (split; [assumption|]).
    now apply (resizing_load_outcome env w type filePrefix ext t d T w1). }
  assert (imageSize_ (cubeMap w) = 0 ->
          fst (loadTexture env type filePrefix ext w)
            = Fatal (AssertionFailed
                       "CubeMap::loadTexture(): Unknown texture type.") /\
          imageSize_ (cubeMap (snd (loadTexture env type filePrefix ext w)))
            = 0 /\
          newEvents w (snd (loadTexture env type filePrefix ext w)) = [])
    as Empty.
  { intros Hz. destruct C as (_ & _ & _ & Hzero & _).
    destruct (Hzero Hz) as [_ Hnone].
    destruct (textures_at_none w type (Hnone type)) as (w1 & E1 & S1 & T1).
    assert (loadTexture env type filePrefix ext w
            = (Fatal (AssertionFailed
                        "CubeMap::loadTexture(): Unknown texture type."), w1))
      as ->.
    { unfold loadTexture, CORRADE_INTERNAL_ASSERT.
      rewrite bind_gets, bind_sanityCheck, Hf, Hi, bind_assert_true.
      destruct type; now rewrite (bind_Done _ _ _ _ _ E1). }
    cbn [fst snd]. split; [reflexivity|]. split; [congruence|].
    apply newEvents_app. now rewrite app_nil_r. }
  split; [|split; assumption].
  intros a Ha. destruct C as (H0 & _).
  destruct (Z.eq_dec (imageSize_ (cubeMap w)) 0) as [Hz|Hnz].
  - destruct (Empty Hz) as [Ef _]. congruence.
  - destruct (Sized ltac:(lia)) as (t & w1 & _ & _ & _ & _ & Ef). congruence.
Qed.

Lemma loadTexture_resize_destroys_the_upload_target_witness :
  let run := loadTexture (allFiles 2) Color "cube" "png" (constructed 4 1) in
  (forall a, fst run <> Done a) /\
  fst run = Fatal (Undefined "texture used after its destruction").
Proof.
  assert (Reachable (constructed 4 1)) as Hr
    by (apply Reachable_constructed; vm_compute; reflexivity).
  assert (2 <> imageSize_ (cubeMap (constructed 4 1))) as Hne
    by (vm_compute; discriminate).
  destruct (loadTexture_resize_destroys_the_upload_target (allFiles 2)
              (constructed 4 1) Color "cube" "png" (flatImage 2 7) 2
              Hr eq_refl eq_refl eq_refl eq_refl Hne eq_refl)
    as (Hn & Hsized & _).
  split; [exact Hn|].
  destruct (Hsized eq_refl) as (t & w1 & _ & _ & _ & _ & Ef). exact Ef.
Defined.

(** *** Calls that stay defined *)

Lemma Triple_ret P {A} (a : A) (Q : A -> World -> Prop) :
  (forall w, P w -> Q a w) -> Triple P (ret a) Q.
Proof. intros H w Hw. cbn. auto. Qed.

Lemma Triple_bind P {A B} (c : Op A) (k : A -> Op B) R Q :
  Triple P c R -> (forall a, Triple (R a) (k a) Q) -> Triple P (bind c k) Q.
Proof.
  intros Hc Hk w Hw. specialize (Hc w Hw). unfold bind.
  destruct (c w) as [[a|e] w1]; [|exact Hc]. apply (Hk a w1 Hc).
Qed.

Lemma Triple_conseq (P P' : World -> Prop) {A} (op : Op A)
    (Q Q' : A -> World -> Prop) :
  (forall w, P' w -> P w) -> (forall a w, Q a w -> Q' a w) ->
  Triple P op Q -> Triple P' op Q'.
Proof.
  intros HP HQ H w Hw. specialize (H w (HP w Hw)).
  destruct (op w) as [[a|e] w1]; auto.
Qed.

Lemma Triple_gets P {A} (f : World -> A) :
  Triple P (gets f) (fun a w => P w /\ a = f w).
Proof. intros w Hw. cbn. auto. Qed.

Lemma Triple_assert P b msg :
  Triple P (CORRADE_ASSERT b msg) (fun _ w => P w /\ b = true).
Proof. intros w Hw. destruct b; cbn; auto. Qed.

Lemma Triple_forEachReturn (I : World -> Prop) {A R} (l : list A)
    (body : A -> Op (option R)) :
  (forall x, In x l -> Triple I (body x) (fun _ => I)) ->
  Triple I (forEachReturn l body) (fun _ => I).
Proof.
  induction l as [|x l IH]; intros Hb; cbn [forEachReturn].
  - apply Triple_ret. auto.
  - eapply Triple_bind; [apply Hb; now left|].
    intros [r|]; [apply Triple_ret; auto|].
    apply IH. intros y Hy. apply Hb. now right.
Qed.

Lemma Triple_forEachWith {S} (I : S -> World -> Prop) {A} (l : list A)
    (body : A -> S -> Op S) :
  (forall x s, In x l -> Triple (I s) (body x s) I) ->
  forall s, Triple (I s) (forEachWith l s body) I.
Proof.
  induction l as [|x l IH]; intros Hb s; cbn [forEachWith].
  - apply Triple_ret. auto.
  - eapply Triple_bind; [apply Hb; now left|].
    intros s'. apply IH. intros y s2 Hy. apply Hb. now right.
Qed.

Lemma Triple_defined P {A} (op : Op A) Q w :
  Triple P op Q -> P w -> forall what, fst (op w) <> Fatal (Undefined what).
Proof.
  intros H Hw what E. specialize (H w Hw).
  destruct (op w) as [[a|e] w1]; cbn in E; [discriminate|].
  injection E as ->. exact H.
Qed.

Lemma Triple_seq (P : World -> Prop) {A B} (c : Op A) (k : A -> Op B) Q :
  Triple P c (fun _ => P) -> (forall a, Triple P (k a) Q) ->
  Triple P (bind c k) Q.
Proof. apply Triple_bind. Qed.

Lemma Triple_pure (P : World -> Prop) {A} (c : Op A) :
  (forall w, exists a, c w = (Done a, w)) -> Triple P c (fun _ => P).
Proof. intros H w Hw. destruct (H w) as [a E]. rewrite E. exact Hw. Qed.

Lemma Triple_check (P : World -> Prop) b msg :
  Triple P (CORRADE_ASSERT b msg) (fun _ => P).
Proof. intros w Hw. destruct b; [exact Hw | exact I]. Qed.

Lemma Triple_fatal P {A} msg (Q : A -> World -> Prop) :
  Triple P (fatal (AssertionFailed msg)) Q.
Proof. intros w _. exact I. Qed.

Lemma Triple_emit (P : World -> Prop) e :
  (forall w, P w -> P (traced [e] w)) -> Triple P (emit e) (fun _ => P).
Proof. intros H w Hw. apply (H w Hw). Qed.

(** **** Calls on an object whose textures are there *)

Lemma Triple_pure_emit {A} e (a : A) :
  Triple texturesPresent (emit e ;;; ret a) (fun _ => texturesPresent).
Proof. intros w Hw. exact Hw. Qed.


Lemma T_prepareToDraw env i :
  Triple texturesPresent (prepareToDraw env i) (fun _ => texturesPresent).
Proof.
  intros w Hp. unfold prepareToDraw, mapForDraw, CORRADE_INTERNAL_ASSERT.
  rewrite bind_setCubeMap, bind_gets. cbn [cubeMap set_frameBuffer flags_].
  destruct (hasFlag (flags_ (cubeMap w)) DepthTexture) eqn:Hd.
  - destruct (Hp Depth Hd) as [t Ht]. rewrite bind_assoc.
    unfold convertFaceIndexToCubeMapCoordinate at 1. cbv zeta.
    destruct (Z.ltb_spec (UnsignedInt i) 6).
    + rewrite bind_assoc, bind_assert_true, bind_ret. rewrite bind_assoc.
      erewrite (bind_Done (textures_at Depth));
        [|apply textures_at_present; exact Ht].
      cbn [deref]. rewrite bind_assoc, bind_ret, bind_setCubeMap.
      rewrite bind_emit, bind_emit, bind_gets.
      destruct (checkStatus env _); [exact Hp | exact I].
    + rewrite bind_assoc, bind_assert_false. exact I.
  - rewrite bind_ret, bind_emit, bind_emit, bind_gets.
    destruct (checkStatus env _); [exact Hp | exact I].
Qed.

Lemma T_renderFace env {T} (ft : T -> Z -> T) sg flags i cam :
  Triple texturesPresent (renderFace env ft sg flags i cam)
    (fun _ => texturesPresent).
Proof.
  unfold renderFace, switchToFace.
  apply Triple_seq.
  { apply Triple_seq; [apply Triple_emit; intros w Hw; exact Hw|].
    intros u. apply Triple_ret. auto. }
  intros cam1.
  apply Triple_seq; [apply T_prepareToDraw|]. intros u.
  apply Triple_seq.
  { intros w Hw. rewrite drawGroups_exact. exact Hw. }
  intros u'. apply Triple_ret. auto.
Qed.

Lemma T_colorMipmap {A} (a : A) :
  Triple texturesPresent
    (let* c := gets cubeMap in
     (if hasFlag (flags_ c) BuildMipmap && hasFlag (flags_ c) ColorTexture
      then let* p := textures_at Color in
           let* t := deref p in generateMipmap (tex_id t)
      else ret tt) ;;; ret a)
    (fun _ => texturesPresent).
Proof.
  intros w Hp. rewrite bind_gets.
  destruct (hasFlag (flags_ (cubeMap w)) BuildMipmap); cbn [andb];
    [|exact Hp].
  destruct (hasFlag (flags_ (cubeMap w)) ColorTexture) eqn:Hc; [|exact Hp].
  destruct (Hp Color Hc) as [t Ht].
  rewrite bind_assoc.
  erewrite (bind_Done (textures_at Color)); [|apply textures_at_present; exact Ht].
  cbn [deref]. rewrite bind_assoc, bind_ret.
  erewrite bind_Done;
    [|apply (generateMipmap_exact _ Color); apply pointee_color; exact Ht].
  intros ty Hty. destruct (Hp ty Hty) as [u Hu].
  cbn. destruct ty.
  - rewrite lookup_alter_eq, Ht. eauto.
  - rewrite lookup_alter_ne by discriminate. eauto.
Qed.

Lemma T_renderToTexture env {T} (ft : T -> Z -> T) cam sg flags :
  Triple texturesPresent (renderToTexture env ft cam sg flags)
    (fun _ => texturesPresent).
Proof.
  unfold renderToTexture, updateOriginalViewingMatrix, restoreTransformation.
  apply Triple_seq; [apply Triple_check|]. intros u.
  apply Triple_seq; [apply Triple_pure; intros w; eexists; reflexivity|].
  intros c. cbv zeta.
  apply Triple_seq; [apply Triple_check|]. intros u1.
  apply Triple_seq; [apply Triple_pure_emit|]. intros cam1.
  apply Triple_seq; [apply Triple_emit; intros w Hw; exact Hw|]. intros u2.
  apply Triple_seq;
    [apply (Triple_forEachWith (fun _ => texturesPresent)); intros;
     apply T_renderFace|].
  intros cam2.
  apply Triple_seq; [apply Triple_pure_emit|]. intros cam3.
  apply T_colorMipmap.
Qed.

Lemma T_saveTexture env type pre :
  Triple texturesPresent (saveTexture env type pre) (fun _ => texturesPresent).
Proof.
  intros w Hp. unfold saveTexture. rewrite bind_gets, bind_sanityCheck.
  destruct (hasFlag (flags_ (cubeMap w)) (capability type)) eqn:Hf; [|exact I].
  destruct (converterPlugin env); cbn [negb]; [|exact Hp].
  destruct (Hp type Hf) as [t Ht].
  assert (Triple
            (fun w1 => cubeMap w1 = cubeMap w)
            (forEachReturn faces (saveFace env type pre))
            (fun _ w1 => cubeMap w1 = cubeMap w)) as L.
  { apply Triple_forEachReturn. intros i Hi w1 E.
    rewrite (saveFace_exact env type pre i w1 t);
      [|rewrite E; exact Ht | now apply In_faces].
    destruct (exportToFile env _); exact E. }
  specialize (L w eq_refl). unfold bind.
  destruct (forEachReturn faces (saveFace env type pre) w) as [[r|e] w1];
    [|exact L].
  assert (texturesPresent w1) as Hp1.
  { unfold texturesPresent. rewrite L. exact Hp. }
  destruct r; exact Hp1.
Qed.

Lemma T_getTexture type :
  Triple texturesPresent (getTexture type) (fun _ => texturesPresent).
Proof.
  intros w Hp. unfold getTexture. rewrite bind_gets, bind_sanityCheck.
  destruct (hasFlag (flags_ (cubeMap w)) (capability type)) eqn:Hf; [|exact I].
  destruct (Hp type Hf) as [t Ht].
  rewrite (bind_Done _ _ _ _ _ (textures_at_present _ _ _ Ht)). exact Hp.
Qed.

Lemma reset_defined edge w what : fst (reset edge w) <> Fatal (Undefined what).
Proof.
  destruct (Z.eq_dec edge (imageSize_ (cubeMap w))) as [->|Hne].
  - now rewrite reset_same.
  - destruct (Z_lt_le_dec 0 edge) as [Hpos|Hle].
    + destruct (reset_resize w edge Hne Hpos) as (w1 & new & E1 & _).
      now rewrite E1.
    + now rewrite (reset_illegal w edge Hne Hle).
Qed.

(** **** The face loop of [loadTexture] while the pointer is good *)

Lemma Triple_forEachWith_cons P {A S} (x : A) (l : list A) (s : S)
    (body : A -> S -> Op S) R Q :
  Triple P (body x s) R ->
  (forall s', Triple (R s') (forEachWith l s' body) Q) ->
  Triple P (forEachWith (x :: l) s body) Q.
Proof. intros H1 H2. cbn [forEachWith]. eapply Triple_bind; eauto. Qed.


Lemma pointee_live c type t :
  textures_ c !! type = Some (Some t) ->
  exists ty, pointee c (tex_id t) = Some ty.
Proof.
  intros Ht. unfold pointee. cbn [List.find].
  destruct type.
  - rewrite Ht, Nat.eqb_refl. eauto.
  - destruct (textures_ c !! Color) as [[t1|]|];
      [destruct (Nat.eqb (tex_id t1) (tex_id t)); [eauto|]| |];
      rewrite Ht, Nat.eqb_refl; eauto.
Qed.

Lemma thenUpload_live type ptr i edge d :
  depthArrayOverflows type edge = false ->
  Triple (live ptr) (thenUpload type ptr i edge d)
    (fun a w => live ptr w /\ a = edge).
Proof.
  intros Hov w [ty Hp]. unfold thenUpload. rewrite Hov.
  rewrite (bind_Done _ _ _ _ _ (setSubImage_exact _ ty _ _ _ Hp)).
  split; [|reflexivity]. exists ty. cbn [cubeMap]. now rewrite pointee_uploaded.
Qed.

Lemma T_loadFace_later env type pre ext ptr i edge :
  0 < i < 6 -> depthArrayOverflows type edge = false ->
  Triple (live ptr) (loadFace env type pre ext ptr i edge)
    (fun a w => live ptr w /\ a = edge).
Proof.
  intros Hi Hov w Hl.
  destruct (image2D env (faceFile type pre ext i)) as [d|] eqn:Hd.
  2: { now rewrite (loadFace_unreadable _ _ _ _ _ _ _ _ Hd). }
  destruct (Z.eq_dec (fst (img_size d)) (snd (img_size d))) as [Hsq|Hnsq].
  2: { now rewrite (loadFace_not_square _ _ _ _ _ _ _ _ d Hd Hnsq). }
  destruct (Z.eq_dec (fst (img_size d)) edge) as [He|Hne].
  2: { rewrite (loadFace_other_size _ _ _ _ _ _ _ _ d Hd Hsq) by lia.
       exact I. }
  assert (img_size d = (edge, edge)) as Hsz
    by (destruct (img_size d); cbn in *; congruence).
  rewrite (loadFace_later _ _ _ _ _ _ _ _ d Hd Hsz Hi).
  apply (thenUpload_live type ptr i edge d Hov). exact Hl.
Qed.

Lemma T_loadFace_first env type pre ext ptr acc edge :
  depthArrayOverflows type edge = false ->
  (forall d, image2D env (faceFile type pre ext 0) = Some d ->
     fst (img_size d) = snd (img_size d) ->
     fst (img_size d) <> edge -> fst (img_size d) <= 0) ->
  Triple (fun w => live ptr w /\ imageSize_ (cubeMap w) = edge)
    (loadFace env type pre ext ptr 0 acc)
    (fun a w => live ptr w /\ a = edge).
Proof.
  intros Hov Hsame w [Hl Hs].
  destruct (image2D env (faceFile type pre ext 0)) as [d|] eqn:Hd.
  2: { now rewrite (loadFace_unreadable _ _ _ _ _ _ _ _ Hd). }
  destruct (Z.eq_dec (fst (img_size d)) (snd (img_size d))) as [Hsq|Hnsq].
  2: { now rewrite (loadFace_not_square _ _ _ _ _ _ _ _ d Hd Hnsq). }
  specialize (Hsame d eq_refl Hsq).
  assert (img_size d = (fst (img_size d), fst (img_size d))) as Hsz
    by (destruct (img_size d); cbn in *; congruence).
  rewrite (loadFace_first _ _ _ _ _ _ _ d _ Hd Hsz).
  destruct (Z.eq_dec (fst (img_size d)) edge) as [He|Hne].
  - rewrite He.
    assert (reset edge (opened (faceFile type pre ext 0) w)
            = (Done false, opened (faceFile type pre ext 0) w)) as Er
      by (rewrite <- Hs; apply (reset_same (opened _ w))).
    rewrite (bind_Done _ _ _ _ _ Er).
    apply (thenUpload_live type ptr 0 edge d Hov). exact Hl.
  - assert (fst (img_size d)
            <> imageSize_ (cubeMap (opened (faceFile type pre ext 0) w)))
      as Hne' by (cbn; congruence).
    now rewrite (bind_Fatal _ _ _ _ _ (reset_illegal _ _ Hne' (Hsame Hne))).
Qed.

Lemma T_loadLoop env type pre ext ptr edge :
  depthArrayOverflows type edge = false ->
  (forall d, image2D env (faceFile type pre ext 0) = Some d ->
     fst (img_size d) = snd (img_size d) ->
     fst (img_size d) <> edge -> fst (img_size d) <= 0) ->
  Triple (fun w => live ptr w /\ imageSize_ (cubeMap w) = edge)
    (forEachWith faces 0 (loadFace env type pre ext ptr)) (fun _ => live ptr).
Proof.
  intros Hov Hsame. rewrite faces_unfold.
  eapply Triple_forEachWith_cons;
    [apply (T_loadFace_first _ _ _ _ _ _ edge Hov Hsame)|].
  intros size.
  eapply Triple_conseq with
    (P := fun w => live ptr w /\ size = edge)
    (Q := fun a w => live ptr w /\ a = edge); [auto | tauto |].
  apply (Triple_forEachWith (fun s w => live ptr w /\ s = edge)).
  intros i s Hi w [Hl ->].
  apply (T_loadFace_later env type pre ext ptr i edge); [cbn in Hi; lia | |];
    assumption.
Qed.

Lemma T_generateMipmap ptr :
  Triple (live ptr) (generateMipmap ptr) (fun _ _ => True).
Proof.
  intros w [ty Hp]. now rewrite (generateMipmap_exact _ ty) by exact Hp.
Qed.

(** X23.  On an object of positive size no call dereferences a null
    texture pointer or uses a destroyed texture, apart from [loadTexture]:
    [reset], [getTexture], [saveTexture] and [renderToTexture] return or
    stop at an assertion, whatever their arguments and whatever the
    plugins, the exporter and the framebuffer do. *)
Theorem calls_on_a_sized_object_are_defined (env : Env) {Transform : Type}
    (faceTransformation : Transform -> Z -> Transform)
    (camera : CubeMapCamera Transform) (sceneGraph : SceneGraph)
    (flags edge : Z) (w : World) (type : TextureType)
    (imageFilePrefix : string) :
  Reachable w -> 0 < imageSize_ (cubeMap w) ->
  forall what,
    fst (reset edge w) <> Fatal (Undefined what) /\
    fst (getTexture type w) <> Fatal (Undefined what) /\
    fst (saveTexture env type imageFilePrefix w) <> Fatal (Undefined what) /\
    fst (renderToTexture env faceTransformation camera sceneGraph flags w)
      <> Fatal (Undefined what).
Proof.
  intros Hr Hpos what. destruct (Reachable_sound w Hr) as [_ C].
  pose proof (consistent_texturesPresent w C Hpos) as Hp.
  split; [apply reset_defined|].
  split; [apply (Triple_defined _ _ _ _ (T_getTexture type) Hp)|].
  split; [apply (Triple_defined _ _ _ _ (T_saveTexture env type _) Hp)|].
  apply (Triple_defined _ _ _ _
           (T_renderToTexture env faceTransformation camera sceneGraph flags) Hp).
Qed.

Lemma calls_on_a_sized_object_are_defined_witness :
  let w := constructed 2 11 in
  let what := "null pointer dereferenced" in
  fst (reset 3 w) <> Fatal (Undefined what) /\
  fst (getTexture Depth w) <> Fatal (Undefined what) /\
  fst (saveTexture (allFiles 2) Depth "cube" w) <> Fatal (Undefined what) /\
  fst (renderToTexture (allFiles 2) sampleFaceTransformation (sampleCamera 2)
         sampleScene 0 w) <> Fatal (Undefined what).
Proof.
  apply (calls_on_a_sized_object_are_defined (allFiles 2)
           sampleFaceTransformation (sampleCamera 2) sampleScene 0 3
           (constructed 2 11) Depth "cube").
  - apply Reachable_constructed. vm_compute. reflexivity.
  - vm_compute. reflexivity.
Defined.

(** X24.  [loadTexture] is undefined only when it resizes the object or
    overflows the pixel count of a depth face: if a call runs into
    undefined behaviour, then the object was created with the type, the
    importer was loaded, the object owned a texture of the type, and either
    the file of the first face held a square image of another, positive
    size than the object, or the load is a depth load on an object whose
    edge squared is beyond [int].  In every other case the call returns or
    stops at an assertion. *)
Theorem loadTexture_is_undefined_only_by_resize_or_overflow (env : Env)
    (w : World) (type : TextureType)
    (imageFilePrefix imageFileExtension what : string) :
  fst (loadTexture env type imageFilePrefix imageFileExtension w)
    = Fatal (Undefined what) ->
  hasFlag (flags_ (cubeMap w)) (capability type) = true /\
  importerPlugin env = true /\
  (exists t, textures_ (cubeMap w) !! type = Some (Some t)) /\
  ((exists d T,
      image2D env (faceFile type imageFilePrefix imageFileExtension 0)
        = Some d /\
      img_size d = (T, T) /\ T <> imageSize_ (cubeMap w) /\ 0 < T) \/
   depthArrayOverflows type (imageSize_ (cubeMap w)) = true).
Proof.
  intros H.
  destruct (hasFlag (flags_ (cubeMap w)) (capability type)) eqn:Hf.
  2: { unfold loadTexture in H.
       rewrite bind_gets, bind_sanityCheck, Hf in H. discriminate. }
  destruct (importerPlugin env) eqn:Hi.
  2: { now rewrite (loadTexture_importer_missing _ _ _ _ _ Hf Hi) in H. }
  destruct (textures_ (cubeMap w) !! type) as [[t|]|] eqn:Ht.
  2: { unfold loadTexture, CORRADE_INTERNAL_ASSERT in H.
       rewrite bind_gets, bind_sanityCheck, Hf, Hi, bind_assert_true in H.
       destruct type;
         rewrite (bind_Done _ _ _ _ _ (textures_at_present _ _ _ Ht)) in H;
         discriminate. }
  2: { unfold loadTexture, CORRADE_INTERNAL_ASSERT in H.
       rewrite bind_gets, bind_sanityCheck, Hf, Hi, bind_assert_true in H.
       destruct type;
         rewrite (bind_Done _ _ _ _ _ (textures_at_absent _ _ Ht)) in H;
         discriminate. }
  split; [reflexivity|]. split; [reflexivity|]. split; [eauto|].
  set (name := faceFile type imageFilePrefix imageFileExtension 0) in *.
  destruct (depthArrayOverflows type (imageSize_ (cubeMap w))) eqn:Hov;
    [now right|]. left.
  assert ((exists d T, image2D env name = Some d /\ img_size d = (T, T) /\
                       T <> imageSize_ (cubeMap w) /\ 0 < T) \/
          (forall d, image2D env name = Some d ->
             fst (img_size d) = snd (img_size d) ->
             fst (img_size d) <> imageSize_ (cubeMap w) ->
             fst (img_size d) <= 0)) as [Hres|Hsame].
  { destruct (image2D env name) as [d|]; [|right; discriminate].
    destruct (img_size d) as [a b] eqn:Hsz. cbn [fst snd].
    destruct (Z.eq_dec a b) as [<-|Hab];
      [|right; intros d' [= <-]; rewrite Hsz; cbn; congruence].
    destruct (Z.eq_dec a (imageSize_ (cubeMap w))) as [He|Hne];
      [right; intros d' [= <-]; rewrite Hsz; cbn; congruence|].
    destruct (Z_lt_le_dec 0 a) as [Hpos|Hle].
    - left. exists d, a. auto.
    - right. intros d' [= <-]. rewrite Hsz. cbn. auto. }
  { exact Hres. }
  exfalso. rewrite (loadTexture_prelims _ _ _ _ _ t Hf Hi Ht) in H.
  revert H.
  apply (Triple_defined
           (fun w1 => live (tex_id t) w1 /\
                      imageSize_ (cubeMap w1) = imageSize_ (cubeMap w))
           _ (fun _ _ => True)).
  - eapply Triple_bind; [apply (T_loadLoop _ _ _ _ _ _ Hov Hsame)|].
    intros size.
    eapply Triple_bind; [apply Triple_gets|]. intros c.
    destruct (_ && _).
    + eapply Triple_conseq; [| |apply T_generateMipmap]; cbn; tauto.
    + apply Triple_ret. auto.
  - split; [|reflexivity]. apply (pointee_live _ type). exact Ht.
Qed.

Lemma loadTexture_is_undefined_only_by_resize_or_overflow_witness :
  let w := constructed 4 1 in
  hasFlag (flags_ (cubeMap w)) (capability Color) = true /\
  importerPlugin (allFiles 2) = true /\
  (exists t, textures_ (cubeMap w) !! Color = Some (Some t)) /\
  ((exists d T,
      image2D (allFiles 2) (faceFile Color "cube" "png" 0) = Some d /\
      img_size d = (T, T) /\ T <> imageSize_ (cubeMap w) /\ 0 < T) \/
   depthArrayOverflows Color (imageSize_ (cubeMap w)) = true).
Proof.
  apply (loadTexture_is_undefined_only_by_resize_or_overflow (allFiles 2)
           (constructed 4 1) Color "cube" "png"
           "texture used after its destruction").
  vm_compute. reflexivity.
Defined.

End CubeMapFacts.
